(** * pyrealtime: layers, ports and trigger policies

    A shallow embedding of [pyrealtime/layer.py],
    [pyrealtime/input_layers.py] and the layer of
    [pyrealtime/decode_layer.py], and the properties of the processing
    loop, the port fabric, the producers and the trigger policies.

    Conventions of the embedding.
    - A Python value that travels through the graph is an [Item]: [None],
      [LayerSignal.STOP], an integer, a string or a [dict] with string keys.
      Values of other types, such as the arrays that [comma_decoder]
      returns, are not embedded.
    - A [multiprocessing.Queue] is the list of the items it holds, oldest
      first.  The producing end (a [Port]'s [out_queues]) records what has
      been put; the consuming end (a transform layer's [ports_in]) records
      what can be taken, and a [feed] of batches stands for the items the
      upstream threads put while this layer runs.
    - A call either returns, raises, or never returns (a blocking take on
      a queue nobody feeds, or a poll that never succeeds): [Outcome].
    - A rate or a duration is a rational number: every [int] and every
      finite float is one.  Durations are in seconds.  A quotient is the
      exact one, which a float rounds; the conversions that fail out of
      range are kept ([OverflowError]). *)

From Stdlib Require Import ZArith QArith Lia.
From stdpp Require Import base option list strings gmap.

Local Open Scope string_scope.
Local Open Scope list_scope.

(** ** Values and results *)

(** The Python values the layers handle. *)
#[warnings="-register-all"]
Inductive Item : Type :=
  | NONE                              (* None *)
  | STOP                              (* LayerSignal.STOP *)
  | Int (z : Z)
  | Str (s : string)
  | Map (m : gmap string Item).       (* dict *)

(** [data is None] *)
Definition is_None (d : Item) : bool :=
  match d with NONE => true | _ => false end.

(** [isinstance(data, LayerSignal)]: the enumeration has the single member
    [STOP]. *)
Definition isinstance_LayerSignal (d : Item) : bool :=
  match d with STOP => true | _ => false end.

(** [data == LayerSignal.STOP] *)
Definition eq_STOP (d : Item) : bool :=
  match d with STOP => true | _ => false end.

Inductive Exn : Type :=
  | NameError (msg : string)
  | KeyError (key : string)
  | IndexError
  | TypeError
  | AssertionError
  | NotImplementedError
  | ZeroDivisionError
  | ValueError
  | OverflowError.

Inductive Outcome (A : Type) : Type :=
  | Ok (a : A)
  | Raise (e : Exn)
  | Blocked.
Arguments Ok {A} a.
Arguments Raise {A} e.
Arguments Blocked {A}.

Global Instance Outcome_ret : MRet Outcome := fun _ a => Ok a.
Global Instance Outcome_bind : MBind Outcome := fun _ _ k c =>
  match c with
  | Ok a => k a
  | Raise e => Raise e
  | Blocked => Blocked
  end.

(** A queue: its contents, oldest first. *)
Abbreviation Queue := (list Item).

(** ** Port: the fan-out hub *)

Module Port.

(** [emitted] is a ghost field: the items that went through the
    [data is not None] test of [handle_output], in order. *)
Record t : Type := mk { out_queues : list Queue; emitted : list Item }.

(** [Port.__init__] *)
Definition init : t := mk [] [].

(** [Port.get_output]: a fresh queue is appended to [out_queues]; the
    result is its position. *)
Definition get_output (p : t) : nat * t :=
  (length (out_queues p), mk (out_queues p ++ [[]]) (emitted p)).

(** [Port.handle_output] *)
Definition handle_output (data : Item) (p : t) : t :=
  if is_None data then p
  else mk (map (fun q => q ++ [data]) (out_queues p)) (emitted p ++ [data]).

End Port.

(** [data[key]] for a string key: only a [dict] can be indexed by a string;
    a missing key raises [KeyError]. *)
Definition getitem (data : Item) (key : string) : Outcome Item :=
  match data with
  | Map m => match m !! key with
             | Some v => Ok v
             | None => Raise (KeyError key)
             end
  | _ => Raise TypeError
  end.

(** ** BaseOutputLayer: the single default output port *)

Module BaseOutputLayer.

Record t : Type := mk { out_port : Port.t }.

Definition init : t := mk Port.init.

Definition handle_output (data : Item) (o : t) : t :=
  mk (Port.handle_output data (out_port o)).

Definition get_output (o : t) : nat * t :=
  let '(q, p) := Port.get_output (out_port o) in (q, mk p).

End BaseOutputLayer.

(** ** MultiOutputMixin: declared and auto port tables *)

Module MultiOutput.

(** The object has the two tables and, through [BaseOutputLayer], the
    default port. *)
Record t : Type := mk {
  ports : gmap string Port.t;
  auto_ports : gmap string Port.t;
  base : BaseOutputLayer.t
}.

(** [get_port] returns a reference to a [Port] object that stays in its
    table: the reference is the table and the name. *)
Inductive PortRef : Type :=
  | Declared (name : string)
  | Auto (name : string).

Definition deref (r : PortRef) (st : t) : option Port.t :=
  match r with
  | Declared name => ports st !! name
  | Auto name => auto_ports st !! name
  end.

(** [MultiOutputMixin.__init__] *)
Definition init : t := mk ∅ ∅ BaseOutputLayer.init.

(** [_register_port(port, auto)] *)
Definition _register_port (port : string) (auto : bool) (st : t) : Outcome t :=
  if auto then
    match auto_ports st !! port with
    | Some _ => Raise (NameError ("Port " +:+ port +:+ " already exists"))
    | None => Ok (mk (ports st) (<[port := Port.init]> (auto_ports st)) (base st))
    end
  else
    match ports st !! port with
    | Some _ => Raise (NameError ("Port " +:+ port +:+ " already exists"))
    | None => Ok (mk (<[port := Port.init]> (ports st)) (auto_ports st) (base st))
    end.

(** [get_port(port)] *)
Definition get_port (port : string) (st : t) : Outcome (PortRef * t) :=
  match ports st !! port with
  | Some _ => Ok (Declared port, st)
  | None =>
    match auto_ports st !! port with
    | Some _ => Ok (Auto port, st)
    | None =>
      st' ← _register_port port true st;
      match auto_ports st' !! port with
      | Some _ => Ok (Auto port, st')
      | None => Raise (NameError ("Port " +:+ port +:+ " does not exist"))
      end
    end
  end.

(** The [try: port.handle_output(data[key]) except KeyError: pass] of the
    loop body, for the port object [p]. *)
Definition try_forward (data : Item) (key : string) (p : Port.t) : Outcome Port.t :=
  match getitem data key with
  | Ok v => Ok (Port.handle_output v p)
  | Raise (KeyError _) => Ok p
  | Raise e => Raise e
  | Blocked => Blocked
  end.

(** One pass of the [for key in ...] body of [handle_output]. *)
Definition forward_key (data : Item) (key : string) (st : t) : Outcome t :=
  match ports st !! key with
  | Some port =>
      port' ← try_forward data key port;
      Ok (mk (<[key := port']> (ports st)) (auto_ports st) (base st))
  | None =>
    match auto_ports st !! key with
    | Some port =>
        port' ← try_forward data key port;
        Ok (mk (ports st) (<[key := port']> (auto_ports st)) (base st))
    | None => Raise (NameError ("Port " +:+ key +:+ " does not exist"))
    end
  end.

Fixpoint forward_keys (data : Item) (keys : list string) (st : t) : Outcome t :=
  match keys with
  | [] => Ok st
  | key :: keys' => st' ← forward_key data key st; forward_keys data keys' st'
  end.

(** [list(self.ports.keys()) + list(self.auto_ports.keys())].  A Python
    dict lists its keys in insertion order, a [gmap] in its own order;
    each key of a table is listed once in both, and the passes for
    different keys touch different port objects. *)
Definition port_keys (st : t) : list string :=
  (map_to_list (ports st)).*1 ++ (map_to_list (auto_ports st)).*1.

(** [MultiOutputMixin.handle_output] *)
Definition handle_output (data : Item) (st : t) : Outcome t :=
  st' ← (if is_None data then Ok st else forward_keys data (port_keys st) st);
  Ok (mk (ports st') (auto_ports st') (BaseOutputLayer.handle_output data (base st'))).

(** "Forward the sub-item when the key is present, skip when absent". *)
Definition forward (sub : option Item) (p : Port.t) : Port.t :=
  match sub with
  | Some v => Port.handle_output v p
  | None => p
  end.

(** The number of times a name is listed. *)
Definition occurrences : list string -> string -> nat := count_occ String.eq_dec.

End MultiOutput.

(** The output side of a layer: the plain [BaseOutputLayer], or the
    [MultiOutputMixin] that overrides [handle_output]. *)
Inductive OutputSide : Type :=
  | Single (o : BaseOutputLayer.t)
  | Multi (m : MultiOutput.t).

Definition handle_output (data : Item) (o : OutputSide) : Outcome OutputSide :=
  match o with
  | Single b => Ok (Single (BaseOutputLayer.handle_output data b))
  | Multi m => m' ← MultiOutput.handle_output data m; Ok (Multi m')
  end.

(** [self.out_port] *)
Definition default_port (o : OutputSide) : Port.t :=
  match o with
  | Single b => BaseOutputLayer.out_port b
  | Multi m => BaseOutputLayer.out_port (MultiOutput.base m)
  end.

(** ** BaseLayer: the processing loop *)

(** What a subclass or a mixin supplies: the methods of [BaseLayer] that
    are overridden, acting on the part [S] of the object that they own.
    [get_input] reads [self.counter]. *)
Class LayerOps (S : Type) : Type := {
  get_input : nat -> S -> Outcome (Item * S);
  transform : Item -> S -> Outcome (Item * S);
  post_init : Item -> S -> Outcome S;
  handle_signal : Item -> S -> Outcome S;
  shutdown : S -> Outcome S
}.

(** The calls the loop makes, in order (a ghost trace). *)
Inductive LoopEvent : Type :=
  | EvInput (data : Item)          (* get_input returned data *)
  | EvPostInit (data : Item)       (* post_init(data) was called *)
  | EvTransform (data result : Item)  (* transform(data) returned result *)
  | EvTick.                        (* tick() was called *)

(** The items that [get_input] returned, in order. *)
Definition inputs (tr : list LoopEvent) : list Item :=
  omap (fun e => match e with EvInput d => Some d | _ => None end) tr.

(** The arguments of the calls of [post_init]. *)
Definition post_inits (tr : list LoopEvent) : list Item :=
  omap (fun e => match e with EvPostInit d => Some d | _ => None end) tr.

(** The arguments of the calls of [transform]. *)
Definition transformed (tr : list LoopEvent) : list Item :=
  omap (fun e => match e with EvTransform d _ => Some d | _ => None end) tr.

(** The results of [transform] that are not [None]. *)
Definition results (tr : list LoopEvent) : list Item :=
  omap (fun e => match e with
                 | EvTransform _ r => if is_None r then None else Some r
                 | _ => None
                 end) tr.

(** The items of a list that are not [None]. *)
Definition not_None (l : list Item) : list Item :=
  List.filter (fun d => negb (is_None d)) l.

Module BaseLayer.
Section WithOps.
Context {S : Type} `{LayerOps S}.

(** The attributes of [BaseLayer.__init__] that the loop uses.
    [stop_event] is the flag of the event given to [start].  [tick] only
    updates the FPS statistics ([count], [start_time], [fps]), which
    follow the wall clock; the call is recorded in [trace]. *)
Record t : Type := mk {
  counter : nat;
  signal : Item;
  is_first : bool;
  stop_event : bool;
  signal_in : option Queue;
  out : OutputSide;
  self : S;
  trace : list LoopEvent
}.

(** [BaseLayer.__init__], then [start(stop_event)] with an event that
    is not set; [signal_in] is the queue of the signal port, if any. *)
Definition init (signal_in : option Queue) (o : OutputSide) (s : S) : t :=
  mk 0 NONE true false signal_in o s [].

Definition set_self (s : S) (L : t) : t :=
  mk (counter L) (signal L) (is_first L) (stop_event L) (signal_in L) (out L) s (trace L).

Definition log (e : LoopEvent) (L : t) : t :=
  mk (counter L) (signal L) (is_first L) (stop_event L) (signal_in L) (out L) (self L)
     (trace L ++ [e]).

(** [stop]: [self.stop_event.set()] *)
Definition stop (L : t) : t :=
  mk (counter L) (signal L) (is_first L) true (signal_in L) (out L) (self L) (trace L).

(** [tick] *)
Definition tick (L : t) : t := log EvTick L.

(** The [while not self.signal_in.empty()] loop of [get_signal], on the
    queued signals. *)
Fixpoint drain_signals (q : Queue) (L : t) : Outcome t :=
  match q with
  | [] => Ok L
  | sig :: q' =>
      s ← handle_signal sig (self L);
      drain_signals q'
        (mk (counter L) sig (is_first L) (stop_event L) (Some q') (out L) s (trace L))
  end.

(** [get_signal] *)
Definition get_signal (L : t) : Outcome t :=
  let L := mk (counter L) NONE (is_first L) (stop_event L) (signal_in L) (out L) (self L)
              (trace L) in
  match signal_in L with
  | Some q => drain_signals q L
  | None => Ok L
  end.

(** The [if self.is_first:] block. *)
Definition first_item (data : Item) (L : t) : Outcome t :=
  if is_first L then
    s ← post_init data (self L);
    let L := log (EvPostInit data) (set_self s L) in
    Ok (mk (counter L) (signal L) false (stop_event L) (signal_in L) (out L) (self L)
           (trace L))
  else Ok L.

(** One pass of the body of the [while] of [process_loop]. *)
Definition iteration (L : t) : Outcome t :=
  '(data, s) ← get_input (counter L) (self L);
  let L := log (EvInput data) (set_self s L) in
  if isinstance_LayerSignal data && eq_STOP data then Ok (stop L)
  else if is_None data then Ok L
  else
    L ← get_signal L;
    L ← first_item data L;
    '(data_transformed, s) ← transform data (self L);
    let L := log (EvTransform data data_transformed) (set_self s L) in
    if is_None data_transformed then Ok L
    else
      o ← handle_output data_transformed (out L);
      let L := mk (counter L) (signal L) (is_first L) (stop_event L) (signal_in L) o
                  (self L) (trace L) in
      let L := tick L in
      let L := if isinstance_LayerSignal data && eq_STOP data_transformed
               then stop L else L in
      Ok (mk (counter L + 1) (signal L) (is_first L) (stop_event L) (signal_in L) (out L)
             (self L) (trace L)).

(** At most [n] passes of the [while not self.stop_event.is_set()] loop. *)
Fixpoint while_loop (n : nat) (L : t) : Outcome t :=
  match n with
  | O => Ok L
  | Datatypes.S n' =>
      if stop_event L then Ok L
      else L' ← iteration L; while_loop n' L'
  end.

(** What follows the loop: the terminal [STOP] and [shutdown]. *)
Definition on_exit (L : t) : Outcome t :=
  o ← handle_output STOP (out L);
  s ← shutdown (self L);
  Ok (mk (counter L) (signal L) (is_first L) (stop_event L) (signal_in L) o s (trace L)).

(** [process_loop], observed for at most [n] passes: [None] when the
    loop is still running after them. *)
Definition process_loop (n : nat) (L : t) : Outcome (option t) :=
  L' ← while_loop n L;
  if stop_event L' then L'' ← on_exit L'; Ok (Some L'') else Ok None.

(** The parts of the layer that the hooks cannot reach. *)
Definition same_base (L L' : t) : Prop :=
  counter L' = counter L /\ is_first L' = is_first L /\
  stop_event L' = stop_event L /\ out L' = out L /\ trace L' = trace L.

(** The items on the default port, in the order of their emission. *)
Definition emitted (L : t) : list Item := Port.emitted (default_port (out L)).

(** What holds of [is_first] and of the calls of [post_init] between two
    passes of the loop of a layer that has been started. *)
Definition first_item_inv (L : t) : Prop :=
  (is_first L = true /\ post_inits (trace L) = [] /\ transformed (trace L) = [] /\
   ((stop_event L = false /\ not_None (inputs (trace L)) = []) \/
    (stop_event L = true /\ not_None (inputs (trace L)) = [STOP]))) \/
  (is_first L = false /\
   exists d, d <> STOP /\ post_inits (trace L) = [d] /\
             head (not_None (inputs (trace L))) = Some d /\
             head (transformed (trace L)) = Some d).

End WithOps.
Arguments t S : clear implicits.
End BaseLayer.

(** ** Producers ([input_layers.py]) *)

(** The least magnitude of an [int] that has no float: the conversion
    rounds to the nearest float, and [2^1024 - 2^970] is half-way between
    the largest one and [2^1024]. *)
Definition float_bound : Q := Eval vm_compute in inject_Z (2 ^ 1024 - 2 ^ 970).

(** [1.0/rate]: a rate that is an [int] is converted to a float first,
    which raises [OverflowError] beyond the range of the floats; no float
    is that large.  The quotient is the exact one. *)
Definition one_over (rate : Q) : Outcome Q :=
  if Qle_bool float_bound rate || Qle_bool rate (- float_bound) then Raise OverflowError
  else if Qeq_bool rate 0 then Raise ZeroDivisionError
  else Ok (1 / rate)%Q.

(** The counts of nanoseconds that fit a signed 64-bit integer. *)
Definition ns_min : Q := Eval vm_compute in inject_Z (- 2 ^ 63).
Definition ns_max : Q := Eval vm_compute in inject_Z (2 ^ 63 - 1).

(** [time.sleep(d)]: the duration is converted to a 64-bit count of
    nanoseconds, which raises [OverflowError] out of range; a negative
    count is then refused with [ValueError].  The count is rounded away
    from zero, which changes neither its sign nor whether it is in
    range. *)
Definition time_sleep (d : Q) : Outcome unit :=
  let ns := (d * 1000000000)%Q in
  if Qle_bool ns_min ns && Qle_bool ns ns_max then
    if Qle_bool 0 d then Ok tt else Raise ValueError
  else Raise OverflowError.

(** What a producer does besides returning an item (a ghost log). *)
Inductive ProducerEvent : Type :=
  | Slept (d : Q)
  | Generated (counter : nat)
  | Ticked
  | Completed.

(** [generate(counter)], the default frame generator of the producers. *)
Definition generate (counter : nat) : Item := Int (Z.of_nat counter).

(** The methods of [BaseLayer] that the producers inherit unchanged. *)
Definition base_transform {S : Type} (data : Item) (s : S) : Outcome (Item * S) :=
  Ok (data, s).
Definition base_pass {S : Type} (data : Item) (s : S) : Outcome S := Ok s.
Definition base_shutdown {S : Type} (s : S) : Outcome S := Ok s.

Module InputLayer.

Record t : Type := mk {
  _generate : nat -> Item;
  rate : Q;
  log : list ProducerEvent
}.

(** [InputLayer.__init__(frame_generator, rate)] *)
Definition init (frame_generator : option (nat -> Item)) (rate : Q) : t :=
  mk (default generate frame_generator) rate [].

Definition get_input (counter : nat) (self : t) : Outcome (Item * t) :=
  d ← one_over (rate self);
  _ ← time_sleep d;
  let data := _generate self counter in
  Ok (data, mk (_generate self) (rate self)
               (log self ++ [Slept d; Generated counter; Ticked])).

Global Instance ops : LayerOps t :=
  Build_LayerOps t get_input base_transform base_pass base_pass base_shutdown.

End InputLayer.

Module OneShotInputLayer.

Record t : Type := mk { value : Item; log : list ProducerEvent }.

Definition init (value : Item) : t := mk value [].

Definition get_input (counter : nat) (self : t) : Outcome (Item * t) :=
  if Nat.eqb counter 0 then Ok (value self, self)
  else
    _ ← time_sleep 1;
    Ok (NONE, mk (value self) (log self ++ [Slept 1])).

Global Instance ops : LayerOps t :=
  Build_LayerOps t get_input base_transform base_pass base_pass base_shutdown.

End OneShotInputLayer.

Module MultipleShotInputLayer.

(** The completion handler is a callback without result; only its calls
    are observed. *)
Inductive Handler : Type := UserHandler | default_completion_handler.

Record t : Type := mk {
  rate : Q;
  _generate : nat -> Item;
  num_shots : Z;
  finish : bool;
  completion_handler : option Handler;
  expired : bool;
  log : list ProducerEvent
}.

(** [MultipleShotInputLayer.__init__] *)
Definition init (num_shots : Z) (completion_handler : option Handler)
    (frame_generator : option (nat -> Item)) (rate : Q) (finish : bool) : t :=
  mk rate
     (default generate frame_generator)
     (if finish then num_shots + 1 else num_shots)%Z
     finish
     (Some (default default_completion_handler completion_handler))
     false
     [].

Definition add_log (evs : list ProducerEvent) (self : t) : t :=
  mk (rate self) (_generate self) (num_shots self) (finish self)
     (completion_handler self) (expired self) (log self ++ evs).

Definition set_expired (self : t) : t :=
  mk (rate self) (_generate self) (num_shots self) (finish self)
     (completion_handler self) true (log self).

Definition get_input (counter : nat) (self : t) : Outcome (Item * t) :=
  if (Z.of_nat counter <? num_shots self - 1)%Z then
    d ← one_over (rate self);
    _ ← time_sleep d;
    let data := _generate self counter in
    Ok (data, add_log [Slept d; Generated counter; Ticked] self)
  else if (Z.of_nat counter =? num_shots self - 1)%Z then
    d ← one_over (rate self);
    _ ← time_sleep d;
    let self := add_log [Slept d; Ticked] self in
    let self := match completion_handler self with
                | Some _ => add_log [Completed] self
                | None => self
                end in
    if finish self then Ok (Int (-1), self) else Ok (NONE, self)
  else
    let self := if negb (expired self) then set_expired self else self in
    d ← one_over (rate self);
    _ ← time_sleep d;
    Ok (NONE, add_log [Slept d] self).

Global Instance ops : LayerOps t :=
  Build_LayerOps t get_input base_transform base_pass base_pass base_shutdown.

(** The number of calls of the completion handler so far. *)
Definition completions (self : t) : nat :=
  length (List.filter (fun e => match e with Completed => true | _ => false end)
                      (log self)).

End MultipleShotInputLayer.

(** ** TransformMixin: input queues and trigger policies *)

Inductive LayerTrigger : Type := SLOWEST | FASTEST | LAYER | TIMER.

(** The [trigger] argument: Python accepts any object there. *)
Inductive TriggerValue : Type :=
  | Trigger (t : LayerTrigger)
  | Other (v : Item).

(** The [trigger_source] argument: [None], a duration (for [TIMER]) or a
    key (for [LAYER]). *)
Inductive TriggerSource : Type :=
  | NoSource
  | Seconds (d : Q)
  | KeyName (k : string).

Module TransformMixin.

(** The items that upstream ports put on the input queues of the layer
    during one stretch of time, in order. *)
Abbreviation Batch := (list (string * Item)).

(** [feed] and [slept] are ghost fields.  [feed] holds the batches that
    have not arrived yet; a batch arrives when the thread lets time pass:
    on entry of [get_input], in [sleep], and while a blocking [get]
    waits.  [slept] lists the durations given to [sleep]. *)
Record t : Type := mk {
  ports_in : gmap string Queue;
  keys : list string;
  discard_old : bool;
  trigger : TriggerValue;
  trigger_source : TriggerSource;
  feed : list Batch;
  slept : list Q
}.

Definition set_queues (qs : gmap string Queue) (f : list Batch) (self : t) : t :=
  mk qs (keys self) (discard_old self) (trigger self) (trigger_source self) f (slept self).

Definition set_trigger (tr : TriggerValue) (src : TriggerSource) (self : t) : t :=
  mk (ports_in self) (keys self) (discard_old self) tr src (feed self) (slept self).

Definition with_feed (f : list Batch) (self : t) : t := set_queues (ports_in self) f self.

(** [set_input(port_in, key)]: the upstream port gets a new subscriber
    queue, empty at first. *)
Definition set_input (port_in : Port.t) (key : string) (self : t) : Outcome (t * Port.t) :=
  if bool_decide (key ∈ keys self) then Raise AssertionError
  else
    let '(_, port_in') := Port.get_output port_in in
    Ok (mk (<[key := []]> (ports_in self)) (keys self ++ [key]) (discard_old self)
           (trigger self) (trigger_source self) (feed self) (slept self),
        port_in').

(** [TransformMixin.__init__(port_in, trigger, trigger_source, discard_old)] *)
Definition init (port_in : option Port.t) (trigger : TriggerValue)
    (trigger_source : TriggerSource) (discard_old : bool) : Outcome (t * option Port.t) :=
  let self := mk ∅ [] discard_old (Trigger SLOWEST) NoSource [] [] in
  '(self, up) ← match port_in with
                | Some p => '(self, p') ← set_input p "default" self; Ok (self, Some p')
                | None => Ok (self, None)
                end;
  Ok (set_trigger trigger trigger_source self, up).

(** A batch arrives: every item is appended to the queue of its key. *)
Definition deliver (b : Batch) (qs : gmap string Queue) : gmap string Queue :=
  foldl (fun qs kv => alter (fun q => q ++ [kv.2]) kv.1 qs) qs b.

Definition arrive (self : t) : t :=
  match feed self with
  | [] => self
  | b :: f => set_queues (deliver b (ports_in self)) f self
  end.

(** [sleep(d)] *)
Definition sleep (d : Q) (self : t) : Outcome t :=
  _ ← time_sleep d;
  Ok (arrive (mk (ports_in self) (keys self) (discard_old self) (trigger self)
                 (trigger_source self) (feed self) (slept self ++ [d]))).

(** A blocking take on the queue of [key]: batches arrive until the queue
    holds an item; with nothing left to arrive the call never returns. *)
Fixpoint wait (key : string) (f : list Batch) (qs : gmap string Queue)
    : Outcome (Item * gmap string Queue * list Batch) :=
  match qs !! key with
  | None => Raise (KeyError key)
  | Some (v :: q) => Ok (v, <[key := q]> qs, f)
  | Some [] =>
      match f with
      | [] => Blocked
      | b :: f' => wait key f' (deliver b qs)
      end
  end.

(** [self.ports_in[key].get()] *)
Definition get (key : string) (self : t) : Outcome (Item * t) :=
  '(v, qs, f) ← wait key (feed self) (ports_in self);
  Ok (v, set_queues qs f self).

(** [self.ports_in[key].get_nowait()]; [None] stands for [queue.Empty]. *)
Definition get_nowait (key : string) (self : t) : Outcome (option Item * t) :=
  match ports_in self !! key with
  | None => Raise (KeyError key)
  | Some [] => Ok (None, self)
  | Some (v :: q) => Ok (Some v, set_queues (<[key := q]> (ports_in self)) (feed self) self)
  end.

(** The loop [while True: data[key] = get_nowait(); if once: break],
    left through [queue.Empty], on the contents [q] of the queue: the
    result is [data] and what stays in the queue. *)
Fixpoint drain (q : Queue) (once : bool) (key : string) (data : gmap string Item)
    : gmap string Item * Queue :=
  match q with
  | [] => (data, [])
  | v :: q' =>
      let data := <[key := v]> data in
      if once then (data, q') else drain q' once key data
  end.

(** The [try: while True: ... except queue.Empty: pass] block for [key]. *)
Definition take_nowait (once : bool) (key : string) (data : gmap string Item) (self : t)
    : Outcome (gmap string Item * t) :=
  match ports_in self !! key with
  | None => Raise (KeyError key)
  | Some q =>
      let '(data, q') := drain q once key data in
      Ok (data, set_queues (<[key := q']> (ports_in self)) (feed self) self)
  end.

(** The [for key in self.keys] loop of [get_all]. *)
Fixpoint get_all_keys (ks : list string) (discard_old : bool) (data : gmap string Item)
    (self : t) : Outcome (gmap string Item * t) :=
  match ks with
  | [] => Ok (data, self)
  | key :: ks' =>
      '(v, self) ← get key self;
      let data := <[key := v]> data in
      '(data, self) ← (if discard_old then take_nowait false key data self
                       else Ok (data, self));
      get_all_keys ks' discard_old data self
  end.

Definition get_all (discard_old : bool) (self : t) : Outcome (gmap string Item * t) :=
  get_all_keys (keys self) discard_old ∅ self.

(** The [for key in self.keys] loop of [get_all_nowait]. *)
Fixpoint get_all_nowait_keys (ks : list string) (discard_old : bool)
    (data : gmap string Item) (self : t) : Outcome (gmap string Item * t) :=
  match ks with
  | [] => Ok (data, self)
  | key :: ks' =>
      '(data, self) ← take_nowait (negb discard_old) key data self;
      get_all_nowait_keys ks' discard_old data self
  end.

Definition get_all_nowait (discard_old : bool) (self : t)
    : Outcome (gmap string Item * t) :=
  get_all_nowait_keys (keys self) discard_old ∅ self.

(** The [for key in self.keys] loop of [get_any]: [Some data] when the
    loop returns [data]; [value] is the local variable of that name. *)
Fixpoint poll_keys (ks : list string) (value : Item) (data : gmap string Item) (self : t)
    : Outcome (option (gmap string Item) * Item * t) :=
  match ks with
  | [] => Ok (None, value, self)
  | key :: ks' =>
      '(r, self) ← get_nowait key self;
      let value := match r with Some v => v | None => value end in
      if negb (is_None value) then Ok (Some (<[key := value]> data), value, self)
      else poll_keys ks' value data self
  end.

(** The [while True] loop of [get_any], for at most [passes] passes; when
    they are used up the call has not returned. *)
Fixpoint get_any_loop (passes : nat) (value : Item) (data : gmap string Item)
    (sleep_time : Q) (self : t) : Outcome (gmap string Item * t) :=
  match passes with
  | O => Blocked
  | S n =>
      '(r, value, self) ← poll_keys (keys self) value data self;
      match r with
      | Some d => Ok (d, self)
      | None =>
          self ← sleep sleep_time self;
          get_any_loop n value data (sleep_time * 2)%Q self
      end
  end.

Definition get_any (passes : nat) (self : t) : Outcome (gmap string Item * t) :=
  get_any_loop passes NONE ∅ (1 # 1000)%Q self.

(** The [for key in self.keys] loop of [get_ensure_layer]. *)
Fixpoint get_ensure_keys (ks : list string) (layer : string) (discard_old : bool)
    (data : gmap string Item) (self : t) : Outcome (gmap string Item * t) :=
  match ks with
  | [] => Ok (data, self)
  | key :: ks' =>
      if String.eqb key layer then get_ensure_keys ks' layer discard_old data self
      else
        '(data, self) ← take_nowait (negb discard_old) key data self;
        get_ensure_keys ks' layer discard_old data self
  end.

Definition get_ensure_layer (layer : TriggerSource) (discard_old : bool) (self : t)
    : Outcome (gmap string Item * t) :=
  match layer with
  | KeyName layer =>
      if bool_decide (layer ∈ keys self) then
        '(v, self) ← get layer self;
        get_ensure_keys (keys self) layer discard_old (<[layer := v]> ∅) self
      else Raise AssertionError
  | _ => Raise AssertionError
  end.

(** [self.keys[0] == 'default' and len(self.keys) == 1] *)
Definition sole_default (ks : list string) : Outcome bool :=
  match ks with
  | [] => Raise IndexError
  | k :: _ => Ok (String.eqb k "default" && Nat.eqb (length ks) 1)
  end.

(** [TransformMixin.get_input]; [passes] bounds the polling of [FASTEST]. *)
Definition get_input (passes : nat) (self : t) : Outcome (Item * t) :=
  let self := arrive self in
  '(data, self) ←
    match trigger self with
    | Trigger TIMER =>
        self ← match trigger_source self with
               | Seconds d => sleep d self
               | _ => Raise TypeError
               end;
        get_all_nowait (discard_old self) self
    | Trigger SLOWEST => get_all (discard_old self) self
    | Trigger FASTEST => get_any passes self
    | Trigger LAYER => get_ensure_layer (trigger_source self) (discard_old self) self
    | Other _ => Raise AssertionError
    end;
  b ← sole_default (keys self);
  if b : bool then v ← getitem (Map data) "default"; Ok (v, self)
  else Ok (Map data, self).

(** [n] calls of [get_input] in a row: the items they return. *)
Fixpoint get_inputs (passes n : nat) (self : t) : Outcome (list Item * t) :=
  match n with
  | O => Ok ([], self)
  | S n' =>
      '(d, self) ← get_input passes self;
      '(ds, self) ← get_inputs passes n' self;
      Ok (d :: ds, self)
  end.

(** The items of [key] in a batch. *)
Definition batch_items (key : string) (b : Batch) : list Item :=
  (List.filter (fun kv => String.eqb kv.1 key) b).*2.

(** The configuration of the layer, which taking items leaves alone. *)
Definition same_config (self self' : t) : Prop :=
  keys self' = keys self /\ trigger self' = trigger self /\
  discard_old self' = discard_old self /\
  (forall k, is_Some (ports_in self' !! k) <-> is_Some (ports_in self !! k)).

(** The items of [key] in the batches that have not arrived yet. *)
Definition pending (key : string) (f : list Batch) : nat :=
  length (List.filter (fun kv => String.eqb kv.1 key) (concat f)).

(** What the layer can still take on a key, from its queues and feed. *)
Definition avail (qs : gmap string Queue) (f : list Batch) (key : string) : nat :=
  length (default [] (qs !! key)) + pending key f.

(** The items of [key] that the layer can still take: those in its queue
    and those that will arrive. *)
Definition available (key : string) (self : t) : nat :=
  length (default [] (ports_in self !! key)) + pending key (feed self).

(** The items of [key] in the order in which the layer can take them:
    those in its queue, then those that will arrive. *)
Definition strm (qs : gmap string Queue) (f : list Batch) (key : string) : list Item :=
  default [] (qs !! key) ++ concat (map (batch_items key) f).

Definition stream (key : string) (self : t) : list Item :=
  strm (ports_in self) (feed self) key.


End TransformMixin.

(** ** TransformLayer: a transform mixin with the user's transformer *)

Module TransformLayer.

Record t : Type := mk { mixin : TransformMixin.t; transformer : Item -> Item }.

(** [TransformLayer.__init__(port_in, transformer, ...)] *)
Definition init (port_in : option Port.t) (transformer : Item -> Item)
    (trigger : TriggerValue) (trigger_source : TriggerSource) (discard_old : bool)
    : Outcome (t * option Port.t) :=
  '(m, up) ← TransformMixin.init port_in trigger trigger_source discard_old;
  Ok (mk m transformer, up).

Definition get_input (passes : nat) (counter : nat) (self : t) : Outcome (Item * t) :=
  '(data, m) ← TransformMixin.get_input passes (mixin self);
  Ok (data, mk m (transformer self)).

Definition transform (data : Item) (self : t) : Outcome (Item * t) :=
  Ok (transformer self data, self).

Definition ops (passes : nat) : LayerOps t :=
  Build_LayerOps t (get_input passes) transform base_pass base_pass base_shutdown.

End TransformLayer.

(** ** DecodeLayer ([decode_layer.py]): a transform mixin that decodes
    into a multi-output port set *)

Module DecodeLayer.

Record t : Type := mk { mixin : TransformMixin.t; decode : Item -> Item }.

(** The [for port_name in port_names: self._register_port(port_name)] loop
    of [DecodeLayer.__init__]. *)
Fixpoint register_ports (port_names : list string) (o : MultiOutput.t)
    : Outcome MultiOutput.t :=
  match port_names with
  | [] => Ok o
  | port_name :: rest =>
      o' ← MultiOutput._register_port port_name false o;
      register_ports rest o'
  end.

(** [DecodeLayer.__init__(port_in, decoder, port_names, ...)]: the input
    side and the output side of the new layer. *)
Definition init (port_in : option Port.t) (decoder : Item -> Item)
    (port_names : option (list string)) (trigger : TriggerValue)
    (trigger_source : TriggerSource) (discard_old : bool)
    : Outcome (t * MultiOutput.t * option Port.t) :=
  '(m, up) ← TransformMixin.init port_in trigger trigger_source discard_old;
  o ← match port_names with
      | Some names => register_ports names MultiOutput.init
      | None => Ok MultiOutput.init
      end;
  Ok (mk m decoder, o, up).

Definition get_input (passes : nat) (counter : nat) (self : t) : Outcome (Item * t) :=
  '(data, m) ← TransformMixin.get_input passes (mixin self);
  Ok (data, mk m (decode self)).

(** [DecodeLayer.transform] *)
Definition transform (data : Item) (self : t) : Outcome (Item * t) :=
  let data_dict := decode self data in
  Ok (data_dict, self).

Definition ops (passes : nat) : LayerOps t :=
  Build_LayerOps t (get_input passes) transform base_pass base_pass base_shutdown.

End DecodeLayer.

(** ** Layers of the scenarios *)

Module Scenario.

(** A default output port with one subscriber. *)
Definition one_subscriber : OutputSide :=
  Single (BaseOutputLayer.mk (Port.get_output Port.init).2).

(** [InputLayer(rate=30)], started. *)
Definition counting : BaseLayer.t InputLayer.t :=
  BaseLayer.init None one_subscriber (InputLayer.init None 30).

Definition counting_after_3 : BaseLayer.t InputLayer.t :=
  Eval vm_compute in
    match BaseLayer.while_loop 3 counting with Ok L => L | _ => counting end.

(** [OneShotInputLayer(42)], started. *)
Definition one_shot : BaseLayer.t OneShotInputLayer.t :=
  BaseLayer.init None one_subscriber (OneShotInputLayer.init (Int 42)).

Definition one_shot_after_3 : BaseLayer.t OneShotInputLayer.t :=
  Eval vm_compute in
    match BaseLayer.while_loop 3 one_shot with Ok L => L | _ => one_shot end.

(** [MultipleShotInputLayer(num_shots=3)] and
    [MultipleShotInputLayer(num_shots=3, finish=True)], started. *)
Definition three_shots (finish : bool) : BaseLayer.t MultipleShotInputLayer.t :=
  BaseLayer.init None one_subscriber
    (MultipleShotInputLayer.init 3 None None 30 finish).

(** The producer object with the default generator and handler, at rate
    30, and the started layer around it. *)
Definition shots (n : Z) (finish expired : bool) (lg : list ProducerEvent) : MultipleShotInputLayer.t :=
  MultipleShotInputLayer.mk 30 generate n finish (Some MultipleShotInputLayer.default_completion_handler) expired lg.

Definition layer (c : nat) (first : bool) (b : BaseOutputLayer.t) (s : MultipleShotInputLayer.t)
    (tr : list LoopEvent) : BaseLayer.t MultipleShotInputLayer.t :=
  BaseLayer.mk c NONE first false None (Single b) s tr.

Definition sleep_30 : Q := Eval vm_compute in (1 / 30)%Q.

Definition numbers (c k : nat) : list Item := map (fun i => Int (Z.of_nat i)) (seq c k).

(** A port set with the declared port ["a"] and the auto port ["b"], one
    subscriber each, and a mapping that has ["a"] only. *)
Definition two_ports : MultiOutput.t :=
  MultiOutput.mk {["a" := (Port.get_output Port.init).2]}
                 {["b" := (Port.get_output Port.init).2]} BaseOutputLayer.init.

Definition only_a : gmap string Item := {["a" := Int 1]}.

(** [TransformLayer(port, lambda data: LayerSignal.STOP)] on a port that
    will carry the items 1 and 2, started. *)
Definition stopper : BaseLayer.t TransformLayer.t :=
  BaseLayer.init None one_subscriber
    (TransformLayer.mk
       (TransformMixin.mk {["default" := []]} ["default"] false (Trigger SLOWEST)
          NoSource [[("default", Int 1)]; [("default", Int 2)]] [])
       (fun _ => STOP)).

(** A single default input on which nothing has arrived, under [TIMER]
    with a period of 100 ms. *)
Definition idle_timer : TransformMixin.t :=
  TransformMixin.mk {["default" := []]} ["default"] false (Trigger TIMER)
    (Seconds (1 # 10)) [] [].




(** A single default input under [SLOWEST] with [discard_old], on which
    the items 1 and 2 have arrived. *)
Definition backlog : TransformMixin.t :=
  TransformMixin.mk {["default" := [Int 1; Int 2]]} ["default"] true (Trigger SLOWEST)
    NoSource [] [].

(** Two inputs under [SLOWEST] without [discard_old]; two items on each
    key, arriving at different times. *)
Definition skewed : TransformMixin.t :=
  TransformMixin.mk {["a" := [Int 1]; "b" := []]} ["a"; "b"] false (Trigger SLOWEST)
    NoSource [[("b", Int 10); ("a", Int 2)]; [("b", Int 20)]] [].

(** The same two inputs with [discard_old]: two items wait on ["a"] and
    a third one arrives with the first item of ["b"]. *)
Definition skewed_discard : TransformMixin.t :=
  TransformMixin.mk {["a" := [Int 1; Int 2]; "b" := []]} ["a"; "b"] true (Trigger SLOWEST)
    NoSource [[("b", Int 10); ("a", Int 3)]; [("b", Int 20)]] [].

End Scenario.


(** ** Sequences of calls *)

(** [for data in ds: port.handle_output(data)] *)
Definition emit_all (ds : list Item) (p : Port.t) : Port.t :=
  foldl (fun p data => Port.handle_output data p) p ds.

(** The items that are neither [None] nor a [dict]: [data[key]] raises
    [TypeError] on them. *)
Definition is_scalar (data : Item) : bool :=
  match data with
  | STOP | Int _ | Str _ => true
  | NONE | Map _ => false
  end.

(** The message of the [NameError] of [_register_port]. *)
Definition already_exists (port : string) : Exn :=
  NameError ("Port " +:+ port +:+ " already exists").

Module ScenarioPorts.

(** A port set whose auto port ["a"] has a subscriber. *)
Definition auto_a : MultiOutput.t :=
  MultiOutput.mk ∅ {["a" := (Port.get_output Port.init).2]} BaseOutputLayer.init.

End ScenarioPorts.

Module ScenarioLoop.

(** [OneShotInputLayer(LayerSignal.STOP)], started. *)
Definition stop_shot : BaseLayer.t OneShotInputLayer.t :=
  BaseLayer.init None Scenario.one_subscriber (OneShotInputLayer.init STOP).

(** A decode layer with the declared port ["a"] and the auto port ["b"],
    started, on whose input the upstream layer has put its terminal
    [STOP]. *)
Definition decode_stopped : BaseLayer.t DecodeLayer.t :=
  BaseLayer.init None (Multi Scenario.two_ports)
    (DecodeLayer.mk
       (TransformMixin.mk {["default" := [STOP]]} ["default"] false (Trigger SLOWEST)
          NoSource [] [])
       (fun data => data)).

(** [InputLayer(rate=30)] with a signal port on which two signals wait. *)
Definition signalled : BaseLayer.t InputLayer.t :=
  BaseLayer.init (Some [Str "slow"; Str "fast"]) Scenario.one_subscriber
    (InputLayer.init None 30).

End ScenarioLoop.

(** ** Producers, run for several passes *)

(** The frames that a generator gives for the counters [c .. c+k-1]. *)
Definition frames (g : nat -> Item) (c k : nat) : list Item := map g (seq c k).

(** What [InputLayer.get_input] does in one call at counter [c]. *)
Definition pass_log (d : Q) (c : nat) : list ProducerEvent :=
  [Slept d; Generated c; Ticked].

(** The counters that the frame generator has been called with. *)
Definition generated (lg : list ProducerEvent) : list nat :=
  omap (fun e => match e with Generated c => Some c | _ => None end) lg.

(** Bounds that are well inside the ranges of the two conversions: a
    duration of [9 * 10^9] seconds is below [2^63] nanoseconds, and
    [10^300] is below the largest float. *)
Definition period_max : Q := 9000000000.
Definition rate_max : Q := Eval vm_compute in inject_Z (10 ^ 300).

(** A rate whose period [time.sleep] takes: a positive number, not above
    [rate_max], of which the inverse is not above [period_max]. *)
Definition steady (rate : Q) : Prop :=
  (0 < rate)%Q /\ (rate <= rate_max)%Q /\ (1 / rate <= period_max)%Q.

(** What [time.sleep(1.0/rate)] raises, by the rate and its inverse:
    the rate 0 cannot be inverted; a negative period within
    [period_max] is refused by [time.sleep]; a period beyond [10^10]
    seconds, of either sign, is out of the range of [time.sleep]. *)
Definition period_error (rate : Q) (e : Exn) : Prop :=
  (rate == 0 /\ e = ZeroDivisionError)%Q \/
  ((- rate_max <= rate)%Q /\ (rate < 0)%Q /\ (- period_max <= 1 / rate)%Q /\
   e = ValueError) \/
  (~ (rate == 0)%Q /\ (- rate_max <= rate)%Q /\ (rate <= rate_max)%Q /\
   ((10000000000 <= 1 / rate)%Q \/ (1 / rate <= - 10000000000)%Q) /\
   e = OverflowError).

Module ScenarioProducers.

(** A frame generator that has no frame for the counter 1. *)
Definition gap (counter : nat) : Item :=
  if Nat.eqb counter 1 then NONE else Int (Z.of_nat counter).

End ScenarioProducers.

(** ** Input policies, by what waits on the queues *)

(** The contents of the input queue of [key]. *)
Definition queue (key : string) (self : TransformMixin.t) : Queue :=
  default [] (TransformMixin.ports_in self !! key).

(** What the loop [while True: data[key] = get_nowait(); if not
    discard_old: break] records of a queue, and what it leaves there. *)
Definition taken (discard_old : bool) (q : Queue) : option Item :=
  if discard_old then last q else head q.

Definition left_over (discard_old : bool) (q : Queue) : Queue :=
  if discard_old then [] else tail q.

(** [return data['default']] or [return data], by the key list. *)
Definition unwrap {A : Type} (ks : list string) (m : gmap string Item) (self : A)
    : Outcome (Item * A) :=
  if bool_decide (ks = ["default"]) then
    match m !! "default" with
    | Some v => Ok (v, self)
    | None => Raise (KeyError "default")
    end
  else Ok (Map m, self).


Module ScenarioTransform.

(** Two inputs under [FASTEST], both with items waiting. *)
Definition both_ready : TransformMixin.t :=
  TransformMixin.mk {["a" := [Int 1]; "b" := [Int 2; Int 3]]} ["a"; "b"] false
    (Trigger FASTEST) NoSource [] [].

(** Two inputs under [TIMER] with a period of 100 ms; two items wait on
    ["a"], none on ["b"], and nothing arrives. *)
Definition timed (discard_old : bool) : TransformMixin.t :=
  TransformMixin.mk {["a" := [Int 1; Int 2]; "b" := []]} ["a"; "b"] discard_old
    (Trigger TIMER) (Seconds (1 # 10)) [] [].

(** Two inputs under [LAYER] with the trigger key ["b"]: two items wait
    on each key. *)
Definition led (discard_old : bool) : TransformMixin.t :=
  TransformMixin.mk {["a" := [Int 1; Int 2]; "b" := [Int 10; Int 20]]} ["a"; "b"]
    discard_old (Trigger LAYER) (KeyName "b") [] [].


End ScenarioTransform.

(** ** A transform layer on one input *)

(** A mixin with the single input ["default"] under the default policy
    ([SLOWEST], no [discard_old]): what [TransformLayer(port, f)]
    builds. *)
Definition single_slowest (m : TransformMixin.t) : Prop :=
  TransformMixin.trigger m = Trigger SLOWEST /\
  TransformMixin.discard_old m = false /\
  TransformMixin.keys m = ["default"] /\
  is_Some (TransformMixin.ports_in m !! "default").

(** The items are ordinary data: neither [None] nor [STOP]. *)
Definition is_data (v : Item) : Prop := v <> NONE /\ v <> STOP.

Module ScenarioPipeline.

(** [lambda x: 2 * x] on numbers; nothing for the number 0. *)
Definition double (data : Item) : Item :=
  match data with
  | Int 0 => NONE
  | Int z => Int (2 * z)
  | _ => data
  end.

(** The input of the layer: 1 waits, then 0, 2 and the terminal [STOP]
    of the upstream layer arrive. *)
Definition input : TransformMixin.t :=
  TransformMixin.mk {["default" := [Int 1]]} ["default"] false (Trigger SLOWEST) NoSource
    [[("default", Int 0)]; [("default", Int 2)]; [("default", STOP)]] [].

(** [TransformLayer(port, double)], started, with one subscriber. *)
Definition doubler : BaseLayer.t TransformLayer.t :=
  BaseLayer.init None (Single (BaseOutputLayer.mk (Port.get_output Port.init).2))
    (TransformLayer.mk input double).

End ScenarioPipeline.

(** ** A decode layer between a port and its named ports *)

Module ScenarioDecode.

(** A decoder that knows numbers only: a number becomes the mapping with
    the entry ["x"], anything else is not decoded. *)
Definition decode_x (data : Item) : Item :=
  match data with
  | Int z => Map {["x" := Int z]}
  | _ => NONE
  end.

(** The ports of [DecodeLayer(port, decode_x, port_names=['x', 'y'])]. *)
Definition xy : MultiOutput.t :=
  MultiOutput.mk {["x" := Port.init; "y" := Port.init]} ∅ BaseOutputLayer.init.

(** The input of the layer: the number 7 waits. *)
Definition input : TransformMixin.t :=
  TransformMixin.mk {["default" := [Int 7]]} ["default"] false (Trigger SLOWEST) NoSource
    [] [].

(** The layer, started. *)
Definition decoder : BaseLayer.t DecodeLayer.t :=
  BaseLayer.mk 0 NONE true false None (Multi xy) (DecodeLayer.mk input decode_x) [].

End ScenarioDecode.

(** ** Wiring the inputs of a layer *)

(** [for port_in, key in ins: layer.set_input(port_in, key)], on the side
    of the layer: its keys and queues. *)
Fixpoint set_inputs (ins : list (Port.t * string)) (self : TransformMixin.t)
    : Outcome TransformMixin.t :=
  match ins with
  | [] => Ok self
  | (port_in, key) :: ins' =>
      '(self, _) ← TransformMixin.set_input port_in key self;
      set_inputs ins' self
  end.

(** The constructor, followed by these calls. *)
Definition wired (port_in : option Port.t) (trigger : TriggerValue)
    (trigger_source : TriggerSource) (discard_old : bool) (ins : list (Port.t * string))
    : Outcome TransformMixin.t :=
  '(self, _) ← TransformMixin.init port_in trigger trigger_source discard_old;
  set_inputs ins self.
(** * Properties *)

(** A sequence of two calls returns only if the first one does. *)
Lemma bind_Ok {A B : Type} (c : Outcome A) (k : A -> Outcome B) (b : B) :
  c ≫= k = Ok b -> exists a, c = Ok a /\ k a = Ok b.
Proof. destruct c as [a| |]; simpl; [eauto|discriminate|discriminate]. Qed.

Lemma bind_ret {A B : Type} (a : A) (k : A -> Outcome B) : Ok a ≫= k = k a.
Proof. reflexivity. Qed.

Tactic Notation "step_bind" hyp(H) "as" simple_intropattern(a) ident(E) :=
  apply bind_Ok in H as (a & E & H); simpl in H.

(** ** Multi-output port tables *)

Module MultiOutputFacts.
Import MultiOutput.

(** C10: [get_port] returns for every name and in every state: the
    declared port when the name is declared, else the auto port that
    exists, else an auto port that it creates; the reference it returns
    names a port of the resulting tables, so the last [raise] of
    [get_port] is never taken. *)
Theorem get_port_total (name : string) (st : t) :
  exists r st',
    get_port name st = Ok (r, st') /\
    is_Some (deref r st') /\
    ((is_Some (ports st !! name) /\ r = Declared name /\ st' = st) \/
     (ports st !! name = None /\ is_Some (auto_ports st !! name) /\
      r = Auto name /\ st' = st) \/
     (ports st !! name = None /\ auto_ports st !! name = None /\
      r = Auto name /\
      st' = mk (ports st) (<[name := Port.init]> (auto_ports st)) (base st))).
Proof.
  unfold get_port.
  destruct (ports st !! name) as [p|] eqn:Hp.
  - exists (Declared name), st. simpl. rewrite Hp. eauto 10.
  - destruct (auto_ports st !! name) as [p|] eqn:Ha.
    + exists (Auto name), st. simpl. rewrite Ha. eauto 10.
    + unfold _register_port. rewrite Ha. simpl.
      rewrite lookup_insert_eq.
      eexists (Auto name), _. split; [reflexivity|]. simpl.
      rewrite lookup_insert_eq. split; [eauto|]. right. right. auto.
Qed.

Lemma try_forward_mapping (m : gmap string Item) (key : string) (p : Port.t) :
  try_forward (Map m) key p = Ok (forward (m !! key) p).
Proof. unfold try_forward, getitem. by destruct (m !! key). Qed.

Lemma occurrences_keys {A} (M : gmap string A) (n : string) :
  occurrences (map_to_list M).*1 n = if M !! n is Some _ then 1 else 0.
Proof.
  pose proof (NoDup_fst_map_to_list M) as Hnd. apply NoDup_ListNoDup in Hnd.
  destruct (M !! n) as [a|] eqn:Hn.
  - apply (proj1 (NoDup_count_occ' String.eq_dec _) Hnd).
    apply list_elem_of_In, list_elem_of_fmap. exists (n, a). split; [done|].
    by apply elem_of_map_to_list.
  - apply count_occ_not_In. rewrite <- list_elem_of_In.
    intros [[k a] [-> Hin]]%list_elem_of_fmap.
    apply elem_of_map_to_list in Hin. simpl in Hn. congruence.
Qed.

(** The passes of the loop over a list of known names. *)
Lemma forward_keys_mapping (m : gmap string Item) (ks : list string) (st : t) :
  (forall k, k ∈ ks -> is_Some (ports st !! k) \/ is_Some (auto_ports st !! k)) ->
  exists st',
    forward_keys (Map m) ks st = Ok st' /\
    (forall n, ports st' !! n =
               Nat.iter (occurrences ks n) (forward (m !! n)) <$> ports st !! n) /\
    (forall n, auto_ports st' !! n =
               (if ports st !! n is Some _ then id
                else Nat.iter (occurrences ks n) (forward (m !! n))) <$> auto_ports st !! n) /\
    base st' = base st.
Proof.
  revert st. induction ks as [|k ks IH]; intros st Hknown.
  - exists st. simpl. repeat split; intros; try by destruct (_ !! _).
    destruct (ports st !! n); by destruct (auto_ports st !! n).
  - assert (Hk := Hknown k ltac:(left)).
    assert (exists st1, forward_key (Map m) k st = Ok st1 /\
              (forall n, ports st1 !! n =
                 (if decide (k = n) then forward (m !! n) else id) <$> ports st !! n) /\
              (forall n, auto_ports st1 !! n =
                 (if ports st !! n is Some _ then id
                  else if decide (k = n) then forward (m !! n) else id)
                 <$> auto_ports st !! n) /\
              base st1 = base st) as (st1 & Hst1 & Hp1 & Ha1 & Hb1).
    { unfold forward_key.
      destruct (ports st !! k) as [p|] eqn:Hp.
      - rewrite try_forward_mapping. eexists. split; [reflexivity|]. simpl.
        repeat split; intros n.
        + destruct (decide (k = n)) as [<-|Hne].
          * by rewrite lookup_insert_eq, Hp.
          * rewrite lookup_insert_ne by done. by destruct (ports st !! n).
        + destruct (ports st !! n) eqn:Hn; [by destruct (auto_ports st !! n)|].
          destruct (decide (k = n)) as [<-|Hne]; [congruence|].
          by destruct (auto_ports st !! n).
      - destruct Hk as [[? ?]|[p Ha]]; [congruence|]. rewrite Ha.
        rewrite try_forward_mapping. eexists. split; [reflexivity|]. simpl.
        repeat split; intros n.
        + destruct (decide (k = n)) as [<-|Hne];
            [by rewrite Hp | by destruct (ports st !! n)].
        + destruct (decide (k = n)) as [<-|Hne].
          * by rewrite lookup_insert_eq, Hp, Ha.
          * rewrite lookup_insert_ne by done.
            destruct (ports st !! n); by destruct (auto_ports st !! n). }
    destruct (IH st1) as (st' & Hst' & Hp' & Ha' & Hb').
    { intros k' Hk'. rewrite Hp1, Ha1.
      destruct (Hknown k' ltac:(by right)) as [[p Hp]|[p Ha]].
      - left. rewrite Hp. eauto.
      - right. rewrite Ha. simpl. eauto. }
    exists st'. simpl. rewrite Hst1. simpl. split; [done|].
    split; [|split; [|congruence]]; intros n.
    + rewrite Hp', Hp1. destruct (ports st !! n) as [p|]; [simpl|done].
      destruct (decide (k = n)) as [->|Hne]; unfold occurrences; simpl; destruct (String.eq_dec _ _); try done.
      by rewrite Nat.iter_succ_r.
    + rewrite Ha', Hp1, Ha1.
      destruct (ports st !! n) as [p|]; simpl; [by destruct (auto_ports st !! n)|].
      destruct (auto_ports st !! n) as [p|]; [simpl|done].
      destruct (decide (k = n)) as [->|Hne]; unfold occurrences; simpl; destruct (String.eq_dec _ _); try done.
      by rewrite Nat.iter_succ_r.
Qed.

Lemma port_keys_known (st : t) (k : string) :
  k ∈ port_keys st -> is_Some (ports st !! k) \/ is_Some (auto_ports st !! k).
Proof.
  intros [Hk|Hk]%elem_of_app;
    apply list_elem_of_fmap in Hk as [[k' p] [-> Hin]];
    apply elem_of_map_to_list in Hin; simpl; eauto.
Qed.

(** C9: on a mapping, [handle_output] returns; every declared port gets
    the sub-item of its name when the mapping has it and is left alone
    when it has not; so does every auto port whose name is not also
    declared; a name that is in both tables is served through the
    declared port, once for each table; and after that the default port
    gets the whole mapping.  With no name in both tables (which [get_port]
    preserves), each known port is served exactly once. *)
Theorem handle_output_mapping (m : gmap string Item) (st : t) :
  exists st',
    handle_output (Map m) st = Ok st' /\
    (forall name p, ports st !! name = Some p ->
       ports st' !! name =
         Some (Nat.iter (if auto_ports st !! name is Some _ then 2 else 1)
                        (forward (m !! name)) p)) /\
    (forall name p, auto_ports st !! name = Some p ->
       auto_ports st' !! name =
         Some (if ports st !! name is Some _ then p else forward (m !! name) p)) /\
    (forall name, ports st !! name = None -> ports st' !! name = None) /\
    (forall name, auto_ports st !! name = None -> auto_ports st' !! name = None) /\
    (ports st ##ₘ auto_ports st ->
     forall r p, deref r st = Some p ->
       deref r st' = Some (forward (m !! match r with Declared n | Auto n => n end) p)) /\
    base st' = BaseOutputLayer.handle_output (Map m) (base st).
Proof.
  destruct (forward_keys_mapping m (port_keys st) st) as (st1 & Hst1 & Hp & Ha & Hb);
    [apply port_keys_known|].
  unfold handle_output. simpl. rewrite Hst1. simpl.
  eexists. split; [reflexivity|]. simpl.
  assert (forall n, occurrences (port_keys st) n =
                    (if ports st !! n is Some _ then 1 else 0) +
                    (if auto_ports st !! n is Some _ then 1 else 0)) as Hocc.
  { intros n. rewrite <- !occurrences_keys. apply count_occ_app. }
  assert (forall name p, ports st !! name = Some p ->
            ports st1 !! name =
              Some (Nat.iter (if auto_ports st !! name is Some _ then 2 else 1)
                             (forward (m !! name)) p)) as Hdecl.
  { intros name p Hn. rewrite Hp, Hocc, Hn. simpl. by destruct (auto_ports st !! name). }
  assert (forall name p, auto_ports st !! name = Some p ->
            auto_ports st1 !! name =
              Some (if ports st !! name is Some _ then p else forward (m !! name) p))
    as Hauto.
  { intros name p Hn. rewrite Ha, Hocc, Hn. simpl. by destruct (ports st !! name). }
  split; [exact Hdecl|]. split; [exact Hauto|].
  split; [intros name Hn; by rewrite Hp, Hn|].
  split; [intros name Hn; by rewrite Ha, Hn|].
  split; [|by rewrite Hb].
  intros Hdisj [n|n] p Hn; simpl in *.
  - rewrite (Hdecl n p Hn).
    destruct (auto_ports st !! n) eqn:Han; [|done].
    by destruct (map_disjoint_spec (ports st) (auto_ports st)) as [Hd _];
      destruct (Hd Hdisj n _ _ Hn Han).
  - rewrite (Hauto n p Hn).
    destruct (ports st !! n) eqn:Hpn; [|done].
    by destruct (map_disjoint_spec (ports st) (auto_ports st)) as [Hd _];
      destruct (Hd Hdisj n _ _ Hpn Hn).
Qed.

(** C9, on a declared port ["a"] and an auto port ["b"] with the mapping
    [{"a": 1}]: the subscriber of ["a"] gets 1, that of ["b"] nothing, and
    the default port the mapping. *)
Lemma handle_output_mapping_witness :
  ports Scenario.two_ports ##ₘ auto_ports Scenario.two_ports /\
  exists st',
    handle_output (Map Scenario.only_a) Scenario.two_ports = Ok st' /\
    deref (Declared "a") st' = Some (Port.mk [[Int 1]] [Int 1]) /\
    deref (Auto "b") st' = Some (Port.mk [[]] []) /\
    Port.emitted (BaseOutputLayer.out_port (base st')) = [Map Scenario.only_a].
Proof.
  assert (ports Scenario.two_ports ##ₘ auto_ports Scenario.two_ports) as Hdisj
    by (apply map_disjoint_singleton_l_2; reflexivity).
  split; [exact Hdisj|].
  destruct (handle_output_mapping Scenario.only_a Scenario.two_ports)
    as (st' & Hst' & _ & _ & _ & _ & Hone & Hbase).
  exists st'. split; [exact Hst'|].
  split; [exact (Hone Hdisj (Declared "a") _ eq_refl)|].
  split; [exact (Hone Hdisj (Auto "b") _ eq_refl)|].
  rewrite Hbase. reflexivity.
Defined.

(** An item that is not a mapping cannot be indexed by a port name: with
    a port in either table, [handle_output] raises on it before it reaches
    the default port.  This is what happens to the terminal [STOP] of the
    processing loop. *)
Lemma handle_output_STOP_raises (st : t) :
  port_keys st <> [] -> handle_output STOP st = Raise TypeError.
Proof.
  intros Hne. unfold handle_output. simpl.
  destruct (port_keys st) as [|k ks] eqn:Hks; [done|]. simpl.
  unfold forward_key.
  destruct (port_keys_known st k) as [[p Hp]|[p Hp]]; [rewrite Hks; by left| |].
  - by rewrite Hp.
  - destruct (ports st !! k); [done|]. by rewrite Hp.
Qed.

(** No name is in both tables at first, and [get_port] keeps it so. *)
Lemma get_port_disjoint (name : string) (st st' : t) (r : PortRef) :
  ports st ##ₘ auto_ports st ->
  get_port name st = Ok (r, st') ->
  ports st' ##ₘ auto_ports st'.
Proof.
  intros Hdisj. unfold get_port.
  destruct (ports st !! name) as [p|] eqn:Hp; [by intros [= <- <-]|].
  destruct (auto_ports st !! name) as [p|] eqn:Ha; [by intros [= <- <-]|].
  unfold _register_port. rewrite Ha. simpl. rewrite lookup_insert_eq.
  intros [= <- <-]. simpl. by apply map_disjoint_insert_r_2.
Qed.

Lemma init_disjoint : ports init ##ₘ auto_ports init.
Proof. apply map_disjoint_empty_l. Qed.

End MultiOutputFacts.

(** ** The processing loop *)

Module BaseLayerFacts.
Section WithOps.
Import BaseLayer.
Context {S : Type} `{LayerOps S}.

Lemma drain_signals_base (q : Queue) (L L' : t S) :
  drain_signals q L = Ok L' -> same_base L L'.
Proof.
  revert L. induction q as [|sig q IH]; intros L Hd; simpl in Hd.
  - injection Hd as <-. by repeat split.
  - step_bind Hd as s Hs.
    apply IH in Hd. unfold same_base in *. simpl in Hd. exact Hd.
Qed.

Lemma get_signal_base (L L' : t S) : get_signal L = Ok L' -> same_base L L'.
Proof.
  unfold get_signal. simpl. destruct (signal_in L) as [q|].
  - intros Hd. apply drain_signals_base in Hd. exact Hd.
  - intros [= <-]. by repeat split.
Qed.

Lemma first_item_spec (data : Item) (L L' : t S) :
  first_item data L = Ok L' ->
  counter L' = counter L /\ is_first L' = false /\
  stop_event L' = stop_event L /\ out L' = out L /\
  trace L' = trace L ++ (if is_first L then [EvPostInit data] else []).
Proof.
  unfold first_item. destruct (is_first L) eqn:Hf.
  - intros Hd. step_bind Hd as s Hs. injection Hd as <-. by repeat split.
  - intros [= <-]. rewrite app_nil_r. by repeat split.
Qed.

(** What one pass of the loop does, by the item that [get_input]
    returned. *)
Lemma iteration_cases (L L' : t S) :
  iteration L = Ok L' ->
  exists d rest,
    trace L' = trace L ++ EvInput d :: rest /\
    ((d = STOP /\ rest = [] /\ stop_event L' = true /\
      counter L' = counter L /\ is_first L' = is_first L /\ out L' = out L) \/
     (d = NONE /\ rest = [] /\ stop_event L' = stop_event L /\
      counter L' = counter L /\ is_first L' = is_first L /\ out L' = out L) \/
     (d <> STOP /\ d <> NONE /\ stop_event L' = stop_event L /\ is_first L' = false /\
      exists r,
        rest = (if is_first L then [EvPostInit d] else []) ++
               EvTransform d r :: (if is_None r then [] else [EvTick]) /\
        if is_None r then counter L' = counter L /\ out L' = out L
        else counter L' = counter L + 1 /\ handle_output r (out L) = Ok (out L'))).
Proof.
  unfold iteration. intros Hit.
  step_bind Hit as [d s] Hin.
  exists d.
  assert (forall L0 : t S,
            trace L0 = trace L ++ [EvInput d] -> counter L0 = counter L ->
            is_first L0 = is_first L -> stop_event L0 = stop_event L ->
            out L0 = out L -> d <> STOP -> d <> NONE ->
            (L1 ← get_signal L0;
             L2 ← first_item d L1;
             '(data_transformed, s) ← transform d (self L2);
             let L3 := log (EvTransform d data_transformed) (set_self s L2) in
             if is_None data_transformed then Ok L3
             else
               o ← handle_output data_transformed (out L3);
               Ok (mk (counter L3 + 1) (signal L3) (is_first L3) (stop_event L3)
                      (signal_in L3) o (self L3) (trace L3 ++ [EvTick]))) = Ok L' ->
            exists rest, trace L' = trace L ++ EvInput d :: rest /\
              stop_event L' = stop_event L /\ is_first L' = false /\
              exists r,
                rest = (if is_first L then [EvPostInit d] else []) ++
                       EvTransform d r :: (if is_None r then [] else [EvTick]) /\
                if is_None r then counter L' = counter L /\ out L' = out L
                else counter L' = counter L + 1 /\
                     handle_output r (out L) = Ok (out L')) as Hdata.
  { intros L0 Htr Hc Hf Hs Ho _ _ Hrun.
    step_bind Hrun as L1 E1. apply get_signal_base in E1 as (Hc1 & Hf1 & Hs1 & Ho1 & Htr1).
    step_bind Hrun as L2 E2. apply first_item_spec in E2 as (Hc2 & Hf2 & Hs2 & Ho2 & Htr2).
    step_bind Hrun as [r s'] E3.
    rewrite Hf1, Hf in Htr2.
    destruct (is_None r) eqn:Hr.
    - injection Hrun as <-. eexists. simpl.
      split; [rewrite Htr2, Htr1, Htr, <- !app_assoc; reflexivity|].
      split; [congruence|]. split; [done|].
      exists r. rewrite Hr. split; [done|]. split; congruence.
    - step_bind Hrun as o E4. injection Hrun as <-. eexists. simpl.
      split; [rewrite Htr2, Htr1, Htr, <- !app_assoc; reflexivity|].
      split; [congruence|]. split; [done|].
      exists r. rewrite Hr. split; [done|].
      split; [congruence|]. rewrite <- Ho, <- Ho1, <- Ho2. exact E4. }
  destruct d as [| |z|str|m]; simpl in Hit.
  - injection Hit as <-. exists []. split; [done|]. right. left. by repeat split.
  - injection Hit as <-. exists []. split; [done|]. left. by repeat split.
  - destruct (Hdata (log (EvInput (Int z)) (set_self s L)) eq_refl eq_refl eq_refl
                eq_refl eq_refl ltac:(done) ltac:(done) Hit) as (rest & ? & ? & ? & ?).
    exists rest. split; [done|]. right. right. by repeat split.
  - destruct (Hdata (log (EvInput (Str str)) (set_self s L)) eq_refl eq_refl eq_refl
                eq_refl eq_refl ltac:(done) ltac:(done) Hit) as (rest & ? & ? & ? & ?).
    exists rest. split; [done|]. right. right. by repeat split.
  - destruct (Hdata (log (EvInput (Map m)) (set_self s L)) eq_refl eq_refl eq_refl
                eq_refl eq_refl ltac:(done) ltac:(done) Hit) as (rest & ? & ? & ? & ?).
    exists rest. split; [done|]. right. right. by repeat split.
Qed.

Lemma forward_keys_base (data : Item) (ks : list string) (m m' : MultiOutput.t) :
  MultiOutput.forward_keys data ks m = Ok m' -> MultiOutput.base m' = MultiOutput.base m.
Proof.
  revert m. induction ks as [|k ks IH]; intros m Hf; simpl in Hf.
  - by injection Hf as <-.
  - step_bind Hf as m1 Hk. rewrite (IH _ Hf). clear Hf IH.
    unfold MultiOutput.forward_key in Hk.
    destruct (MultiOutput.ports m !! k).
    + step_bind Hk as p Hp. by injection Hk as <-.
    + destruct (MultiOutput.auto_ports m !! k); [|discriminate].
      step_bind Hk as p Hp. by injection Hk as <-.
Qed.

(** Whatever the output side, an emission that returns has put the item
    on the default port. *)
Lemma handle_output_default (data : Item) (o o' : OutputSide) :
  handle_output data o = Ok o' ->
  default_port o' = Port.handle_output data (default_port o).
Proof.
  destruct o as [b|m]; simpl.
  - by intros [= <-].
  - intros Hm. step_bind Hm as m' Hm'. injection Hm as <-.
    unfold MultiOutput.handle_output in Hm'. step_bind Hm' as m1 Hk. injection Hm' as <-.
    simpl. destruct (is_None data).
    + by injection Hk as <-.
    + by rewrite (forward_keys_base _ _ _ _ Hk).
Qed.

Lemma emitted_handle_output (data : Item) (p : Port.t) :
  Port.emitted (Port.handle_output data p) =
  Port.emitted p ++ (if is_None data then [] else [data]).
Proof.
  unfold Port.handle_output. destruct (is_None data); simpl; by rewrite ?app_nil_r.
Qed.

Lemma results_app (tr1 tr2 : list LoopEvent) :
  results (tr1 ++ tr2) = results tr1 ++ results tr2.
Proof. apply omap_app. Qed.

Lemma results_pass (d r : Item) (b : bool) :
  results (EvInput d :: (if b then [EvPostInit d] else []) ++
           EvTransform d r :: (if is_None r then [] else [EvTick]))
  = if is_None r then [] else [r].
Proof. destruct b; simpl; by destruct (is_None r). Qed.

(** One pass: the counter moves by one exactly when the pass has a
    transform result that is not [None], and that result is what the
    default port gets. *)
Lemma iteration_emits (L L' : t S) :
  iteration L = Ok L' ->
  exists rs,
    length rs <= 1 /\
    results (trace L') = results (trace L) ++ rs /\
    emitted L' = emitted L ++ rs /\
    counter L' = counter L + length rs.
Proof.
  intros (d & rest & Htr & Hcases)%iteration_cases. unfold emitted.
  rewrite Htr, results_app.
  destruct Hcases as [(-> & -> & _ & Hc & _ & Ho)|[(-> & -> & _ & Hc & _ & Ho)|
                      (Hd1 & Hd2 & _ & _ & r & -> & Hr)]].
  - exists []. simpl. rewrite Ho, Hc, !app_nil_r. auto.
  - exists []. simpl. rewrite Ho, Hc, !app_nil_r. auto.
  - rewrite results_pass.
    destruct (is_None r) eqn:Hnone.
    + destruct Hr as [Hc Ho]. exists []. simpl. rewrite Ho, Hc, !app_nil_r. auto.
    + destruct Hr as [Hc Ho]. exists [r]. simpl.
      rewrite (handle_output_default _ _ _ Ho), emitted_handle_output, Hnone, Hc. auto.
Qed.

Lemma while_loop_emits (n : nat) (L L' : t S) :
  while_loop n L = Ok L' ->
  exists rs,
    length rs <= n /\
    results (trace L') = results (trace L) ++ rs /\
    emitted L' = emitted L ++ rs /\
    counter L' = counter L + length rs.
Proof.
  revert L. induction n as [|n IH]; intros L Hw; simpl in Hw.
  - injection Hw as <-. exists []. rewrite !app_nil_r. simpl. auto.
  - destruct (stop_event L).
    + injection Hw as <-. exists []. rewrite !app_nil_r. simpl. split; [lia|auto].
    + step_bind Hw as L1 Hit.
      apply iteration_emits in Hit as (rs1 & Hl1 & Hr1 & He1 & Hc1).
      apply IH in Hw as (rs2 & Hl2 & Hr2 & He2 & Hc2).
      exists (rs1 ++ rs2). rewrite length_app, Hr2, Hr1, He2, He1, Hc2, Hc1, !app_assoc.
      repeat split; lia.
Qed.

(** The terminal [STOP] goes out on the default port and leaves the
    counter alone. *)
Lemma on_exit_emits (L L' : t S) :
  on_exit L = Ok L' ->
  emitted L' = emitted L ++ [STOP] /\ counter L' = counter L /\ trace L' = trace L.
Proof.
  unfold on_exit, emitted. intros Hx. step_bind Hx as o Ho. step_bind Hx as s Hs.
  injection Hx as <-. simpl.
  by rewrite (handle_output_default _ _ _ Ho), emitted_handle_output.
Qed.

(** C4: after any number of passes of the loop, the counter has moved by
    the number of transform results that were not [None], and these
    results, in order, are what the loop has put on the default port; a
    single pass moves the counter by one or not at all; the terminal
    [STOP] that follows the loop is emitted without a move of the
    counter. *)
Theorem counter_counts_emissions (n : nat) (L L' : t S) :
  while_loop n L = Ok L' ->
  exists rs,
    length rs <= n /\
    Forall (fun r => r <> NONE) rs /\
    results (trace L') = results (trace L) ++ rs /\
    emitted L' = emitted L ++ rs /\
    counter L' = counter L + length rs /\
    (forall L'', on_exit L' = Ok L'' ->
       BaseLayer.emitted L'' = emitted L ++ rs ++ [STOP] /\ counter L'' = counter L').
Proof.
  intros (rs & Hl & Hr & He & Hc)%while_loop_emits.
  exists rs. split; [done|]. split; [|split; [done|split; [done|split; [done|]]]].
  - assert (Forall (fun r => r <> NONE) (results (trace L'))) as Hall.
    { unfold results. apply Forall_forall. intros r Hin.
      apply list_elem_of_omap in Hin as (e & _ & He').
      destruct e as [| |d r'|]; try discriminate.
      destruct r'; simpl in He'; try discriminate; by injection He' as <-. }
    rewrite Hr in Hall. by apply Forall_app in Hall as [_ ?].
  - intros L'' Hx. apply on_exit_emits in Hx as (-> & -> & _).
    by rewrite He, app_assoc.
Qed.

Lemma inputs_app (tr1 tr2 : list LoopEvent) :
  inputs (tr1 ++ tr2) = inputs tr1 ++ inputs tr2.
Proof. apply omap_app. Qed.

Lemma post_inits_app (tr1 tr2 : list LoopEvent) :
  post_inits (tr1 ++ tr2) = post_inits tr1 ++ post_inits tr2.
Proof. apply omap_app. Qed.

Lemma transformed_app (tr1 tr2 : list LoopEvent) :
  transformed (tr1 ++ tr2) = transformed tr1 ++ transformed tr2.
Proof. apply omap_app. Qed.

Lemma not_None_app (l1 l2 : list Item) :
  not_None (l1 ++ l2) = not_None l1 ++ not_None l2.
Proof. apply List.filter_app. Qed.

Lemma head_app_Some {A : Type} (l1 l2 : list A) (a : A) :
  head l1 = Some a -> head (l1 ++ l2) = Some a.
Proof. by destruct l1. Qed.

Lemma pass_events (d r : Item) (b : bool) :
  d <> NONE ->
  let rest := (if b then [EvPostInit d] else []) ++
              EvTransform d r :: (if is_None r then [] else [EvTick]) in
  not_None (inputs (EvInput d :: rest)) = [d] /\
  post_inits (EvInput d :: rest) = (if b then [d] else []) /\
  transformed (EvInput d :: rest) = [d].
Proof. intros Hd. destruct d; try done; destruct b; simpl; by destruct (is_None r). Qed.

Lemma iteration_first_item (L L' : t S) :
  stop_event L = false -> first_item_inv L -> iteration L = Ok L' -> first_item_inv L'.
Proof.
  intros Hrun Hinv (d & rest & Htr & Hcases)%iteration_cases. unfold first_item_inv.
  rewrite Htr, !inputs_app, !post_inits_app, !transformed_app, !not_None_app.
  destruct Hcases as [(-> & -> & Hs & _ & Hf & _)|[(-> & -> & Hs & _ & Hf & _)|
                      (Hd1 & Hd2 & Hs & Hf & r & -> & _)]].
  - rewrite Hs, Hf. simpl. rewrite !app_nil_r.
    destruct Hinv as [(-> & -> & -> & [[_ ->]|[? _]])|(-> & d & Hd)];
      [left; auto 10|congruence|right; split; [done|]; exists d].
    destruct Hd as (? & -> & ? & ?). repeat split; try done. by apply head_app_Some.
  - rewrite Hs, Hf. simpl. by rewrite !app_nil_r.
  - destruct (pass_events d r (is_first L) Hd2) as (-> & -> & ->).
    right. split; [done|].
    destruct Hinv as [(-> & -> & -> & [[_ ->]|[? _]])|(-> & d' & ? & -> & ? & ?)];
      [by exists d|congruence|].
    exists d'. rewrite app_nil_r. repeat split; try done; by apply head_app_Some.
Qed.

Lemma while_loop_first_item (n : nat) (L L' : t S) :
  first_item_inv L -> while_loop n L = Ok L' -> first_item_inv L'.
Proof.
  revert L. induction n as [|n IH]; intros L Hinv Hw; simpl in Hw.
  - by injection Hw as <-.
  - destruct (stop_event L) eqn:Hs.
    + by injection Hw as <-.
    + step_bind Hw as L1 Hit. eapply IH; [|exact Hw].
      by eapply iteration_first_item.
Qed.

(** C5: in a layer that has been started, [post_init] has been called
    at most once after any number of passes of the loop.  While it has
    not been called, [is_first] holds and [get_input] has returned
    nothing but [None] and at most a final [STOP]; once it has been
    called, its argument is the first item other than [None] that
    [get_input] returned, which is also the first argument of
    [transform].  A pass whose input is [None] or [STOP] leaves
    [is_first] and the calls of [post_init] as they are. *)
Theorem post_init_first_item (n : nat) (signal_in : option Queue) (o : OutputSide)
    (s : S) (L' : t S) :
  while_loop n (init signal_in o s) = Ok L' ->
  ((post_inits (trace L') = [] /\ is_first L' = true /\
    (not_None (inputs (trace L')) = [] \/ not_None (inputs (trace L')) = [STOP])) \/
   (exists d, post_inits (trace L') = [d] /\ is_first L' = false /\ d <> STOP /\
              head (not_None (inputs (trace L'))) = Some d /\
              head (transformed (trace L')) = Some d)) /\
  (forall (L1 L2 : t S) d rest,
     iteration L1 = Ok L2 -> trace L2 = trace L1 ++ EvInput d :: rest ->
     d = NONE \/ d = STOP ->
     is_first L2 = is_first L1 /\ post_inits (trace L2) = post_inits (trace L1)).
Proof.
  intros Hw. split.
  - apply while_loop_first_item in Hw.
    + destruct Hw as [(? & ? & _ & [[_ ?]|[_ ?]])|(? & d & ? & ? & ? & ?)];
        [left; auto|left; auto|right; exists d; auto].
    + left. simpl. auto 10.
  - intros L1 L2 d rest (d' & rest' & Htr & Hcases)%iteration_cases Htr' Hd.
    rewrite Htr in Htr'. apply app_inv_head in Htr'. injection Htr' as -> ->.
    rewrite Htr, post_inits_app.
    destruct Hcases as [(_ & -> & _ & _ & Hf & _)|[(_ & -> & _ & _ & Hf & _)|
                        (Hd1 & Hd2 & _)]].
    + simpl. by rewrite app_nil_r.
    + simpl. by rewrite app_nil_r.
    + by destruct Hd.
Qed.

Lemma while_loop_stopped (n : nat) (L : t S) :
  stop_event L = true -> while_loop n L = Ok L.
Proof. intros Hs. destruct n; simpl; [done|by rewrite Hs]. Qed.

Lemma while_loop_1 (L : t S) :
  while_loop 1 L = if stop_event L then Ok L else iteration L.
Proof. simpl. destruct (stop_event L); [done|]. by destruct (iteration L). Qed.

(** Passes add up. *)
Lemma while_loop_add (k m : nat) (L : t S) :
  while_loop (k + m) L = while_loop k L ≫= while_loop m.
Proof.
  revert L. induction k as [|k IH]; intros L; simpl; [done|].
  destruct (stop_event L) eqn:Hs; simpl.
  - by rewrite while_loop_stopped.
  - destruct (iteration L) as [L1| |]; simpl; [apply IH|done|done].
Qed.

(** A pass sets the stop event only when [get_input] returned [STOP]:
    the result of [transform] has no part in it. *)
Lemma stop_only_on_input_STOP (L L' : t S) :
  iteration L = Ok L' -> stop_event L = false -> stop_event L' = true ->
  trace L' = trace L ++ [EvInput STOP].
Proof.
  intros (d & rest & Htr & Hcases)%iteration_cases Hrun Hstop.
  destruct Hcases as [(-> & -> & _)|[(_ & _ & Hs & _)|(_ & _ & Hs & _)]];
    [done|congruence|congruence].
Qed.

End WithOps.

(** C4, on [InputLayer(rate=30)] with one subscriber, for three passes. *)
Lemma counter_counts_emissions_witness :
  BaseLayer.while_loop 3 Scenario.counting = Ok Scenario.counting_after_3 /\
  exists rs,
    length rs <= 3 /\
    Forall (fun r => r <> NONE) rs /\
    results (BaseLayer.trace Scenario.counting_after_3) =
      results (BaseLayer.trace Scenario.counting) ++ rs /\
    BaseLayer.emitted Scenario.counting_after_3 = BaseLayer.emitted Scenario.counting ++ rs /\
    BaseLayer.counter Scenario.counting_after_3 =
      BaseLayer.counter Scenario.counting + length rs /\
    (forall L'', BaseLayer.on_exit Scenario.counting_after_3 = Ok L'' ->
       BaseLayer.emitted L'' = BaseLayer.emitted Scenario.counting ++ rs ++ [STOP] /\
       BaseLayer.counter L'' = BaseLayer.counter Scenario.counting_after_3).
Proof.
  split; [reflexivity|].
  apply (counter_counts_emissions 3 Scenario.counting Scenario.counting_after_3).
  reflexivity.
Defined.

(** C5, on [OneShotInputLayer(42)] with one subscriber, for three passes. *)
Lemma post_init_first_item_witness :
  BaseLayer.while_loop 3 Scenario.one_shot = Ok Scenario.one_shot_after_3 /\
  ((post_inits (BaseLayer.trace Scenario.one_shot_after_3) = [] /\
    BaseLayer.is_first Scenario.one_shot_after_3 = true /\
    (not_None (inputs (BaseLayer.trace Scenario.one_shot_after_3)) = [] \/
     not_None (inputs (BaseLayer.trace Scenario.one_shot_after_3)) = [STOP])) \/
   (exists d, post_inits (BaseLayer.trace Scenario.one_shot_after_3) = [d] /\
              BaseLayer.is_first Scenario.one_shot_after_3 = false /\ d <> STOP /\
              head (not_None (inputs (BaseLayer.trace Scenario.one_shot_after_3)))
                = Some d /\
              head (transformed (BaseLayer.trace Scenario.one_shot_after_3)) = Some d)).
Proof.
  split; [reflexivity|].
  apply (post_init_first_item 3 None Scenario.one_subscriber
           (OneShotInputLayer.init (Int 42)) Scenario.one_shot_after_3).
  reflexivity.
Defined.

(** C2: in [TransformLayer(port, lambda data: LayerSignal.STOP)] the
    stop event is not set by the tick in which [transform] returns
    [STOP]: the [STOP] goes out on the default port as an ordinary item,
    the counter moves, and the loop goes on to take the next item and to
    do the same; it has not left the loop after two such ticks. *)
Theorem transform_STOP_keeps_running :
  exists L1 L2,
    BaseLayer.while_loop (H := TransformLayer.ops 1) 1 Scenario.stopper = Ok L1 /\
    BaseLayer.stop_event L1 = false /\ BaseLayer.emitted L1 = [STOP] /\
    BaseLayer.counter L1 = 1 /\
    BaseLayer.while_loop (H := TransformLayer.ops 1) 2 Scenario.stopper = Ok L2 /\
    BaseLayer.stop_event L2 = false /\ BaseLayer.emitted L2 = [STOP; STOP] /\
    BaseLayer.counter L2 = 2 /\
    BaseLayer.process_loop (H := TransformLayer.ops 1) 2 Scenario.stopper = Ok None.
Proof. do 2 eexists. vm_compute. repeat split; reflexivity. Qed.

End BaseLayerFacts.

(** ** The multi-shot producer *)

Module MultipleShotFacts.
Import BaseLayer Scenario.
Module MS := MultipleShotInputLayer.

(** The three branches of [get_input]. *)
Lemma get_input_fire c n fin e lg :
  (Z.of_nat c < n - 1)%Z ->
  get_input c (shots n fin e lg) =
    Ok (Int (Z.of_nat c), shots n fin e (lg ++ [Slept sleep_30; Generated c; Ticked])).
Proof.
  intros Hlt. simpl. unfold MS.get_input. simpl.
  by rewrite (proj2 (Z.ltb_lt _ _) Hlt).
Qed.

Lemma get_input_last c n fin e lg :
  Z.of_nat c = (n - 1)%Z ->
  get_input c (shots n fin e lg) =
    Ok (if fin then Int (-1) else NONE,
        shots n fin e ((lg ++ [Slept sleep_30; Ticked]) ++ [Completed])).
Proof.
  intros Heq. simpl. unfold MS.get_input. simpl.
  rewrite (proj2 (Z.ltb_ge _ _)) by lia.
  rewrite (proj2 (Z.eqb_eq _ _) Heq). simpl. by destruct fin.
Qed.

Lemma get_input_after c n fin e lg :
  (n - 1 < Z.of_nat c)%Z ->
  get_input c (shots n fin e lg) =
    Ok (NONE, shots n fin true (lg ++ [Slept sleep_30])).
Proof.
  intros Hgt. simpl. unfold MS.get_input. simpl.
  rewrite (proj2 (Z.ltb_ge _ _)) by lia.
  rewrite (proj2 (Z.eqb_neq _ _)) by lia. by destruct e.
Qed.

(** A pass of the loop, by what [get_input] returns. *)
Lemma pass_item c first b s s' z tr :
  get_input c s = Ok (Int z, s') ->
  iteration (layer c first b s tr) =
    Ok (layer (c + 1) false (BaseOutputLayer.handle_output (Int z) b) s'
          ((((tr ++ [EvInput (Int z)]) ++ (if first then [EvPostInit (Int z)] else []))
            ++ [EvTransform (Int z) (Int z)]) ++ [EvTick])).
Proof.
  intros Hget. unfold iteration, layer. cbn [counter self]. rewrite Hget. simpl.
  destruct first; simpl; by rewrite ?app_nil_r.
Qed.

Lemma pass_None c first b s s' tr :
  get_input c s = Ok (NONE, s') ->
  iteration (layer c first b s tr) = Ok (layer c first b s' (tr ++ [EvInput NONE])).
Proof. intros Hget. unfold iteration, layer. cbn [counter self]. by rewrite Hget. Qed.

(** Below the last shot, [k] passes fire [k] generated items. *)
Lemma fires_below c k first b n fin lg tr :
  (Z.of_nat (c + k) <= n - 1)%Z ->
  exists first' b' lg' tr',
    while_loop k (layer c first b (shots n fin false lg) tr) =
      Ok (layer (c + k) first' b' (shots n fin false lg') tr') /\
    Port.emitted (BaseOutputLayer.out_port b') =
      Port.emitted (BaseOutputLayer.out_port b) ++ numbers c k /\
    MS.completions (shots n fin false lg') = MS.completions (shots n fin false lg).
Proof.
  revert c first b lg tr. induction k as [|k IH]; intros c first b lg tr Hle.
  - exists first, b, lg, tr. simpl. by rewrite Nat.add_0_r, app_nil_r.
  - simpl. rewrite (pass_item _ _ _ _ _ _ _ (get_input_fire c n fin false lg ltac:(lia))).
    simpl.
    destruct (IH (c + 1) false (BaseOutputLayer.handle_output (Int (Z.of_nat c)) b)
                 (lg ++ [Slept sleep_30; Generated c; Ticked])
                 ((((tr ++ [EvInput (Int (Z.of_nat c))]) ++
                    (if first then [EvPostInit (Int (Z.of_nat c))] else [])) ++
                   [EvTransform (Int (Z.of_nat c)) (Int (Z.of_nat c))]) ++ [EvTick])
                 ltac:(lia))
      as (first' & b' & lg' & tr' & Hw & He & Hc).
    exists first', b', lg', tr'. replace (c + S k) with (c + 1 + k) by lia.
    split; [done|]. split.
    + rewrite He. simpl. rewrite <- app_assoc. simpl.
      by replace (c + 1) with (S c) by lia.
    + rewrite Hc. unfold MS.completions. simpl. rewrite List.filter_app. simpl.
      by rewrite app_nil_r.
Qed.

(** Without [finish], the pass at [counter = num_shots - 1] returns
    [None], so the counter stays there: every later pass takes the same
    branch and calls the completion handler again. *)
Lemma stuck_at_last c m first b n lg tr :
  Z.of_nat c = (n - 1)%Z ->
  exists lg' tr',
    while_loop m (layer c first b (shots n false false lg) tr) =
      Ok (layer c first b (shots n false false lg') tr') /\
    MS.completions (shots n false false lg') =
      MS.completions (shots n false false lg) + m.
Proof.
  intros Heq. revert lg tr. induction m as [|m IH]; intros lg tr.
  - exists lg, tr. simpl. split; [done|lia].
  - simpl. rewrite (pass_None _ _ _ _ _ _ (get_input_last c n false false lg Heq)).
    simpl.
    destruct (IH ((lg ++ [Slept sleep_30; Ticked]) ++ [Completed])
                 (tr ++ [EvInput NONE])) as (lg' & tr' & Hw & Hc).
    exists lg', tr'. split; [done|]. rewrite Hc.
    unfold MS.completions. simpl. rewrite !List.filter_app, !length_app. simpl. lia.
Qed.

(** Past the last shot every pass returns [None] and the producer is
    [expired]. *)
Lemma expired_after c m first b n fin e lg tr :
  (n - 1 < Z.of_nat c)%Z ->
  exists lg' tr',
    while_loop (S m) (layer c first b (shots n fin e lg) tr) =
      Ok (layer c first b (shots n fin true lg') tr') /\
    MS.completions (shots n fin true lg') = MS.completions (shots n fin e lg).
Proof.
  intros Hgt. revert e lg tr. induction m as [|m IH]; intros e lg tr.
  - do 2 eexists. simpl.
    rewrite (pass_None _ _ _ _ _ _ (get_input_after c n fin e lg Hgt)). simpl.
    split; [reflexivity|].
    unfold MS.completions. simpl. rewrite List.filter_app. simpl. by rewrite app_nil_r.
  - change (while_loop (S (S m)) ?L) with
      (if stop_event L then Ok L else iteration L ≫= while_loop (S m)).
    cbn [stop_event layer].
    rewrite (pass_None _ _ _ _ _ _ (get_input_after c n fin e lg Hgt)).
    destruct (IH true (lg ++ [Slept sleep_30]) (tr ++ [EvInput NONE]))
      as (lg' & tr' & Hw & Hc).
    exists lg', tr'. split; [exact Hw|]. rewrite Hc.
    unfold MS.completions. simpl. rewrite List.filter_app. simpl. by rewrite app_nil_r.
Qed.

(** [num_shots = n] without [finish]: [n - 1] items are fired, and each
    of the [m] passes that follow returns [None], calls the completion
    handler and leaves [expired] unset. *)
Lemma run_without_finish (n m : nat) :
  1 <= n ->
  exists L',
    while_loop (n - 1 + m)
      (init None Scenario.one_subscriber (MS.init (Z.of_nat n) None None 30 false))
      = Ok L' /\
    BaseLayer.emitted L' = numbers 0 (n - 1) /\
    counter L' = n - 1 /\
    MS.expired (self L') = false /\
    MS.completions (self L') = m.
Proof.
  intros Hn. rewrite BaseLayerFacts.while_loop_add.
  destruct (fires_below 0 (n - 1) true (BaseOutputLayer.mk (Port.get_output Port.init).2)
              (Z.of_nat n) false [] [] ltac:(lia))
    as (first' & b' & lg' & tr' & Hw & He & Hc).
  change (init None Scenario.one_subscriber (MS.init (Z.of_nat n) None None 30 false))
    with (layer 0 true (BaseOutputLayer.mk (Port.get_output Port.init).2)
            (shots (Z.of_nat n) false false []) []).
  rewrite Hw, bind_ret. replace (0 + (n - 1)) with (n - 1) by lia.
  destruct (stuck_at_last (n - 1) m first' b' (Z.of_nat n) lg' tr' ltac:(lia))
    as (lg'' & tr'' & Hw' & Hc').
  rewrite Hw'. eexists. split; [reflexivity|].
  unfold BaseLayer.emitted. simpl. rewrite He, Hc', Hc. by repeat split.
Qed.

(** [num_shots = n] with [finish]: [n] items and then [-1] are fired,
    the completion handler is called once, and the passes that follow
    return [None] with [expired] set. *)
Lemma run_with_finish (n m : nat) :
  exists L',
    while_loop (n + 1 + S m)
      (init None Scenario.one_subscriber (MS.init (Z.of_nat n) None None 30 true))
      = Ok L' /\
    BaseLayer.emitted L' = numbers 0 n ++ [Int (-1)] /\
    counter L' = n + 1 /\
    MS.expired (self L') = true /\
    MS.completions (self L') = 1.
Proof.
  rewrite !BaseLayerFacts.while_loop_add.
  destruct (fires_below 0 n true (BaseOutputLayer.mk (Port.get_output Port.init).2)
              (Z.of_nat n + 1) true [] [] ltac:(lia))
    as (first' & b' & lg' & tr' & Hw & He & Hc).
  change (init None Scenario.one_subscriber (MS.init (Z.of_nat n) None None 30 true))
    with (layer 0 true (BaseOutputLayer.mk (Port.get_output Port.init).2)
            (shots (Z.of_nat n + 1) true false []) []).
  rewrite Hw, bind_ret, BaseLayerFacts.while_loop_1. cbn [stop_event layer].
  replace (0 + n) with n by lia.
  rewrite (pass_item _ _ _ _ _ _ _
             (get_input_last n (Z.of_nat n + 1) true false lg' ltac:(lia))).
  rewrite bind_ret.
  match goal with
  | |- context [while_loop (S m) (layer ?c ?f ?b (shots ?k ?fin ?e ?lg) ?tr)] =>
      destruct (expired_after c m f b k fin e lg tr ltac:(lia))
        as (lg'' & tr'' & Hw' & Hc')
  end.
  rewrite Hw'. eexists. split; [reflexivity|].
  unfold BaseLayer.emitted. simpl. rewrite He, Hc'.
  repeat split; try done.
  unfold MS.completions in *. simpl in *. rewrite !List.filter_app, !length_app.
  rewrite Hc. reflexivity.
Qed.

(** C1: [MultipleShotInputLayer(num_shots=3)] fires twice, not three
    times: after the items 0 and 1 the counter stays at 2; each of the
    [m] passes that follow returns [None] and calls the completion
    handler once more, and [expired] is never set. *)
Theorem three_shots_fire_twice (m : nat) :
  exists L',
    while_loop (2 + m) (Scenario.three_shots false) = Ok L' /\
    BaseLayer.emitted L' = [Int 0; Int 1] /\
    counter L' = 2 /\
    MS.expired (self L') = false /\
    MS.completions (self L') = m.
Proof. exact (run_without_finish 3 m ltac:(lia)). Qed.

End MultipleShotFacts.

(** ** Trigger policies *)

(** The methods that the loop calls on a [TransformLayer]. *)
Lemma TransformLayer_get_input (passes c : nat) (self : TransformLayer.t) :
  get_input (LayerOps := TransformLayer.ops passes) c self =
  TransformLayer.get_input passes c self.
Proof. reflexivity. Qed.

Module TransformFacts.
Import TransformMixin Scenario.
#[local] Set Warnings "-clear-no-such-hyp".

(** C3: under [TIMER] with the single key ["default"], a tick on which
    nothing has arrived gathers the empty map, and the unwrapping
    [data['default']] of [get_input] raises [KeyError]: the empty map is
    not delivered to [transform]. *)
Theorem timer_empty_default_raises (passes : nat) :
  get_all_nowait false idle_timer = Ok (∅, idle_timer) /\
  get_input passes idle_timer = Raise (KeyError "default").
Proof. split; reflexivity. Qed.

(** With two keys the same tick delivers the empty map as it is. *)
Lemma timer_empty_two_keys (passes : nat) :
  exists self',
    get_input passes
      (mk {["a" := []; "b" := []]} ["a"; "b"] false (Trigger TIMER) (Seconds (1 # 10)) [] [])
    = Ok (Map ∅, self').
Proof. eexists. vm_compute. reflexivity. Qed.

(** C8, as stated, fails: the constructor takes a trigger that is none
    of the four policies and returns the layer. *)
Lemma unknown_trigger_is_constructed :
  init (Some Port.init) (Other (Int 7)) NoSource false =
    Ok (mk {["default" := []]} ["default"] false (Other (Int 7)) NoSource [] [],
        Some (Port.mk [[]] [])) /\
  ~ exists e, init (Some Port.init) (Other (Int 7)) NoSource false = Raise e.
Proof. split; [reflexivity|]. intros [e He]. discriminate He. Qed.

Lemma arrive_trigger (self : t) : trigger (arrive self) = trigger self.
Proof. unfold arrive. by destruct (feed self). Qed.

(** C8, amended: the constructor stores any trigger value without a
    check; with a value that is none of the four policies the
    construction returns as with any other, and the error is the failed
    assertion of the first [get_input], in the first pass of the
    processing loop. *)
Theorem unknown_trigger_fails_in_loop (port_in : option Port.t) (v : Item)
    (src : TriggerSource) (discard : bool) :
  exists self up,
    init port_in (Other v) src discard = Ok (self, up) /\
    trigger self = Other v /\
    (forall d, init port_in (Trigger d) src discard
               = Ok (set_trigger (Trigger d) src self, up)) /\
    (forall passes f, get_input passes (with_feed f self) = Raise AssertionError) /\
    (forall passes f transformer signal_in o,
       BaseLayer.while_loop (H := TransformLayer.ops passes) 1
         (BaseLayer.init signal_in o (TransformLayer.mk (with_feed f self) transformer))
       = Raise AssertionError).
Proof.
  assert (forall self passes, trigger self = Other v ->
            get_input passes self = Raise AssertionError) as Hraise.
  { intros self passes Ht. unfold get_input. by rewrite arrive_trigger, Ht. }
  destruct port_in as [p|]; do 2 eexists; (split; [reflexivity|]);
    (split; [reflexivity|]); (split; [reflexivity|]);
    (split; [intros; by apply Hraise|]);
    intros; rewrite BaseLayerFacts.while_loop_1;
    unfold BaseLayer.iteration, BaseLayer.init;
    cbn [BaseLayer.stop_event BaseLayer.counter BaseLayer.self];
    rewrite TransformLayer_get_input;
    unfold TransformLayer.get_input; cbn [TransformLayer.mixin];
    by rewrite Hraise.
Qed.

(** The layers that the constructor and [set_input] build have distinct
    keys, each with its queue. *)
Lemma set_input_well_formed (port_in port_in' : Port.t) (key : string) (self self' : t) :
  NoDup (keys self) ->
  (forall k, k ∈ keys self <-> is_Some (ports_in self !! k)) ->
  set_input port_in key self = Ok (self', port_in') ->
  keys self' <> [] /\ NoDup (keys self') /\
  (forall k, k ∈ keys self' <-> is_Some (ports_in self' !! k)).
Proof.
  intros Hnd Hks. unfold set_input.
  destruct (bool_decide (key ∈ keys self)) eqn:Hin; [done|].
  apply bool_decide_eq_false_1 in Hin. intros [= <- <-]. simpl.
  split; [by destruct (keys self)|]. split.
  - apply NoDup_app. split; [done|]. split; [|apply NoDup_singleton].
    intros k Hk ->%list_elem_of_singleton. done.
  - intros k. rewrite elem_of_app, list_elem_of_singleton, Hks.
    destruct (decide (key = k)) as [<-|Hne].
    + rewrite lookup_insert_eq. split; eauto.
    + rewrite lookup_insert_ne by done. split; [intros [?|?]; [done|congruence]|auto].
Qed.

Lemma init_well_formed (port_in : Port.t) (tr : TriggerValue) (src : TriggerSource)
    (d : bool) :
  exists self up,
    init (Some port_in) tr src d = Ok (self, up) /\
    keys self = ["default"] /\ NoDup (keys self) /\
    (forall k, k ∈ keys self <-> is_Some (ports_in self !! k)).
Proof.
  do 2 eexists. split; [reflexivity|]. simpl. split; [done|].
  split; [apply NoDup_singleton|].
  intros k. rewrite list_elem_of_singleton.
  destruct (decide ("default" = k)) as [<-|Hne].
  - rewrite lookup_insert_eq. split; eauto.
  - rewrite lookup_insert_ne, lookup_empty by done. split; [congruence|by intros [? ?]].
Qed.

(** *** FASTEST *)


Lemma arrive_frame (self : t) :
  keys (arrive self) = keys self /\ slept (arrive self) = slept self /\
  discard_old (arrive self) = discard_old self /\
  trigger_source (arrive self) = trigger_source self.
Proof. unfold arrive. by destruct (feed self). Qed.

Lemma sleep_frame (d : Q) (self self' : t) :
  sleep d self = Ok self' ->
  keys self' = keys self /\ slept self' = slept self ++ [d].
Proof.
  unfold sleep. intros Hs. step_bind Hs as u Hu. injection Hs as <-.
  by destruct (arrive_frame (mk (ports_in self) (keys self) (discard_old self)
    (trigger self) (trigger_source self) (feed self) (slept self ++ [d]))) as (-> & -> & _).
Qed.



Lemma sole_default_spec (ks : list string) (b : bool) :
  sole_default ks = Ok b -> ks <> [] /\ (b = true <-> ks = ["default"]).
Proof.
  destruct ks as [|k ks]; [done|]. simpl. intros [= <-]. split; [done|].
  rewrite andb_true_iff, String.eqb_eq, Nat.eqb_eq. split.
  - intros [-> Hl]. by destruct ks.
  - by intros [= -> ->].
Qed.



(** *** SLOWEST *)

Lemma deliver_lookup (b : Batch) (qs : gmap string Queue) (key : string) :
  deliver b qs !! key = (fun q => q ++ batch_items key b) <$> qs !! key.
Proof.
  revert qs. induction b as [|[k v] b IH]; intros qs.
  - simpl. destruct (qs !! key); simpl; by rewrite ?app_nil_r.
  - change (deliver ((k, v) :: b) qs) with (deliver b (alter (fun q => q ++ [v]) k qs)).
    rewrite IH. unfold batch_items. simpl.
    destruct (String.eqb_spec k key) as [->|Hne].
    + rewrite lookup_alter_eq. destruct (qs !! key); simpl; [|done].
      by rewrite <- app_assoc.
    + by rewrite lookup_alter_ne.
Qed.

Lemma pending_cons (key : string) (b : Batch) (f : list Batch) :
  pending key (b :: f) = length (batch_items key b) + pending key f.
Proof.
  unfold pending, batch_items. simpl.
  by rewrite List.filter_app, length_app, length_fmap.
Qed.

Lemma avail_deliver (b : Batch) (f : list Batch) (qs : gmap string Queue) (key : string) :
  is_Some (qs !! key) -> avail (deliver b qs) f key = avail qs (b :: f) key.
Proof.
  intros [q Hq]. unfold avail. rewrite deliver_lookup, Hq, pending_cons. simpl.
  rewrite length_app. lia.
Qed.

Lemma deliver_is_Some (b : Batch) (qs : gmap string Queue) (key : string) :
  is_Some (deliver b qs !! key) <-> is_Some (qs !! key).
Proof. rewrite deliver_lookup. apply fmap_is_Some. Qed.

Lemma wait_ready (key : string) (f : list Batch) (qs : gmap string Queue) v q :
  qs !! key = Some (v :: q) -> wait key f qs = Ok (v, <[key := q]> qs, f).
Proof. intros Hq. destruct f; simpl; by rewrite Hq. Qed.

Lemma take_head_avail (key : string) (f : list Batch) (qs : gmap string Queue) v q :
  qs !! key = Some (v :: q) ->
  (forall k, is_Some (<[key := q]> qs !! k) <-> is_Some (qs !! k)) /\
  avail (<[key := q]> qs) f key = avail qs f key - 1 /\
  (forall k, k <> key -> avail (<[key := q]> qs) f k = avail qs f k).
Proof.
  intros Hq. split; [|split].
  - intros k. destruct (decide (key = k)) as [<-|Hne].
    + rewrite lookup_insert_eq, Hq. split; eauto.
    + by rewrite lookup_insert_ne.
  - unfold avail. rewrite lookup_insert_eq, Hq. simpl. lia.
  - intros k Hk. unfold avail. by rewrite lookup_insert_ne.
Qed.

(** A blocking take returns when an item of the key is in the queue or
    still to come, and takes exactly one item of that key; with none it
    never returns. *)
Lemma wait_spec (key : string) (f : list Batch) (qs : gmap string Queue) :
  is_Some (qs !! key) ->
  (avail qs f key = 0 -> wait key f qs = Blocked) /\
  (0 < avail qs f key ->
   exists v qs' f',
     wait key f qs = Ok (v, qs', f') /\
     (forall k, is_Some (qs' !! k) <-> is_Some (qs !! k)) /\
     avail qs' f' key = avail qs f key - 1 /\
     (forall k, k <> key -> is_Some (qs !! k) -> avail qs' f' k = avail qs f k)).
Proof.
  revert qs. induction f as [|b f IH]; intros qs [q Hq].
  - destruct q as [|v q].
    + assert (wait key [] qs = Blocked) as -> by (simpl; by rewrite Hq).
      unfold avail, pending. rewrite Hq. simpl. split; [done|lia].
    + rewrite (wait_ready _ _ _ _ _ Hq).
      destruct (take_head_avail key [] qs v q Hq) as (Hdom & Hkey & Hoth).
      split; [unfold avail; rewrite Hq; simpl; lia|]. intros _.
      exists v, (<[key := q]> qs), []. auto.
  - destruct q as [|v q].
    + assert (wait key (b :: f) qs = wait key f (deliver b qs)) as ->
        by (simpl; by rewrite Hq).
      destruct (IH (deliver b qs)) as [Hb Hok]; [by apply deliver_is_Some|].
      rewrite avail_deliver in Hb, Hok by eauto. split; [done|].
      intros Hpos. destruct (Hok Hpos) as (v & qs' & f' & Hw & Hdom & Hkey & Hoth).
      exists v, qs', f'. split; [done|]. split; [|split].
      * intros k. by rewrite Hdom, deliver_is_Some.
      * done.
      * intros k Hne Hk. rewrite Hoth; [by apply avail_deliver|done|].
        by apply deliver_is_Some.
    + rewrite (wait_ready _ _ _ _ _ Hq).
      destruct (take_head_avail key (b :: f) qs v q Hq) as (Hdom & Hkey & Hoth).
      split; [unfold avail; rewrite Hq; simpl; lia|]. intros _.
      exists v, (<[key := q]> qs), (b :: f). auto.
Qed.

Lemma same_config_refl (self : t) : same_config self self.
Proof. by repeat split. Qed.

Lemma same_config_trans (s1 s2 s3 : t) :
  same_config s1 s2 -> same_config s2 s3 -> same_config s1 s3.
Proof.
  intros (? & ? & ? & H12) (? & ? & ? & H23). repeat split; try congruence.
  - intros ?. by apply H12, H23.
  - intros ?. by apply H23, H12.
Qed.

Lemma arrive_config (self : t) : same_config self (arrive self).
Proof.
  unfold arrive. destruct (feed self) as [|b f]; [apply same_config_refl|].
  repeat split; simpl; try done; by apply deliver_is_Some.
Qed.

Lemma arrive_available (key : string) (self : t) :
  is_Some (ports_in self !! key) -> available key (arrive self) = available key self.
Proof.
  intros Hk. unfold arrive. destruct (feed self) as [|b f] eqn:Hf; [done|].
  unfold available. simpl. rewrite Hf. by apply avail_deliver.
Qed.

Lemma get_spec (key : string) (self : t) :
  is_Some (ports_in self !! key) ->
  (available key self = 0 -> get key self = Blocked) /\
  (0 < available key self ->
   exists v self',
     get key self = Ok (v, self') /\ same_config self self' /\
     available key self' = available key self - 1 /\
     (forall k, k <> key -> is_Some (ports_in self !! k) ->
                available k self' = available k self)).
Proof.
  intros Hk. destruct (wait_spec key (feed self) (ports_in self) Hk) as [Hb Hok].
  unfold get. split.
  - intros H0. by rewrite (Hb H0).
  - intros Hpos. destruct (Hok Hpos) as (v & qs' & f' & Hw & Hdom & Hkey & Hoth).
    rewrite Hw. simpl. eexists _, _. split; [reflexivity|].
    split; [|split; [exact Hkey|exact Hoth]].
    unfold same_config. simpl. auto.
Qed.

(** Without [discard_old], [get_all] takes one item of each key. *)
Lemma get_all_keys_take (ks : list string) (data : gmap string Item) (self : t) :
  NoDup ks ->
  (forall k, k ∈ ks -> is_Some (ports_in self !! k) /\ 0 < available k self) ->
  exists m self',
    get_all_keys ks false data self = Ok (m, self') /\ same_config self self' /\
    (forall k, is_Some (ports_in self !! k) ->
       available k self' = available k self - (if bool_decide (k ∈ ks) then 1 else 0)).
Proof.
  revert data self. induction ks as [|k ks IH]; intros data self Hnd Hks.
  - exists data, self. split; [done|]. split; [apply same_config_refl|].
    intros k _. rewrite bool_decide_eq_false_2 by apply not_elem_of_nil. lia.
  - apply NoDup_cons in Hnd as [Hnin Hnd].
    destruct (Hks k ltac:(left)) as [Hk Hpos].
    destruct (get_spec k self Hk) as [_ Hok].
    destruct (Hok Hpos) as (v & self1 & Hg & Hc1 & Hkey & Hoth).
    destruct (IH (<[k := v]> data) self1 Hnd) as (m & self' & Hall & Hc2 & Hav).
    { intros k' Hk'. destruct (Hks k' ltac:(by right)) as [Hk'1 Hk'2].
      destruct Hc1 as (_ & _ & _ & Hdom). split; [by apply Hdom|].
      rewrite Hoth; [done| |done]. intros ->. done. }
    exists m, self'. simpl. rewrite Hg. simpl. split; [exact Hall|].
    split; [by eapply same_config_trans|].
    intros k0 Hk0. rewrite Hav by (by apply Hc1).
    destruct (decide (k0 = k)) as [->|Hne].
    + rewrite (bool_decide_eq_false_2 (k ∈ ks)) by done.
      rewrite bool_decide_eq_true_2 by left. lia.
    + rewrite Hoth by done.
      destruct (bool_decide (k0 ∈ ks)) eqn:Hin.
      * apply bool_decide_eq_true_1 in Hin.
        by rewrite bool_decide_eq_true_2 by (by right).
      * apply bool_decide_eq_false_1 in Hin.
        rewrite bool_decide_eq_false_2; [done|].
        intros [?|?]%elem_of_cons; done.
Qed.

Lemma get_all_keys_blocked (k : string) (ks : list string) (d : bool)
    (data : gmap string Item) (self : t) :
  is_Some (ports_in self !! k) -> available k self = 0 ->
  get_all_keys (k :: ks) d data self = Blocked.
Proof.
  intros Hk H0. destruct (get_spec k self Hk) as [Hb _]. simpl. by rewrite (Hb H0).
Qed.

(** The map that [get_all] returns has the keys of the layer. *)
Lemma drain_dom (q : Queue) (once : bool) (key : string) (data : gmap string Item) :
  key ∈ dom data -> dom (drain q once key data).1 = dom data.
Proof.
  revert data. induction q as [|v q IH]; intros data Hin; simpl; [done|].
  assert (dom (<[key := v]> data) = dom data) as Hd
    by (rewrite dom_insert_L; set_solver).
  destruct once; simpl; [done|]. rewrite IH; [done|]. rewrite Hd. done.
Qed.

Lemma get_all_keys_dom (ks : list string) (d : bool) (data m : gmap string Item)
    (self self' : t) :
  get_all_keys ks d data self = Ok (m, self') ->
  dom m = dom data ∪ list_to_set ks.
Proof.
  revert data self. induction ks as [|k ks IH]; intros data self Hg; simpl in Hg.
  - injection Hg as <- <-. set_solver.
  - step_bind Hg as [v self1] Hget. step_bind Hg as [data2 self2] Hd.
    apply IH in Hg. rewrite Hg. clear Hg IH.
    assert (dom data2 = dom (<[k := v]> data)) as ->.
    { destruct d; [|by injection Hd as <- <-].
      unfold take_nowait in Hd. destruct (ports_in self1 !! k) as [q|]; [|done].
      destruct (drain q false k (<[k := v]> data)) as [data3 q'] eqn:Hdr.
      injection Hd as <- <-.
      change data3 with (data3, q').1. rewrite <- Hdr.
      apply drain_dom. rewrite dom_insert_L. set_solver. }
    rewrite dom_insert_L. set_solver.
Qed.

Lemma get_all_keys_keys (ks : list string) (d : bool) (data m : gmap string Item)
    (self self' : t) :
  get_all_keys ks d data self = Ok (m, self') -> keys self' = keys self.
Proof.
  revert data self. induction ks as [|k ks IH]; intros data self Hg; simpl in Hg.
  - by injection Hg as <- <-.
  - step_bind Hg as [v self1] Hget. step_bind Hg as [data2 self2] Hd.
    apply IH in Hg. rewrite Hg. clear Hg IH.
    unfold get in Hget. step_bind Hget as [[v' qs] f] Hw. injection Hget as <- <-.
    destruct d; [|by injection Hd as <- <-].
    unfold take_nowait in Hd. simpl in Hd. destruct (qs !! k) as [q|]; [|done].
    destruct (drain q false k (<[k := v']> data)) as [data3 q'].
    by injection Hd as <- <-.
Qed.

(** *** The order of the items *)

Lemma available_stream (key : string) (self : t) :
  available key self = length (stream key self).
Proof.
  unfold available, stream, strm. rewrite length_app. f_equal.
  induction (feed self) as [|b f IH]; [done|].
  rewrite pending_cons, IH. simpl. by rewrite length_app.
Qed.

Lemma strm_deliver (b : Batch) (f : list Batch) (qs : gmap string Queue) (key : string) :
  is_Some (qs !! key) -> strm (deliver b qs) f key = strm qs (b :: f) key.
Proof.
  intros [q Hq]. unfold strm. rewrite deliver_lookup, Hq. simpl.
  by rewrite <- app_assoc.
Qed.

(** A blocking take returns the first item of the stream of its key and
    leaves the streams of the other keys as they are. *)
Lemma wait_stream (key : string) (f f' : list Batch) (qs qs' : gmap string Queue)
    (v : Item) :
  wait key f qs = Ok (v, qs', f') ->
  (exists q', qs' !! key = Some q') /\
  (forall k, is_Some (qs' !! k) <-> is_Some (qs !! k)) /\
  strm qs f key = v :: strm qs' f' key /\
  (forall k, k <> key -> is_Some (qs !! k) -> strm qs' f' k = strm qs f k).
Proof.
  revert qs. induction f as [|b f IH]; intros qs Hw.
  - simpl in Hw. destruct (qs !! key) as [[|v0 q]|] eqn:Hq; try discriminate.
    injection Hw as <- <- <-.
    destruct (take_head_avail key [] qs v0 q Hq) as (Hdom & _ & _).
    split; [exists q; by rewrite lookup_insert_eq|]. split; [done|].
    unfold strm. rewrite lookup_insert_eq, Hq. split; [done|].
    intros k Hk _. by rewrite lookup_insert_ne.
  - simpl in Hw. destruct (qs !! key) as [[|v0 q]|] eqn:Hq; try discriminate.
    + apply IH in Hw as (Hq' & Hdom & Hkey & Hoth).
      split; [done|]. split; [intros k; by rewrite Hdom, deliver_is_Some|].
      split; [by rewrite <- Hkey, strm_deliver by eauto|].
      intros k Hne Hk. rewrite Hoth; [by apply strm_deliver|done|].
      by apply deliver_is_Some.
    + injection Hw as <- <- <-.
      destruct (take_head_avail key (b :: f) qs v0 q Hq) as (Hdom & _ & _).
      split; [exists q; by rewrite lookup_insert_eq|]. split; [done|].
      unfold strm. rewrite lookup_insert_eq, Hq. split; [done|].
      intros k Hk _. by rewrite lookup_insert_ne.
Qed.

(** The draining loop keeps the last item of the queue, if any. *)
Lemma drain_all (q : Queue) (key : string) (data : gmap string Item) :
  drain q false key data =
    (match last q with Some v => <[key := v]> data | None => data end, []).
Proof.
  revert data. induction q as [|v q IH]; intros data; simpl; [done|].
  rewrite IH. destruct q as [|v' q]; simpl; [done|].
  destruct (last (v' :: q)) eqn:Hl; [|by apply last_None in Hl].
  by rewrite insert_insert_eq.
Qed.

(** What the passes of [get_all] for a list of distinct keys take: of
    every key a first part of its stream, of which the last item is
    recorded; without [discard_old] this part is the first item. *)
Lemma get_all_keys_stream (ks : list string) (d : bool) (data m : gmap string Item)
    (self self' : t) :
  NoDup ks -> (forall k, k ∈ ks -> is_Some (ports_in self !! k)) ->
  get_all_keys ks d data self = Ok (m, self') ->
  (forall k, is_Some (ports_in self' !! k) <-> is_Some (ports_in self !! k)) /\
  (forall k, k ∈ ks ->
     exists j, (d = false -> j = 0) /\
       m !! k = stream k self !! j /\ is_Some (m !! k) /\
       stream k self' = drop (S j) (stream k self)) /\
  (forall k, k ∉ ks ->
     m !! k = data !! k /\
     (is_Some (ports_in self !! k) -> stream k self' = stream k self)).
Proof.
  revert data self. induction ks as [|k ks IH]; intros data self Hnd Hks Hg.
  - simpl in Hg. injection Hg as <- <-. split; [done|]. split; [|done].
    intros k Hk. by apply elem_of_nil in Hk.
  - apply NoDup_cons in Hnd as [Hnin Hnd]. simpl in Hg.
    step_bind Hg as [v self1] Hget. step_bind Hg as [data2 self2] Hd.
    unfold get in Hget. step_bind Hget as [[v' qs1] f1] Hw. injection Hget as <- <-.
    apply wait_stream in Hw as ([q1 Hq1] & Hdom1 & Hkey1 & Hoth1).
    (* the state and the map after the optional drain of [k] *)
    assert (exists j,
              (d = false -> j = 0) /\
              data2 !! k = stream k self !! j /\ is_Some (data2 !! k) /\
              stream k self2 = drop (S j) (stream k self) /\
              (forall k', k' <> k -> data2 !! k' = data !! k') /\
              (forall k', is_Some (ports_in self2 !! k') <-> is_Some (ports_in self !! k')) /\
              (forall k', k' <> k -> is_Some (ports_in self !! k') ->
                          stream k' self2 = stream k' self))
      as (j & Hj0 & Hjm & Hjs & Hjd & Hjo & Hdom2 & Hoth2).
    { destruct d.
      - unfold take_nowait in Hd. simpl in Hd. rewrite Hq1 in Hd.
        rewrite drain_all in Hd. injection Hd as <- <-.
        exists (length q1). split; [done|].
        assert (stream k self = v' :: q1 ++ concat (map (batch_items k) f1)) as ->
          by (unfold stream; rewrite Hkey1; unfold strm; by rewrite Hq1).
        assert (stream k (set_queues (<[k := []]> qs1) f1 (set_queues qs1 f1 self))
                = concat (map (batch_items k) f1)) as ->
          by (unfold stream, strm; simpl; by rewrite lookup_insert_eq).
        split; [|split; [|split; [|split; [|split]]]].
        + destruct q1 as [|v1 q1 _] using rev_ind.
          * simpl. by rewrite lookup_insert_eq.
          * rewrite last_snoc, lookup_insert_eq, length_app. simpl.
            replace (length q1 + 1) with (S (length q1)) by lia. simpl.
            rewrite <- app_assoc. simpl.
            by rewrite lookup_app_r, Nat.sub_diag by lia.
        + destruct (last q1); rewrite lookup_insert_eq; eauto.
        + simpl. by rewrite drop_app_length.
        + intros k' Hne. destruct (last q1); by rewrite ?lookup_insert_ne by done.
        + intros k'. simpl. destruct (decide (k = k')) as [<-|Hne].
          * rewrite lookup_insert_eq, <- Hdom1, Hq1. split; eauto.
          * by rewrite lookup_insert_ne, Hdom1.
        + intros k' Hne Hk'. unfold stream, strm. simpl.
          rewrite lookup_insert_ne by done. by apply Hoth1.
      - injection Hd as <- <-. exists 0. split; [done|].
        unfold stream. simpl. rewrite Hkey1. simpl. rewrite lookup_insert_eq, drop_0.
        split; [done|]. split; [eauto|]. split; [done|].
        split; [intros k' Hne; by rewrite lookup_insert_ne|]. split; [done|].
        intros k' Hne Hk'. by apply Hoth1. }
    apply IH in Hg as (Hdom & Hin & Hout); [|done|].
    2:{ intros k' Hk'. apply Hdom2, Hks. by right. }
    split; [intros k'; by rewrite Hdom, Hdom2|]. split.
    + intros k' [->|Hk']%elem_of_cons.
      * destruct (Hout k Hnin) as [Hm Hs]. exists j. rewrite Hm, Hs; [done|].
        apply Hdom2, Hks. by left.
      * destruct (Hin k' Hk') as (j' & Hj'0 & Hj'm & Hj's & Hj'd).
        assert (k' <> k) as Hne by (intros ->; by apply Hnin).
        assert (stream k' self2 = stream k' self) as Hsame
          by (apply Hoth2; [done|]; apply Hks; by right).
        exists j'. rewrite <- Hsame. auto.
    + intros k' Hk'. apply not_elem_of_cons in Hk' as [Hne Hk'].
      destruct (Hout k' Hk') as [Hm Hs]. rewrite Hm, Hjo by done. split; [done|].
      intros Hsome. rewrite Hs by (by apply Hdom2). by apply Hoth2.
Qed.

(** The pass of [get_all] for one key: the blocking take, and with
    [discard_old] the draining of what is in the queue of the key when
    the take has returned. *)
Lemma get_all_keys_step (k : string) (d : bool) (data : gmap string Item)
    (self s1 : t) (v : Item) :
  get k self = Ok (v, s1) ->
  exists data2 self2,
    (forall ks, get_all_keys (k :: ks) d data self = get_all_keys ks d data2 self2) /\
    let j := if d then length (default [] (ports_in s1 !! k)) else 0 in
    data2 !! k = stream k self !! j /\
    stream k self2 = drop (S j) (stream k self) /\
    (forall k', k' <> k -> data2 !! k' = data !! k') /\
    (forall k', is_Some (ports_in self2 !! k') <-> is_Some (ports_in self !! k')) /\
    (forall k', k' <> k -> is_Some (ports_in self !! k') ->
                stream k' self2 = stream k' self).
Proof.
  intros Hget. pose proof Hget as Hget0.
  unfold get in Hget. step_bind Hget as [[v' qs1] f1] Hw. injection Hget as <- <-.
  apply wait_stream in Hw as ([q1 Hq1] & Hdom1 & Hkey1 & Hoth1).
  destruct d.
  - exists (match last q1 with Some v1 => <[k := v1]> (<[k := v']> data)
                              | None => <[k := v']> data end),
           (set_queues (<[k := []]> qs1) f1 (set_queues qs1 f1 self)).
    split.
    { intros ks. cbn [get_all_keys]. rewrite Hget0, bind_ret.
      unfold take_nowait. cbn [ports_in set_queues]. rewrite Hq1, drain_all.
      by rewrite bind_ret. }
    cbn [ports_in set_queues]. rewrite Hq1. change (default [] (Some q1)) with q1.
    assert (stream k self = v' :: q1 ++ concat (map (batch_items k) f1)) as ->
      by (unfold stream; rewrite Hkey1; unfold strm; by rewrite Hq1).
    assert (stream k (set_queues (<[k := []]> qs1) f1 (set_queues qs1 f1 self))
            = concat (map (batch_items k) f1)) as ->
      by (unfold stream, strm; simpl; by rewrite lookup_insert_eq).
    split; [|split; [|split; [|split]]].
    + destruct q1 as [|v1 q1 _] using rev_ind.
      * simpl. by rewrite lookup_insert_eq.
      * rewrite last_snoc, lookup_insert_eq, length_app. simpl.
        replace (length q1 + 1) with (S (length q1)) by lia. simpl.
        rewrite <- app_assoc. simpl.
        by rewrite lookup_app_r, Nat.sub_diag by lia.
    + simpl. by rewrite drop_app_length.
    + intros k' Hne. destruct (last q1); by rewrite ?lookup_insert_ne by done.
    + intros k'. simpl. destruct (decide (k = k')) as [<-|Hne].
      * rewrite lookup_insert_eq, <- Hdom1, Hq1. split; eauto.
      * by rewrite lookup_insert_ne, Hdom1.
    + intros k' Hne Hk'. unfold stream, strm. simpl.
      rewrite lookup_insert_ne by done. by apply Hoth1.
  - exists (<[k := v']> data), (set_queues qs1 f1 self).
    split.
    { intros ks. cbn [get_all_keys]. by rewrite Hget0, !bind_ret. }
    unfold stream. simpl. rewrite Hkey1. simpl. rewrite lookup_insert_eq, drop_0.
    split; [done|]. split; [done|].
    split; [intros k' Hne; by rewrite lookup_insert_ne|]. split; [done|].
    intros k' Hne Hk'. by apply Hoth1.
Qed.

(** What [get_all] takes of the key [k]: the passes for the keys before
    [k] lead to a state in which the blocking take on [k] returns; with
    [discard_old] the items then in the queue of [k] are taken as well,
    and the last one is recorded. *)
Lemma get_all_keys_prefix (ks1 ks2 : list string) (k : string) (d : bool)
    (data m : gmap string Item) (self self' : t) :
  NoDup (ks1 ++ k :: ks2) ->
  (forall k', k' ∈ ks1 ++ k :: ks2 -> is_Some (ports_in self !! k')) ->
  get_all_keys (ks1 ++ k :: ks2) d data self = Ok (m, self') ->
  exists m0 s0 v s1,
    get_all_keys ks1 d data self = Ok (m0, s0) /\
    get k s0 = Ok (v, s1) /\
    let j := if d then length (default [] (ports_in s1 !! k)) else 0 in
    m !! k = stream k self !! j /\
    stream k self' = drop (S j) (stream k self).
Proof.
  revert data self. induction ks1 as [|k1 ks1 IH]; intros data self Hnd Hks Hg.
  - cbn [app] in Hnd, Hks, Hg. apply NoDup_cons in Hnd as [Hnin Hnd].
    assert (exists v s1, get k self = Ok (v, s1)) as (v & s1 & Hget).
    { cbn [get_all_keys] in Hg. destruct (get k self) as [[v s1]| |]; [eauto|done|done]. }
    destruct (get_all_keys_step k d data self s1 v Hget)
      as (data2 & self2 & Hstep & Hm & Hs & _ & Hdom2 & _).
    rewrite Hstep in Hg.
    apply get_all_keys_stream in Hg as (_ & _ & Hout); [|done|].
    2:{ intros k' Hk'. apply Hdom2, Hks. by right. }
    destruct (Hout k Hnin) as [Hmk Hsk].
    exists data, self, v, s1. split; [done|]. split; [done|].
    cbv zeta in *. rewrite Hmk, Hsk; [done|]. apply Hdom2, Hks. by left.
  - cbn [app] in Hnd, Hks, Hg. apply NoDup_cons in Hnd as [Hnin Hnd].
    assert (exists v1 sa, get k1 self = Ok (v1, sa)) as (v1 & sa & Hget).
    { cbn [get_all_keys] in Hg. destruct (get k1 self) as [[v1 sa]| |]; [eauto|done|done]. }
    destruct (get_all_keys_step k1 d data self sa v1 Hget)
      as (data2 & self2 & Hstep & _ & _ & _ & Hdom2 & Hoth2).
    rewrite Hstep in Hg.
    apply IH in Hg as (m0 & s0 & v & s1 & Hpre & Hgk & Hm & Hs); [|done|].
    2:{ intros k' Hk'. apply Hdom2, Hks. by right. }
    assert (k <> k1) as Hne.
    { intros ->. apply Hnin, elem_of_app. right. left. }
    assert (stream k self2 = stream k self) as Hsame.
    { apply Hoth2; [done|]. apply Hks. right. apply elem_of_app. right. left. }
    exists m0, s0, v, s1. split; [by rewrite Hstep|]. split; [done|].
    cbv zeta in *. by rewrite <- Hsame.
Qed.

Lemma arrive_stream (key : string) (self : t) :
  is_Some (ports_in self !! key) -> stream key (arrive self) = stream key self.
Proof.
  intros Hk. unfold arrive. destruct (feed self) as [|b f] eqn:Hf; [done|].
  unfold stream. simpl. rewrite Hf. by apply strm_deliver.
Qed.

(** The shape of what [get_input] returns under [SLOWEST]. *)
Lemma get_input_slowest_shape (passes : nat) (self self' : t) (d : Item) :
  trigger self = Trigger SLOWEST ->
  get_input passes self = Ok (d, self') ->
  exists m,
    get_all (discard_old self) (arrive self) = Ok (m, self') /\
    dom m = list_to_set (keys self) /\
    ((keys self = ["default"] /\ m !! "default" = Some d) \/
     (keys self <> ["default"] /\ d = Map m)).
Proof.
  intros Ht Hg. unfold get_input in Hg. rewrite arrive_trigger, Ht in Hg.
  destruct (arrive_config self) as (Hk0 & _ & Hd0 & _). rewrite Hd0 in Hg.
  step_bind Hg as [m self1] Ha. step_bind Hg as b Hb.
  pose proof Ha as Hdom. apply get_all_keys_dom in Hdom.
  rewrite Hk0, dom_empty_L, (left_id_L ∅ (∪)) in Hdom.
  pose proof Ha as Hk1. apply get_all_keys_keys in Hk1. rewrite Hk0 in Hk1.
  apply sole_default_spec in Hb as [_ Hb]. rewrite Hk1 in Hb.
  exists m. destruct b.
  - unfold getitem in Hg. destruct (m !! "default") as [v|] eqn:Hv; [|done].
    injection Hg as <- <-. split; [done|]. split; [done|]. left.
    split; [|done]. by apply Hb.
  - injection Hg as <- <-. split; [done|]. split; [done|]. right. split; [|done].
    intros Hks. apply Hb in Hks. discriminate.
Qed.

(** Without [discard_old], a call of [get_input] under [SLOWEST] takes
    one item of every key when every key has one, and never returns when
    the first key has none. *)
Lemma get_input_slowest_take (passes : nat) (self : t) :
  trigger self = Trigger SLOWEST -> discard_old self = false ->
  keys self <> [] -> NoDup (keys self) ->
  (forall k, k ∈ keys self -> is_Some (ports_in self !! k) /\ 0 < available k self) ->
  exists d self',
    get_input passes self = Ok (d, self') /\ same_config self self' /\
    (forall k, k ∈ keys self -> available k self' = available k self - 1).
Proof.
  intros Ht Hd Hne Hnd Hks.
  destruct (arrive_config self) as (Hk0 & Ht0 & Hd0 & Hdom0).
  destruct (get_all_keys_take (keys (arrive self)) ∅ (arrive self))
    as (m & self1 & Ha & Hc & Hav).
  { by rewrite Hk0. }
  { rewrite Hk0. intros k Hk. destruct (Hks k Hk) as [? ?].
    split; [by apply Hdom0|]. by rewrite arrive_available. }
  pose proof Ha as Hdom. apply get_all_keys_dom in Hdom.
  rewrite Hk0, dom_empty_L, (left_id_L ∅ (∪)) in Hdom.
  unfold get_input. rewrite Ht0, Ht, Hd0, Hd. unfold get_all. rewrite Ha, bind_ret.
  pose proof Hc as (Hk1 & _). rewrite Hk1, Hk0.
  assert (forall k, k ∈ keys self -> available k self1 = available k self - 1) as Hav'.
  { intros k Hk. destruct (Hks k Hk) as [? ?].
    rewrite Hav by (by apply Hdom0). rewrite Hk0.
    rewrite bool_decide_eq_true_2 by done. by rewrite arrive_available. }
  assert (same_config self self1) as Hcfg
    by (eapply same_config_trans; [apply arrive_config|exact Hc]).
  destruct (sole_default (keys self)) as [b| |] eqn:Hb;
    [|by destruct (keys self)|by destruct (keys self)].
  rewrite bind_ret. apply sole_default_spec in Hb as [_ Hb]. destruct b.
  - assert ("default" ∈ dom m) as [v Hv]%elem_of_dom.
    { rewrite Hdom. destruct Hb as [Hb _]. rewrite (Hb eq_refl). set_solver. }
    unfold getitem. rewrite Hv. by exists v, self1.
  - by exists (Map m), self1.
Qed.

Lemma get_input_slowest_blocked (passes : nat) (self : t) :
  trigger self = Trigger SLOWEST -> keys self <> [] ->
  (forall k, k ∈ keys self -> is_Some (ports_in self !! k) /\ available k self = 0) ->
  get_input passes self = Blocked.
Proof.
  intros Ht Hne Hks.
  destruct (arrive_config self) as (Hk0 & Ht0 & Hd0 & Hdom0).
  unfold get_input. rewrite Ht0, Ht. unfold get_all. rewrite Hk0.
  destruct (keys self) as [|k ks]; [done|].
  destruct (Hks k ltac:(left)) as [Hk H0].
  rewrite get_all_keys_blocked; [done|by apply Hdom0|by rewrite arrive_available].
Qed.

Lemma get_inputs_slowest (passes n : nat) (self : t) :
  trigger self = Trigger SLOWEST -> discard_old self = false ->
  keys self <> [] -> NoDup (keys self) ->
  (forall k, k ∈ keys self -> is_Some (ports_in self !! k) /\ available k self = n) ->
  (exists ds self', get_inputs passes n self = Ok (ds, self') /\ length ds = n) /\
  get_inputs passes (S n) self = Blocked.
Proof.
  revert self. induction n as [|n IH]; intros self Ht Hd Hne Hnd Hks.
  - split; [by exists [], self|]. simpl.
    by rewrite get_input_slowest_blocked.
  - destruct (get_input_slowest_take passes self Ht Hd Hne Hnd)
      as (d & self1 & Hg & (Hk1 & Ht1 & Hd1 & Hdom1) & Hav).
    { intros k Hk. destruct (Hks k Hk) as [? ->]. split; [done|lia]. }
    destruct (IH self1) as [(ds & self' & Hgs & Hlen) Hblocked]; try congruence.
    { intros k Hk. rewrite Hk1 in Hk. destruct (Hks k Hk) as [? Hn].
      split; [by apply Hdom1|]. rewrite Hav by done. lia. }
    split.
    + exists (d :: ds), self'. simpl. rewrite Hg. simpl. rewrite Hgs. simpl.
      by rewrite Hlen.
    + change (get_inputs passes (S (S n)) self) with
        ('(d, self) ← get_input passes self;
         '(ds, self) ← get_inputs passes (S n) self; Ok (d :: ds, self)).
      rewrite Hg, bind_ret. by rewrite Hblocked.
Qed.

(** The first key, in the order of the key list, whose queue holds an item
    wins the pass, and the call returns at once, without a sleep. *)
Lemma poll_keys_first_ready (ks1 ks2 : list string) (k : string) (v : Item) (q : Queue)
    (data : gmap string Item) (self : t) :
  (forall k', k' ∈ ks1 -> ports_in self !! k' = Some []) ->
  ports_in self !! k = Some (v :: q) -> v <> NONE ->
  poll_keys (ks1 ++ k :: ks2) NONE data self =
    Ok (Some (<[k := v]> data), v,
        set_queues (<[k := q]> (ports_in self)) (feed self) self).
Proof.
  intros Hempty Hk Hv. induction ks1 as [|k1 ks1 IH]; simpl.
  - unfold get_nowait. rewrite Hk. simpl. by destruct v.
  - unfold get_nowait at 1. rewrite (Hempty k1) by left. simpl.
    apply IH. intros k' Hk'. apply Hempty. by right.
Qed.

Lemma get_any_first_ready (passes : nat) (ks1 ks2 : list string) (k : string) (v : Item)
    (q : Queue) (self : t) :
  keys self = ks1 ++ k :: ks2 ->
  (forall k', k' ∈ ks1 -> ports_in self !! k' = Some []) ->
  ports_in self !! k = Some (v :: q) -> v <> NONE ->
  get_any (S passes) self =
    Ok ({[k := v]}, set_queues (<[k := q]> (ports_in self)) (feed self) self).
Proof.
  intros Hks Hempty Hk Hv. unfold get_any. simpl. rewrite Hks.
  rewrite (poll_keys_first_ready ks1 ks2 k v q ∅ self Hempty Hk Hv). simpl.
  by rewrite insert_empty.
Qed.


(** C6, as stated, fails: with the single key ["default"] and
    [discard_old], two items on the key give one tick, whose input is
    the item 2 itself, not a map; the second call never returns. *)
Lemma slowest_discard_default_one_tick :
  (forall k, k ∈ keys backlog -> available k backlog = 2) /\
  (exists self', get_input 0 backlog = Ok (Int 2, self')) /\
  (~ exists m self', get_input 0 backlog = Ok (Map m, self')) /\
  get_inputs 0 2 backlog = Blocked.
Proof.
  split; [|split; [|split]].
  - intros k ->%list_elem_of_singleton. reflexivity.
  - eexists. vm_compute. reflexivity.
  - intros (m & self' & Hg). vm_compute in Hg. discriminate Hg.
  - vm_compute. reflexivity.
Qed.

(** C6, amended: under [SLOWEST], with keys that are distinct and have
    their queues, every call of [get_input] that returns has gathered,
    through [get_all], a map with exactly the keys of the layer, one
    item each: of every key the call takes a first part of the items in
    their order of arrival and records the last item of this part.
    Without [discard_old] this part is the first item alone; with
    [discard_old] it is the first item and every item that is in the
    queue of the key when the blocking take on the key has returned,
    after the passes for the keys before it.  The call
    returns this map, except with the key list [["default"]], where it
    returns the item of that key.  Without [discard_old], when [n] items
    are in the queue or still to come on every key, in whatever batches,
    [n] calls in a row return and the next one never does. *)
Theorem slowest_one_item_per_key (passes n : nat) (self : t) :
  trigger self = Trigger SLOWEST ->
  keys self <> [] -> NoDup (keys self) ->
  (forall k, k ∈ keys self -> is_Some (ports_in self !! k)) ->
  (forall d self', get_input passes self = Ok (d, self') ->
     exists m,
       get_all (discard_old self) (arrive self) = Ok (m, self') /\
       dom m = list_to_set (keys self) /\
       (forall k, k ∈ keys self ->
          exists j, (discard_old self = false -> j = 0) /\
            m !! k = stream k self !! j /\
            stream k self' = drop (S j) (stream k self) /\
            exists ks1 ks2 m0 s0 v s1,
              keys self = ks1 ++ k :: ks2 /\
              get_all_keys ks1 (discard_old self) ∅ (arrive self) = Ok (m0, s0) /\
              get k s0 = Ok (v, s1) /\
              (discard_old self = true ->
               j = length (default [] (ports_in s1 !! k)))) /\
       ((keys self = ["default"] /\ m !! "default" = Some d) \/
        (keys self <> ["default"] /\ d = Map m))) /\
  (discard_old self = false ->
   (forall k, k ∈ keys self -> available k self = n) ->
   (exists ds self', get_inputs passes n self = Ok (ds, self') /\ length ds = n) /\
   get_inputs passes (S n) self = Blocked).
Proof.
  intros Ht Hne Hnd Hks. split.
  - intros d self' Hg.
    destruct (get_input_slowest_shape passes self self' d Ht Hg) as (m & Ha & Hdom & Hd).
    exists m. split; [done|]. split; [done|]. split; [|done].
    destruct (arrive_config self) as (Hk0 & _ & Hd0 & Hdom0).
    unfold get_all in Ha. rewrite Hk0 in Ha.
    intros k Hk. apply list_elem_of_split in Hk as (ks1 & ks2 & Hsplit).
    rewrite Hsplit in Ha, Hnd, Hks.
    apply get_all_keys_prefix in Ha as (m0 & s0 & v & s1 & Hpre & Hget & Hm & Hs);
      [|done|intros k' Hk'; by apply Hdom0, Hks].
    cbv zeta in Hm, Hs.
    rewrite arrive_stream in Hm, Hs
      by (apply Hks, elem_of_app; right; left).
    exists (if discard_old self then length (default [] (ports_in s1 !! k)) else 0).
    split; [by intros ->|]. split; [done|]. split; [done|].
    exists ks1, ks2, m0, s0, v, s1. repeat split; try done. by intros ->.
  - intros Hd Hav. apply get_inputs_slowest; try done.
    intros k Hk. split; [by apply Hks|by apply Hav].
Qed.

(** C6, on two inputs with two items each that arrive at different
    times: two ticks, and the third call never returns; and on the same
    inputs with [discard_old], where the first call takes the three
    items that are there for ["a"] and keeps the last. *)
Lemma slowest_one_item_per_key_witness :
  ((trigger skewed = Trigger SLOWEST /\ keys skewed <> [] /\ NoDup (keys skewed) /\
    (forall k, k ∈ keys skewed -> is_Some (ports_in skewed !! k)) /\
    discard_old skewed = false /\
    (forall k, k ∈ keys skewed -> available k skewed = 2)) /\
   (exists ds self', get_inputs 0 2 skewed = Ok (ds, self') /\ length ds = 2) /\
   get_inputs 0 3 skewed = Blocked) /\
  (discard_old skewed_discard = true /\
   exists self' m j,
     get_input 0 skewed_discard = Ok (Map {["a" := Int 3; "b" := Int 10]}, self') /\
     get_all true (arrive skewed_discard) = Ok (m, self') /\
     m !! "a" = stream "a" skewed_discard !! j /\
     stream "a" self' = drop (S j) (stream "a" skewed_discard) /\
     exists ks1 ks2 m0 s0 v s1,
       keys skewed_discard = ks1 ++ "a" :: ks2 /\
       get_all_keys ks1 true ∅ (arrive skewed_discard) = Ok (m0, s0) /\
       get "a" s0 = Ok (v, s1) /\
       j = length (default [] (ports_in s1 !! "a"))).
Proof.
  split.
  - assert (forall P : string -> Prop, P "a" -> P "b" ->
              forall k, k ∈ keys skewed -> P k) as Hkeys.
    { intros P Ha Hb k Hk. simpl in Hk. set_solver. }
    assert (NoDup (keys skewed)) as Hnd by (apply (bool_decide_unpack _); reflexivity).
    assert (forall k, k ∈ keys skewed -> is_Some (ports_in skewed !! k)) as Hq
      by (apply Hkeys; vm_compute; eauto).
    assert (forall k, k ∈ keys skewed -> available k skewed = 2) as Hav
      by (apply Hkeys; reflexivity).
    split; [repeat split; done|].
    apply (slowest_one_item_per_key 0 2 skewed); try done.
  - split; [reflexivity|].
    assert (forall P : string -> Prop, P "a" -> P "b" ->
              forall k, k ∈ keys skewed_discard -> P k) as Hkeys.
    { intros P Ha Hb k Hk. simpl in Hk. set_solver. }
    assert (NoDup (keys skewed_discard)) as Hnd
      by (apply (bool_decide_unpack _); reflexivity).
    assert (forall k, k ∈ keys skewed_discard -> is_Some (ports_in skewed_discard !! k))
      as Hq by (apply Hkeys; vm_compute; eauto).
    assert (exists self', get_input 0 skewed_discard =
                            Ok (Map {["a" := Int 3; "b" := Int 10]}, self'))
      as [self' Hrun] by (eexists; vm_compute; reflexivity).
    destruct (slowest_one_item_per_key 0 0 skewed_discard eq_refl ltac:(done) Hnd Hq)
      as [Hshape _].
    destruct (Hshape _ _ Hrun) as (m & Ha & _ & Hk & _).
    destruct (Hk "a" ltac:(left)) as (j & _ & Hm & Hs & ks1 & ks2 & m0 & s0 & v & s1 &
                                      Hsplit & Hpre & Hget & Hj).
    exists self', m, j. split; [exact Hrun|]. split; [exact Ha|].
    split; [exact Hm|]. split; [exact Hs|].
    exists ks1, ks2, m0, s0, v, s1. repeat split; try done. by apply Hj.
Defined.

End TransformFacts.

(** * Further properties *)

(** ** The port fabric *)

Module PortFacts.

Lemma not_None_cons (d : Item) (ds : list Item) :
  not_None (d :: ds) = (if is_None d then [] else [d]) ++ not_None ds.
Proof. unfold not_None. simpl. by destruct (is_None d). Qed.

(** A port hands every item that is not [None] to every subscriber
    queue, in the order of the calls, behind what the queue already holds;
    [None] is dropped. *)
Lemma emit_all_spec (ds : list Item) (p : Port.t) :
  Port.out_queues (emit_all ds p) = map (fun q => q ++ not_None ds) (Port.out_queues p) /\
  Port.emitted (emit_all ds p) = Port.emitted p ++ not_None ds.
Proof.
  revert p. induction ds as [|d ds IH]; intros p.
  - simpl. split; [|by rewrite app_nil_r].
    induction (Port.out_queues p) as [|q qs IHq]; [done|].
    simpl. by rewrite app_nil_r, <- IHq.
  - change (emit_all (d :: ds) p) with (emit_all ds (Port.handle_output d p)).
    destruct (IH (Port.handle_output d p)) as [-> ->].
    rewrite not_None_cons. unfold Port.handle_output.
    destruct (is_None d); simpl; [done|].
    rewrite <- app_assoc. split; [|done].
    rewrite map_map. apply map_ext. intros q. by rewrite <- app_assoc.
Qed.

(** X1: a queue subscribed after some items went out starts empty: the
    earlier items are not replayed to it, and the later ones reach the
    old and the new subscribers alike. *)
Theorem late_subscriber (ds1 ds2 : list Item) (p : Port.t) :
  let '(i, p1) := Port.get_output (emit_all ds1 p) in
  i = length (Port.out_queues p) /\
  Port.out_queues (emit_all ds2 p1) =
    map (fun q => q ++ not_None ds1 ++ not_None ds2) (Port.out_queues p) ++ [not_None ds2].
Proof.
  unfold Port.get_output.
  destruct (emit_all_spec ds1 p) as [Hq He].
  split; [by rewrite Hq, length_map|].
  destruct (emit_all_spec ds2
              (Port.mk (Port.out_queues (emit_all ds1 p) ++ [[]])
                       (Port.emitted (emit_all ds1 p)))) as [-> _].
  simpl. rewrite Hq, map_app, map_map. simpl. f_equal.
  apply map_ext. intros q. by rewrite <- app_assoc.
Qed.

End PortFacts.

(** ** Multi-output port tables, continued *)

Module MultiOutputMore.
Import MultiOutput.

(** X2: asking twice for the same port gives the same port and creates
    nothing the second time; the first call leaves every port that exists
    where it is, and the declared table and the default port untouched. *)
Theorem get_port_again (name : string) (st : t) :
  exists r st1,
    get_port name st = Ok (r, st1) /\
    get_port name st1 = Ok (r, st1) /\
    (forall r' p, deref r' st = Some p -> deref r' st1 = Some p) /\
    ports st1 = ports st /\ base st1 = base st.
Proof.
  unfold get_port.
  destruct (ports st !! name) as [p|] eqn:Hp.
  - exists (Declared name), st. by rewrite Hp.
  - destruct (auto_ports st !! name) as [p|] eqn:Ha.
    + exists (Auto name), st. by rewrite Hp, Ha.
    + unfold _register_port. rewrite Ha. simpl. rewrite lookup_insert_eq.
      eexists (Auto name), _. split; [reflexivity|]. simpl.
      rewrite Hp, lookup_insert_eq. split; [done|]. split; [|done].
      intros [n|n] q Hq; simpl in *; [done|].
      rewrite lookup_insert_ne; [done|]. intros <-. congruence.
Qed.

(** X3: [_register_port] refuses a name that its table has, with a
    [NameError]; it accepts any other name, after which the name has a
    fresh port without subscribers, the other names of the table and the
    other table are as before, and a second registration is refused. *)
Theorem register_port_once (port : string) (auto : bool) (st : t) :
  let table (s : t) := if auto then auto_ports s else ports s in
  let other (s : t) := if auto then ports s else auto_ports s in
  (is_Some (table st !! port) ->
   _register_port port auto st = Raise (already_exists port)) /\
  (table st !! port = None ->
   exists st1,
     _register_port port auto st = Ok st1 /\
     table st1 !! port = Some Port.init /\
     (forall n, n <> port -> table st1 !! n = table st !! n) /\
     other st1 = other st /\ base st1 = base st /\
     _register_port port auto st1 = Raise (already_exists port)).
Proof.
  unfold _register_port, already_exists. destruct auto; simpl; split.
  - by intros [p ->].
  - intros ->. eexists. split; [reflexivity|]. simpl. rewrite lookup_insert_eq.
    repeat split; try done. intros n Hn. by rewrite lookup_insert_ne.
  - by intros [p ->].
  - intros ->. eexists. split; [reflexivity|]. simpl. rewrite lookup_insert_eq.
    repeat split; try done. intros n Hn. by rewrite lookup_insert_ne.
Qed.

Lemma occurrences_port_keys (st : t) (n : string) :
  occurrences (port_keys st) n =
    (if ports st !! n is Some _ then 1 else 0) +
    (if auto_ports st !! n is Some _ then 1 else 0).
Proof. rewrite <- !MultiOutputFacts.occurrences_keys. apply count_occ_app. Qed.

(** X4: [_register_port] does not look at the auto table: a name that a
    consumer has already obtained as an auto port can still be declared.
    From then on [get_port] answers with the declared port, and a mapping
    that has the name is forwarded to the declared port, twice, while the
    auto port and its subscribers get nothing. *)
Theorem declared_shadows_auto (name : string) (p : Port.t) (v : Item)
    (m : gmap string Item) (st : t) :
  ports st !! name = None -> auto_ports st !! name = Some p -> m !! name = Some v ->
  exists st1 st2,
    _register_port name false st = Ok st1 /\
    get_port name st1 = Ok (Declared name, st1) /\
    handle_output (Map m) st1 = Ok st2 /\
    auto_ports st2 !! name = Some p /\
    ports st2 !! name = Some (Port.handle_output v (Port.handle_output v Port.init)).
Proof.
  intros Hp Ha Hm.
  set (st1 := mk (<[name := Port.init]> (ports st)) (auto_ports st) (base st)).
  assert (ports st1 !! name = Some Port.init) as Hp1 by apply lookup_insert_eq.
  destruct (MultiOutputFacts.forward_keys_mapping m (port_keys st1) st1)
    as (st2 & Hst2 & Hports & Hauto & Hbase);
    [apply MultiOutputFacts.port_keys_known|].
  exists st1, (mk (ports st2) (auto_ports st2)
                  (BaseOutputLayer.handle_output (Map m) (base st2))).
  split; [unfold _register_port; by rewrite Hp|].
  split; [unfold get_port; by rewrite Hp1|].
  split; [unfold handle_output; simpl; by rewrite Hst2|]. simpl.
  rewrite Hauto, Hports, occurrences_port_keys, Hp1. simpl. rewrite Ha, Hm. done.
Qed.

(** X4, on an auto port ["a"] with a subscriber and the mapping
    [{"a": 1}]. *)
Lemma declared_shadows_auto_witness :
  exists st1 st2,
    _register_port "a" false ScenarioPorts.auto_a = Ok st1 /\
    get_port "a" st1 = Ok (Declared "a", st1) /\
    handle_output (Map Scenario.only_a) st1 = Ok st2 /\
    auto_ports st2 !! "a" = Some (Port.mk [[]] []) /\
    ports st2 !! "a" =
      Some (Port.handle_output (Int 1) (Port.handle_output (Int 1) Port.init)).
Proof.
  apply (declared_shadows_auto "a" (Port.mk [[]] []) (Int 1) Scenario.only_a
           ScenarioPorts.auto_a); reflexivity.
Defined.

(** X5: [None] goes through [handle_output] without any effect.  An item
    that is neither [None] nor a mapping cannot be indexed by a port name:
    with a port in either table [handle_output] raises [TypeError] before
    anything is put anywhere, and only with both tables empty does the item
    reach the default port. *)
Theorem handle_output_not_mapping (data : Item) (st : t) :
  handle_output NONE st = Ok st /\
  (is_scalar data = true ->
   (port_keys st <> [] -> handle_output data st = Raise TypeError) /\
   (port_keys st = [] ->
    handle_output data st =
      Ok (mk (ports st) (auto_ports st) (BaseOutputLayer.handle_output data (base st))))).
Proof.
  split; [by destruct st as [? ? [?]]|].
  intros Hdata. unfold handle_output.
  assert (is_None data = false) as -> by (by destruct data).
  assert (forall k p, MultiOutput.try_forward data k p = Raise TypeError) as Htry
    by (intros k p; by destruct data).
  split.
  - intros Hne. destruct (port_keys st) as [|k ks] eqn:Hks; [done|]. simpl.
    unfold forward_key.
    destruct (MultiOutputFacts.port_keys_known st k) as [[p Hp]|[p Hp]];
      [rewrite Hks; by left| |].
    + by rewrite Hp, Htry.
    + destruct (ports st !! k); by rewrite ?Hp, Htry.
  - by intros ->.
Qed.

(** X5, on the terminal [STOP] and a port set with two ports. *)
Lemma handle_output_not_mapping_witness :
  is_scalar STOP = true /\ port_keys Scenario.two_ports <> [] /\
  handle_output STOP Scenario.two_ports = Raise TypeError.
Proof.
  assert (port_keys Scenario.two_ports <> []) as Hne by (vm_compute; discriminate).
  split; [reflexivity|]. split; [exact Hne|].
  by apply (handle_output_not_mapping STOP Scenario.two_ports).
Defined.

End MultiOutputMore.

(** ** The declared ports of a decode layer *)

Module DecodeLayerFacts.
Import MultiOutput.

Lemma register_ports_cases (names : list string) (o : t) :
  match DecodeLayer.register_ports names o with
  | Ok o' =>
      NoDup names /\ (forall n, n ∈ names -> ports o !! n = None) /\
      auto_ports o' = auto_ports o /\ base o' = base o /\
      (forall n, ports o' !! n =
                 if bool_decide (n ∈ names) then Some Port.init else ports o !! n)
  | Raise e =>
      ~ (NoDup names /\ forall n, n ∈ names -> ports o !! n = None) /\
      exists n, n ∈ names /\ e = already_exists n
  | Blocked => False
  end.
Proof.
  revert o. induction names as [|n names IH]; intros o; simpl.
  - split; [constructor|]. split; [by intros n ?%elem_of_nil|].
    done.
  - unfold _register_port. destruct (ports o !! n) as [p|] eqn:Hn; simpl.
    + split; [|exists n; split; [by left|done]].
      intros [_ Hfree]. specialize (Hfree n ltac:(left)). congruence.
    + specialize (IH (mk (<[n := Port.init]> (ports o)) (auto_ports o) (base o))).
      destruct (DecodeLayer.register_ports names _) as [o'|e|]; simpl in *; [| |done].
      * destruct IH as (Hnd & Hfree & Ha & Hb & Hports).
        assert (n ∉ names) as Hnin.
        { intros Hin. specialize (Hfree n Hin). by rewrite lookup_insert_eq in Hfree. }
        split; [by constructor|]. split; [|split; [done|split; [done|]]].
        -- intros n' [->|Hin]%elem_of_cons; [done|].
           specialize (Hfree n' Hin). rewrite lookup_insert_ne in Hfree; [done|].
           intros ->. done.
        -- intros n'. rewrite Hports. destruct (decide (n' = n)) as [->|Hne].
           ++ rewrite (bool_decide_eq_false_2 (n ∈ names)) by done.
              rewrite bool_decide_eq_true_2 by left. apply lookup_insert_eq.
           ++ rewrite lookup_insert_ne by done.
              destruct (bool_decide (n' ∈ names)) eqn:Hin.
              ** apply bool_decide_eq_true_1 in Hin.
                 by rewrite bool_decide_eq_true_2 by (by right).
              ** apply bool_decide_eq_false_1 in Hin.
                 rewrite bool_decide_eq_false_2; [done|].
                 by intros [?|?]%elem_of_cons.
      * destruct IH as (Hnot & n' & Hin & ->).
        split; [|exists n'; split; [by right|done]].
        intros [[Hnin Hnd]%NoDup_cons Hfree]. apply Hnot. split; [done|].
        intros n'' Hin''. rewrite lookup_insert_ne; [apply Hfree; by right|].
        intros ->. done.
Qed.

(** X6: the constructor of a decode layer registers its port names as
    declared ports exactly when the names are distinct: each name then has
    a fresh port, no other name has one, and the auto table is empty; a
    name that is listed twice makes the constructor raise the [NameError]
    of [_register_port]. *)
Theorem register_ports_distinct (names : list string) :
  match DecodeLayer.register_ports names init with
  | Ok o =>
      NoDup names /\ auto_ports o = ∅ /\ base o = base init /\
      (forall n, ports o !! n = if bool_decide (n ∈ names) then Some Port.init else None)
  | Raise e => ~ NoDup names /\ exists n, n ∈ names /\ e = already_exists n
  | Blocked => False
  end.
Proof.
  pose proof (register_ports_cases names init) as Hcases.
  destruct (DecodeLayer.register_ports names init) as [o|e|]; [| |done].
  - destruct Hcases as (Hnd & _ & Ha & Hb & Hports). by repeat split.
  - destruct Hcases as (Hnot & Hn). split; [|done].
    intros Hnd. apply Hnot. split; [done|]. intros n _. apply lookup_empty.
Qed.

End DecodeLayerFacts.

(** ** The processing loop, continued *)

Module BaseLayerMore.
Section WithOps.
Import BaseLayer.
Context {S : Type} `{LayerOps S}.

Lemma iteration_STOP (L : t S) (s : S) :
  get_input (counter L) (self L) = Ok (STOP, s) ->
  iteration L = Ok (stop (log (EvInput STOP) (set_self s L))).
Proof. intros Hg. unfold iteration. by rewrite Hg. Qed.

(** When [get_input] returns [STOP], the loop is left after that pass,
    whatever the number of passes allowed. *)
Lemma process_loop_STOP (n : nat) (L : t S) (s : S) :
  stop_event L = false ->
  get_input (counter L) (self L) = Ok (STOP, s) ->
  process_loop (Datatypes.S n) L =
    on_exit (stop (log (EvInput STOP) (set_self s L))) ≫= fun L' => Ok (Some L').
Proof.
  intros Hrun Hg. unfold process_loop. simpl. rewrite Hrun, (iteration_STOP L s Hg).
  simpl. by rewrite BaseLayerFacts.while_loop_stopped.
Qed.

(** X7: an input [STOP] ends the layer: the pass that gets it calls
    neither [post_init] nor [transform], no further input is asked for,
    and the loop is left with the counter as it was; on a layer with the
    plain output side the terminal [STOP] then goes out on the default
    port and [shutdown] runs. *)
Theorem STOP_input_ends_loop (n : nat) (L : t S) (s s' : S) (b : BaseOutputLayer.t) :
  stop_event L = false ->
  get_input (counter L) (self L) = Ok (STOP, s) ->
  out L = Single b ->
  shutdown s = Ok s' ->
  process_loop (Datatypes.S n) L =
    Ok (Some (mk (counter L) (signal L) (is_first L) true (signal_in L)
                 (Single (BaseOutputLayer.handle_output STOP b)) s'
                 (trace L ++ [EvInput STOP]))).
Proof.
  intros Hrun Hg Ho Hs. rewrite (process_loop_STOP n L s Hrun Hg).
  unfold on_exit. simpl. by rewrite Ho, Hs.
Qed.

(** X8: on a layer with the multi-output side and a port in either
    table, the terminal [STOP] cannot be indexed by the port names: the
    layer that gets [STOP] as input leaves the loop and raises [TypeError]
    before [STOP] reaches the default port and before [shutdown]. *)
Theorem multi_output_exit_raises (n : nat) (L : t S) (s : S) (m : MultiOutput.t) :
  stop_event L = false ->
  get_input (counter L) (self L) = Ok (STOP, s) ->
  out L = Multi m ->
  MultiOutput.port_keys m <> [] ->
  process_loop (Datatypes.S n) L = Raise TypeError.
Proof.
  intros Hrun Hg Ho Hne. rewrite (process_loop_STOP n L s Hrun Hg).
  unfold on_exit. simpl. rewrite Ho. simpl.
  by rewrite MultiOutputFacts.handle_output_STOP_raises.
Qed.

Lemma process_loop_input_raises (n : nat) (L : t S) (e : Exn) :
  stop_event L = false ->
  get_input (counter L) (self L) = Raise e ->
  process_loop (Datatypes.S n) L = Raise e.
Proof.
  intros Hrun Hg. unfold process_loop. cbn [while_loop]. rewrite Hrun.
  unfold iteration. by rewrite Hg.
Qed.

Lemma results_not_None (tr : list LoopEvent) : not_None (results tr) = results tr.
Proof.
  induction tr as [|e tr IH]; [done|].
  destruct e as [| |d r|]; simpl; try done.
  destruct r; simpl; try done; unfold not_None in *; simpl; by rewrite IH.
Qed.

Lemma emit_all_app (ds1 ds2 : list Item) (p : Port.t) :
  emit_all (ds1 ++ ds2) p = emit_all ds2 (emit_all ds1 p).
Proof. apply foldl_app. Qed.

Lemma iteration_default_port (L L' : t S) :
  iteration L = Ok L' ->
  exists rs,
    results (trace L') = results (trace L) ++ rs /\
    default_port (out L') = emit_all rs (default_port (out L)).
Proof.
  intros (d & rest & Htr & Hcases)%BaseLayerFacts.iteration_cases.
  rewrite Htr, BaseLayerFacts.results_app.
  destruct Hcases as [(-> & -> & _ & _ & _ & Ho)|[(-> & -> & _ & _ & _ & Ho)|
                      (Hd1 & Hd2 & _ & _ & r & -> & Hr)]].
  - exists []. by rewrite Ho.
  - exists []. by rewrite Ho.
  - rewrite BaseLayerFacts.results_pass. destruct (is_None r) eqn:Hnone.
    + destruct Hr as [_ Ho]. exists []. by rewrite Ho.
    + destruct Hr as [_ Ho]. exists [r].
      by rewrite (BaseLayerFacts.handle_output_default _ _ _ Ho).
Qed.

Lemma while_loop_default_port (n : nat) (L L' : t S) :
  while_loop n L = Ok L' ->
  exists rs,
    results (trace L') = results (trace L) ++ rs /\
    default_port (out L') = emit_all rs (default_port (out L)).
Proof.
  revert L. induction n as [|n IH]; intros L Hw; simpl in Hw.
  - injection Hw as <-. exists []. by rewrite app_nil_r.
  - destruct (stop_event L).
    + injection Hw as <-. exists []. by rewrite app_nil_r.
    + step_bind Hw as L1 Hit.
      apply iteration_default_port in Hit as (rs1 & Hr1 & Ho1).
      apply IH in Hw as (rs2 & Hr2 & Ho2).
      exists (rs1 ++ rs2). by rewrite Hr2, Hr1, Ho2, Ho1, emit_all_app, app_assoc.
Qed.

(** X9: every subscriber of the default port receives, behind what its
    queue already holds, exactly the results of [transform] that are not
    [None], in the order of the passes: a pass that is skipped puts
    nothing on any queue, and no result is lost or repeated. *)
Theorem while_loop_delivers (n : nat) (L L' : t S) :
  while_loop n L = Ok L' ->
  exists rs,
    results (trace L') = results (trace L) ++ rs /\
    Port.out_queues (default_port (out L')) =
      map (fun q => q ++ rs) (Port.out_queues (default_port (out L))).
Proof.
  intros (rs & Hr & Ho)%while_loop_default_port. exists rs. split; [done|].
  rewrite Ho. destruct (PortFacts.emit_all_spec rs (default_port (out L))) as [-> _].
  assert (not_None rs = rs) as ->; [|done].
  pose proof (results_not_None (trace L')) as Hnn.
  pose proof (results_not_None (trace L)) as Hn0.
  rewrite Hr in Hnn. unfold not_None in *. rewrite List.filter_app, Hn0 in Hnn.
  by apply app_inv_head in Hnn.
Qed.

Lemma drain_signals_spec (q : Queue) (L L' : t S) :
  drain_signals q L = Ok L' ->
  signal L' = default (signal L) (last q) /\
  signal_in L' = (if q is [] then signal_in L else Some []).
Proof.
  revert L. induction q as [|sig q IH]; intros L Hd; simpl in Hd.
  - by injection Hd as <-.
  - step_bind Hd as s Hs. apply IH in Hd as [-> ->]. simpl.
    split; [|by destruct q]. destruct q as [|sig' q]; [done|].
    change (last (sig :: sig' :: q)) with (last (sig' :: q)).
    by destruct (last (sig' :: q)) eqn:Hl; [|apply last_None in Hl].
Qed.

(** X10: [get_signal] takes every signal that waits on the signal queue,
    which is empty afterwards, and leaves the last of them in
    [self.signal]; without a signal port, or with nothing waiting,
    [self.signal] is [None].  The counter, [is_first], the stop event and
    the output side are not touched. *)
Theorem get_signal_drains (L L' : t S) :
  get_signal L = Ok L' ->
  same_base L L' /\
  signal_in L' = (fun _ => []) <$> signal_in L /\
  signal L' = default NONE (last (default [] (signal_in L))).
Proof.
  intros Hg. split; [by apply BaseLayerFacts.get_signal_base|].
  unfold get_signal in Hg. simpl in Hg.
  destruct (signal_in L) as [q|] eqn:Hq.
  - apply drain_signals_spec in Hg as [-> ->]. simpl. by destruct q.
  - by injection Hg as <-.
Qed.

End WithOps.

(** X7, on [OneShotInputLayer(LayerSignal.STOP)]. *)
Lemma STOP_input_ends_loop_witness :
  BaseLayer.process_loop 5 ScenarioLoop.stop_shot =
    Ok (Some (BaseLayer.mk 0 NONE true true None
                (Single (BaseOutputLayer.mk (Port.mk [[STOP]] [STOP])))
                (OneShotInputLayer.init STOP) [EvInput STOP])).
Proof.
  apply (STOP_input_ends_loop 4 ScenarioLoop.stop_shot (OneShotInputLayer.init STOP)
           (OneShotInputLayer.init STOP)
           (BaseOutputLayer.mk (Port.get_output Port.init).2)); reflexivity.
Defined.

(** X8, on a decode layer with two ports that gets the terminal [STOP] of
    its upstream layer. *)
Lemma multi_output_exit_raises_witness :
  BaseLayer.process_loop (H := DecodeLayer.ops 0) 3 ScenarioLoop.decode_stopped
    = Raise TypeError.
Proof.
  apply (multi_output_exit_raises (H := DecodeLayer.ops 0) 2 ScenarioLoop.decode_stopped
           (DecodeLayer.mk
              (TransformMixin.mk {["default" := []]} ["default"] false (Trigger SLOWEST)
                 NoSource [] [])
              (fun data => data))
           Scenario.two_ports);
    [reflexivity|vm_compute; reflexivity|reflexivity|vm_compute; discriminate].
Defined.

(** X9, on [InputLayer(rate=30)] with one subscriber, for three passes. *)
Lemma while_loop_delivers_witness :
  BaseLayer.while_loop 3 Scenario.counting = Ok Scenario.counting_after_3 /\
  exists rs,
    results (BaseLayer.trace Scenario.counting_after_3) =
      results (BaseLayer.trace Scenario.counting) ++ rs /\
    Port.out_queues (default_port (BaseLayer.out Scenario.counting_after_3)) =
      map (fun q => q ++ rs) (Port.out_queues (default_port (BaseLayer.out Scenario.counting))).
Proof.
  assert (BaseLayer.while_loop 3 Scenario.counting = Ok Scenario.counting_after_3) as Hrun
    by (vm_compute; reflexivity).
  split; [exact Hrun|].
  exact (while_loop_delivers 3 Scenario.counting Scenario.counting_after_3 Hrun).
Defined.

(** X10, on a layer with two signals waiting. *)
Lemma get_signal_drains_witness :
  exists L',
    BaseLayer.get_signal ScenarioLoop.signalled = Ok L' /\
    BaseLayer.signal_in L' = Some [] /\ BaseLayer.signal L' = Str "fast".
Proof.
  eexists. split; [reflexivity|].
  exact (proj2 (get_signal_drains ScenarioLoop.signalled _ eq_refl)).
Defined.

End BaseLayerMore.

(** ** Producers *)

Module SleepFacts.

Ltac qconst := unfold Qle, Qlt; vm_compute; first [reflexivity|discriminate].

Lemma Qle_bool_false (x y : Q) : (y < x)%Q -> Qle_bool x y = false.
Proof.
  intros Hlt. destruct (Qle_bool x y) eqn:Hb; [|done].
  apply Qle_bool_iff in Hb. by apply Qle_not_lt in Hb.
Qed.


Lemma nanoseconds_in_range (d : Q) :
  (- period_max <= d)%Q -> (d <= period_max)%Q ->
  Qle_bool ns_min (d * 1000000000) && Qle_bool (d * 1000000000) ns_max = true.
Proof.
  intros Hlo Hhi. apply andb_true_iff. split; apply Qle_bool_iff.
  - apply Qle_trans with (- period_max * 1000000000)%Q; [qconst|].
    apply Qmult_le_compat_r; [done|qconst].
  - apply Qle_trans with (period_max * 1000000000)%Q; [|qconst].
    apply Qmult_le_compat_r; [done|qconst].
Qed.

(** A duration that is not negative and not above [period_max] is
    slept. *)
Lemma time_sleep_ok (d : Q) :
  (0 <= d)%Q -> (d <= period_max)%Q -> time_sleep d = Ok tt.
Proof.
  intros H0 Hhi. unfold time_sleep. cbv zeta.
  rewrite nanoseconds_in_range; [|by apply Qle_trans with 0%Q; [qconst|]|done].
  by rewrite (proj2 (Qle_bool_iff _ _) H0).
Qed.

Lemma time_sleep_negative (d : Q) :
  (d < 0)%Q -> (- period_max <= d)%Q -> time_sleep d = Raise ValueError.
Proof.
  intros Hneg Hlo. unfold time_sleep. cbv zeta.
  rewrite nanoseconds_in_range;
    [|done|by apply Qle_trans with 0%Q; [apply Qlt_le_weak|qconst]].
  by rewrite Qle_bool_false.
Qed.

Lemma time_sleep_overflow (d : Q) :
  (10000000000 <= d)%Q \/ (d <= - 10000000000)%Q -> time_sleep d = Raise OverflowError.
Proof.
  intros Hd. unfold time_sleep. cbv zeta.
  assert (Qle_bool ns_min (d * 1000000000) && Qle_bool (d * 1000000000) ns_max = false)
    as ->; [|done].
  apply andb_false_iff. destruct Hd as [Hd|Hd]; [right|left]; apply Qle_bool_false.
  - apply Qlt_le_trans with (10000000000 * 1000000000)%Q; [qconst|].
    apply Qmult_le_compat_r; [done|qconst].
  - apply Qle_lt_trans with (- 10000000000 * 1000000000)%Q; [|qconst].
    apply Qmult_le_compat_r; [done|qconst].
Qed.



Lemma one_over_ok (rate : Q) :
  ~ (rate == 0)%Q -> (- rate_max <= rate)%Q -> (rate <= rate_max)%Q ->
  one_over rate = Ok (1 / rate)%Q.
Proof.
  intros Hne Hlo Hhi. unfold one_over.
  rewrite (Qle_bool_false float_bound rate)
    by (apply Qle_lt_trans with rate_max; [done|qconst]).
  rewrite (Qle_bool_false rate (- float_bound))
    by (apply Qlt_le_trans with (- rate_max)%Q; [qconst|done]).
  cbn [orb]. destruct (Qeq_bool rate 0) eqn:Heq; [|done].
  by apply Qeq_bool_iff in Heq.
Qed.

Lemma one_over_zero (rate : Q) : (rate == 0)%Q -> one_over rate = Raise ZeroDivisionError.
Proof.
  intros Hz. unfold one_over.
  rewrite (Qle_bool_false float_bound rate) by (rewrite Hz; qconst).
  rewrite (Qle_bool_false rate (- float_bound)) by (rewrite Hz; qconst).
  cbn [orb]. by rewrite (proj2 (Qeq_bool_iff _ _) Hz).
Qed.

Lemma sleep_steady (rate : Q) :
  steady rate -> one_over rate = Ok (1 / rate)%Q /\ time_sleep (1 / rate) = Ok tt.
Proof.
  intros (Hpos & Hhi & Hper). split.
  - apply one_over_ok; [|by apply Qle_trans with 0%Q; [qconst|apply Qlt_le_weak]|done].
    intros Hz. rewrite Hz in Hpos. by apply Qlt_irrefl in Hpos.
  - apply time_sleep_ok; [|done].
    apply Qlt_le_weak, Qlt_shift_div_l; [done|]. by rewrite Qmult_0_l.
Qed.

(** [time.sleep(1.0/rate)] raises [e]. *)
Lemma period_error_raises (rate : Q) (e : Exn) :
  period_error rate e -> (d ← one_over rate; time_sleep d) = Raise e.
Proof.
  intros [[Hz ->]|[(Hlo & Hneg & Hper & ->)|(Hne & Hlo & Hhi & Hper & ->)]].
  - by rewrite one_over_zero.
  - rewrite one_over_ok, bind_ret;
      [|intros Hz; rewrite Hz in Hneg; by apply Qlt_irrefl in Hneg|done|
       by apply Qle_trans with 0%Q; [apply Qlt_le_weak|qconst]].
    apply time_sleep_negative; [|done].
    apply Qnot_le_lt. intros Hge.
    assert (0 <= 1 / rate * - rate)%Q as Hprod
      by (apply Qmult_le_0_compat; [done|]; apply (Qopp_le_compat rate 0), Qlt_le_weak, Hneg).
    assert (1 / rate * - rate == - 1)%Q as Heq.
    { field. intros Hz. rewrite Hz in Hneg. by apply Qlt_irrefl in Hneg. }
    rewrite Heq in Hprod. unfold Qle in Hprod. simpl in Hprod. lia.
  - rewrite one_over_ok, bind_ret by done. by apply time_sleep_overflow.
Qed.

End SleepFacts.

Module InputLayerFacts.
Import BaseLayer.

Lemma get_input_steady (g : nat -> Item) (rate : Q) (lg : list ProducerEvent) (c : nat) :
  steady rate ->
  get_input c (InputLayer.mk g rate lg) =
    Ok (g c, InputLayer.mk g rate (lg ++ pass_log (1 / rate) c)).
Proof.
  intros Hrate. change (get_input c (InputLayer.mk g rate lg))
    with (InputLayer.get_input c (InputLayer.mk g rate lg)).
  unfold InputLayer.get_input. cbn [InputLayer.rate InputLayer._generate InputLayer.log].
  destruct (SleepFacts.sleep_steady rate Hrate) as [-> Hs].
  by rewrite bind_ret, Hs, bind_ret.
Qed.

Lemma pass_frame c first b g rate lg tr :
  steady rate -> g c <> NONE -> g c <> STOP ->
  iteration (mk c NONE first false None (Single b) (InputLayer.mk g rate lg) tr) =
    Ok (mk (c + 1) NONE false false None (Single (BaseOutputLayer.handle_output (g c) b))
           (InputLayer.mk g rate (lg ++ pass_log (1 / rate) c))
           (tr ++ EvInput (g c) :: (if first then [EvPostInit (g c)] else []) ++
                  [EvTransform (g c) (g c); EvTick])).
Proof.
  intros Hrate Hn Hs. unfold iteration. cbn [counter self].
  rewrite (get_input_steady g rate lg c Hrate). simpl.
  destruct (g c) eqn:Hg; try done; destruct first; simpl; by rewrite <- ?app_assoc.
Qed.

Lemma pass_no_frame c first o g rate lg tr :
  steady rate -> g c = NONE ->
  iteration (mk c NONE first false None o (InputLayer.mk g rate lg) tr) =
    Ok (mk c NONE first false None o (InputLayer.mk g rate (lg ++ pass_log (1 / rate) c))
           (tr ++ [EvInput NONE])).
Proof.
  intros Hrate Hg. unfold iteration. cbn [counter self].
  rewrite (get_input_steady g rate lg c Hrate). simpl. by rewrite Hg.
Qed.

Lemma generated_app (lg1 lg2 : list ProducerEvent) :
  generated (lg1 ++ lg2) = generated lg1 ++ generated lg2.
Proof. apply omap_app. Qed.

Lemma generated_passes (d : Q) (cs : list nat) :
  generated (flat_map (pass_log d) cs) = cs.
Proof. induction cs as [|c cs IH]; [done|]. simpl. by rewrite IH. Qed.

Lemma frames_run (g : nat -> Item) (rate : Q) (n : nat) :
  steady rate ->
  forall c first b lg tr,
  (forall i, c <= i < c + n -> g i <> NONE /\ g i <> STOP) ->
  exists first' tr',
    while_loop n (mk c NONE first false None (Single b) (InputLayer.mk g rate lg) tr) =
      Ok (mk (c + n) NONE first' false None
            (Single (BaseOutputLayer.mk (emit_all (frames g c n) (BaseOutputLayer.out_port b))))
            (InputLayer.mk g rate (lg ++ flat_map (pass_log (1 / rate)) (seq c n))) tr').
Proof.
  intros Hrate. induction n as [|n IH]; intros c first b lg tr Hg.
  - exists first, tr. simpl. rewrite Nat.add_0_r, app_nil_r. by destruct b.
  - destruct (Hg c ltac:(lia)) as [Hn Hs].
    cbn [while_loop stop_event]. rewrite (pass_frame c first b g rate lg tr Hrate Hn Hs).
    rewrite bind_ret.
    destruct (IH (c + 1) false (BaseOutputLayer.handle_output (g c) b)
                 (lg ++ pass_log (1 / rate) c)
                 (tr ++ EvInput (g c) :: (if first then [EvPostInit (g c)] else []) ++
                        [EvTransform (g c) (g c); EvTick]))
      as (first' & tr' & ->); [intros i Hi; apply Hg; lia|].
    exists first', tr'. f_equal. f_equal; [lia| |].
    + unfold frames. simpl. by rewrite Nat.add_1_r.
    + cbn [seq flat_map]. by rewrite <- app_assoc, Nat.add_1_r.
Qed.

(** X11: [InputLayer(frame_generator, rate)] with a rate whose period
    [time.sleep] takes (a positive rate up to [10^300] with a period up
    to [9 * 10^9] seconds), whose generator gives a frame (neither [None]
    nor [STOP]) for each of the counters [0 .. n-1]: after [n] passes
    every subscriber has received exactly these [n] frames in order, the
    counter is [n], the layer is still running, and the generator has
    been called once with each of these counters, in order. *)
Theorem emits_frames (frame_generator : option (nat -> Item)) (rate : Q) (n : nat)
    (b : BaseOutputLayer.t) :
  let g := default generate frame_generator in
  steady rate ->
  (forall i, i < n -> g i <> NONE /\ g i <> STOP) ->
  exists L',
    while_loop n (init None (Single b) (InputLayer.init frame_generator rate)) = Ok L' /\
    counter L' = n /\ stop_event L' = false /\
    Port.out_queues (default_port (out L')) =
      map (fun q => q ++ frames g 0 n) (Port.out_queues (BaseOutputLayer.out_port b)) /\
    BaseLayer.emitted L' = Port.emitted (BaseOutputLayer.out_port b) ++ frames g 0 n /\
    generated (InputLayer.log (self L')) = seq 0 n.
Proof.
  intros g Hrate Hg.
  destruct (frames_run g rate n Hrate 0 true b [] []) as (first' & tr' & Hw);
    [intros i Hi; apply Hg; lia|].
  eexists. split; [exact Hw|]. unfold BaseLayer.emitted. simpl.
  destruct (PortFacts.emit_all_spec (frames g 0 n) (BaseOutputLayer.out_port b))
    as [-> ->].
  rewrite generated_passes.
  assert (not_None (frames g 0 n) = frames g 0 n) as ->; [|done].
  unfold frames, not_None. apply forallb_filter_id, forallb_forall.
  intros x (i & <- & Hi%in_seq)%in_map_iff.
  destruct (Hg i ltac:(lia)) as [Hn _]. by destruct (g i).
Qed.

Lemma stalls (g : nat -> Item) (rate : Q) (c m : nat) (first : bool)
    (o : OutputSide) (lg : list ProducerEvent) (tr : list LoopEvent) :
  steady rate ->
  g c = NONE ->
  while_loop m (mk c NONE first false None o (InputLayer.mk g rate lg) tr) =
    Ok (mk c NONE first false None o
          (InputLayer.mk g rate (lg ++ flat_map (pass_log (1 / rate)) (replicate m c)))
          (tr ++ replicate m (EvInput NONE))).
Proof.
  intros Hrate Hg. revert lg tr. induction m as [|m IH]; intros lg tr.
  - simpl. by rewrite !app_nil_r.
  - cbn [while_loop stop_event]. rewrite (pass_no_frame c first o g rate lg tr Hrate Hg).
    rewrite bind_ret, IH. cbn [replicate flat_map]. by rewrite <- !app_assoc.
Qed.

(** X12: a generator that returns [None] for the counter [c] holds the
    layer at [c]: the counter moves only with an emitted item, so every
    further pass calls the generator with the same [c], and nothing is
    emitted, whatever the generator would give for the counters after
    [c].  The rate is one whose period [time.sleep] takes. *)
Theorem stalls_on_None (g : nat -> Item) (rate : Q) (c m : nat) (first : bool)
    (o : OutputSide) (lg : list ProducerEvent) (tr : list LoopEvent) :
  steady rate ->
  g c = NONE ->
  exists lg',
    while_loop m (mk c NONE first false None o (InputLayer.mk g rate lg) tr) =
      Ok (mk c NONE first false None o (InputLayer.mk g rate lg')
            (tr ++ replicate m (EvInput NONE))) /\
    generated lg' = generated lg ++ replicate m c.
Proof.
  intros Hrate Hg. eexists. split; [by apply stalls|].
  by rewrite generated_app, generated_passes.
Qed.

Lemma steady_30 : steady 30.
Proof. repeat split; SleepFacts.qconst. Qed.

(** X11, on [InputLayer(rate=30)] with one subscriber, for three passes. *)
Lemma emits_frames_witness :
  exists L',
    while_loop 3 Scenario.counting = Ok L' /\
    counter L' = 3 /\ stop_event L' = false /\
    Port.out_queues (default_port (out L')) = [[Int 0; Int 1; Int 2]] /\
    BaseLayer.emitted L' = [Int 0; Int 1; Int 2] /\
    generated (InputLayer.log (self L')) = [0; 1; 2].
Proof.
  apply (emits_frames None 30 3 (BaseOutputLayer.mk (Port.get_output Port.init).2));
    [exact steady_30|intros i _; split; discriminate].
Defined.

(** X12, on a generator without a frame for the counter 1, after its
    first frame. *)
Lemma stalls_on_None_witness :
  exists lg',
    while_loop 2
      (mk 1 NONE false false None Scenario.one_subscriber
          (InputLayer.mk ScenarioProducers.gap 30 []) []) =
      Ok (mk 1 NONE false false None Scenario.one_subscriber
            (InputLayer.mk ScenarioProducers.gap 30 lg')
            [EvInput NONE; EvInput NONE]) /\
    generated lg' = [1; 1].
Proof.
  apply (stalls_on_None ScenarioProducers.gap 30 1 2 false Scenario.one_subscriber [] []);
    [exact steady_30|reflexivity].
Defined.

Lemma get_input_period_error (g : nat -> Item) (rate : Q) (lg : list ProducerEvent)
    (c : nat) (e : Exn) :
  period_error rate e -> get_input c (InputLayer.mk g rate lg) = Raise e.
Proof.
  intros He%SleepFacts.period_error_raises.
  change (get_input c (InputLayer.mk g rate lg))
    with (InputLayer.get_input c (InputLayer.mk g rate lg)).
  unfold InputLayer.get_input. cbn [InputLayer.rate].
  destruct (one_over rate) as [d|e0|]; simpl in He |- *;
    [by rewrite He|by injection He as ->|discriminate He].
Qed.

Lemma shots_get_input_period_error (c : nat) (s : MultipleShotInputLayer.t) (e : Exn) :
  period_error (MultipleShotInputLayer.rate s) e -> get_input c s = Raise e.
Proof.
  intros He%SleepFacts.period_error_raises.
  change (get_input c s) with (MultipleShotInputLayer.get_input c s).
  unfold MultipleShotInputLayer.get_input.
  destruct (_ <? _)%Z; [|destruct (_ =? _)%Z; [|destruct (MultipleShotInputLayer.expired s)]];
    cbn [negb MultipleShotInputLayer.rate MultipleShotInputLayer.set_expired];
    (destruct (one_over (MultipleShotInputLayer.rate s)) as [d|e0|];
       simpl in He |- *; [by rewrite He|by injection He as ->|discriminate He]).
Qed.

(** X13: when [time.sleep(1.0/rate)] fails, the producer ends in its
    first pass with that exception, before the generator is called and
    before anything is emitted: [ZeroDivisionError] for the rate 0,
    [ValueError] for a negative rate with a period within [9 * 10^9]
    seconds, [OverflowError] for a rate of either sign with a period
    beyond [10^10] seconds.  The same holds of [MultipleShotInputLayer],
    whatever the number of shots. *)
Theorem rate_errors (rate : Q) (e : Exn) (signal_in : option Queue) (o : OutputSide)
    (n : nat) :
  period_error rate e ->
  (forall g,
     process_loop (Datatypes.S n) (init signal_in o (InputLayer.init g rate)) = Raise e) /\
  (forall k h g fin,
     process_loop (Datatypes.S n)
       (init signal_in o (MultipleShotInputLayer.init k h g rate fin)) = Raise e).
Proof.
  intros He. split.
  - intros g. apply BaseLayerMore.process_loop_input_raises; [done|].
    by apply get_input_period_error.
  - intros k h g fin. apply BaseLayerMore.process_loop_input_raises; [done|].
    by apply (shots_get_input_period_error 0 (MultipleShotInputLayer.init k h g rate fin)).
Qed.

(** X13, on [InputLayer(rate=0)], [MultipleShotInputLayer(rate=-30)] and
    [InputLayer(rate=1e-10)]. *)
Lemma rate_errors_witness :
  process_loop 1 (init None Scenario.one_subscriber (InputLayer.init None 0)) =
    Raise ZeroDivisionError /\
  process_loop 1
    (init None Scenario.one_subscriber (MultipleShotInputLayer.init 3 None None (-30) false)) =
    Raise ValueError /\
  process_loop 1
    (init None Scenario.one_subscriber (InputLayer.init None (1 # 10000000000))) =
    Raise OverflowError.
Proof.
  split; [|split].
  - apply (rate_errors 0 ZeroDivisionError None Scenario.one_subscriber 0). by left.
  - apply (rate_errors (-30) ValueError None Scenario.one_subscriber 0).
    right. left. repeat split; SleepFacts.qconst.
  - apply (rate_errors (1 # 10000000000) OverflowError None Scenario.one_subscriber 0).
    right. right. repeat split; [discriminate|SleepFacts.qconst|SleepFacts.qconst|].
    left. SleepFacts.qconst.
Defined.

End InputLayerFacts.

Module OneShotFacts.
Import BaseLayer.

Lemma idle (c m : nat) (first : bool) (signal_in : option Queue) (o : OutputSide)
    (v : Item) (lg : list ProducerEvent) (tr : list LoopEvent) :
  c <> 0 ->
  while_loop m (mk c NONE first false signal_in o (OneShotInputLayer.mk v lg) tr) =
    Ok (mk c NONE first false signal_in o
          (OneShotInputLayer.mk v (lg ++ replicate m (Slept 1)))
          (tr ++ replicate m (EvInput NONE))).
Proof.
  intros Hc. revert lg tr. induction m as [|m IH]; intros lg tr.
  - simpl. by rewrite !app_nil_r.
  - cbn [while_loop stop_event]. unfold iteration. cbn [counter self]. simpl.
    unfold OneShotInputLayer.get_input. rewrite (proj2 (Nat.eqb_neq c 0) Hc). simpl.
    unfold set_self, log. simpl. rewrite IH. by rewrite <- !app_assoc.
Qed.

(** X14: [OneShotInputLayer(value)] with a value that is neither [None]
    nor [STOP] emits the value once, in its first pass; every pass after
    it sleeps one second and emits nothing, and the counter stays at 1. *)
Theorem fires_once (value : Item) (b : BaseOutputLayer.t) (m : nat) :
  value <> NONE -> value <> STOP ->
  while_loop (Datatypes.S m) (init None (Single b) (OneShotInputLayer.init value)) =
    Ok (mk 1 NONE false false None (Single (BaseOutputLayer.handle_output value b))
          (OneShotInputLayer.mk value (replicate m (Slept 1)))
          ([EvInput value; EvPostInit value; EvTransform value value; EvTick] ++
           replicate m (EvInput NONE))).
Proof.
  intros Hn Hs. cbn [while_loop init stop_event]. unfold iteration. cbn [counter self].
  simpl. unfold OneShotInputLayer.get_input. simpl.
  destruct value; try done; simpl; unfold OneShotInputLayer.init; by rewrite idle.
Qed.

(** X14, on [OneShotInputLayer(42)] with one subscriber, for three passes. *)
Lemma fires_once_witness :
  while_loop 3 Scenario.one_shot =
    Ok (mk 1 NONE false false None
          (Single (BaseOutputLayer.mk (Port.mk [[Int 42]] [Int 42])))
          (OneShotInputLayer.mk (Int 42) [Slept 1; Slept 1])
          [EvInput (Int 42); EvPostInit (Int 42); EvTransform (Int 42) (Int 42); EvTick;
           EvInput NONE; EvInput NONE]).
Proof.
  apply (fires_once (Int 42) (BaseOutputLayer.mk (Port.get_output Port.init).2) 2);
    discriminate.
Defined.

(** X15: [OneShotInputLayer(None)] never emits and never sleeps: the
    counter stays at 0, so every pass returns the value [None] at once,
    without [post_init], [transform] or a sleep. *)
Theorem None_never_fires (m : nat) (signal_in : option Queue) (o : OutputSide) :
  while_loop m (init signal_in o (OneShotInputLayer.init NONE)) =
    Ok (mk 0 NONE true false signal_in o (OneShotInputLayer.init NONE)
          (replicate m (EvInput NONE))).
Proof.
  unfold init.
  enough (forall tr,
            while_loop m (mk 0 NONE true false signal_in o (OneShotInputLayer.init NONE) tr) =
              Ok (mk 0 NONE true false signal_in o (OneShotInputLayer.init NONE)
                    (tr ++ replicate m (EvInput NONE)))) as Hgen by apply (Hgen []).
  induction m as [|m IH]; intros tr.
  - simpl. by rewrite app_nil_r.
  - cbn [while_loop stop_event]. unfold iteration. cbn [counter self]. simpl.
    unfold set_self, log. simpl. rewrite IH. by rewrite <- app_assoc.
Qed.

End OneShotFacts.

Module MultipleShotMore.
Import BaseLayer.

(** X16: [MultipleShotInputLayer(num_shots=n)] without [finish] fires
    [n-1] items, not [n]: with [n >= 1] the items are [0 .. n-2], the
    counter then stays at [n-1], the completion handler is called in
    every pass that follows and [expired] is never set; with [n <= 0]
    nothing is fired, the handler is never called and [expired] is set
    in the first pass. *)
Theorem shots_without_finish (n : Z) (m : nat) :
  let k := Z.to_nat (n - 1) in
  exists L',
    while_loop (k + Datatypes.S m)
      (init None Scenario.one_subscriber (MultipleShotInputLayer.init n None None 30 false))
      = Ok L' /\
    BaseLayer.emitted L' = Scenario.numbers 0 k /\
    counter L' = k /\
    if (1 <=? n)%Z
    then MultipleShotInputLayer.expired (self L') = false /\
         MultipleShotInputLayer.completions (self L') = Datatypes.S m
    else MultipleShotInputLayer.expired (self L') = true /\
         MultipleShotInputLayer.completions (self L') = 0.
Proof.
  intros k. destruct (1 <=? n)%Z eqn:Hn.
  - apply Z.leb_le in Hn.
    destruct (MultipleShotFacts.run_without_finish (Z.to_nat n) (Datatypes.S m) ltac:(lia))
      as (L' & Hw & He & Hc & Hx & Hk).
    rewrite Z2Nat.id in Hw by lia.
    replace (Z.to_nat n - 1) with k in * by lia. by exists L'.
  - apply Z.leb_gt in Hn. replace k with 0 by lia.
    destruct (MultipleShotFacts.expired_after 0 m true
                (BaseOutputLayer.mk (Port.get_output Port.init).2) n false false [] []
                ltac:(lia)) as (lg' & tr' & Hw & Hc).
    eexists. split; [exact Hw|]. by repeat split.
Qed.

(** X17: [MultipleShotInputLayer(num_shots=n, finish=True)] with
    [n >= 0] fires the items [0 .. n-1] and then [-1], calls the
    completion handler exactly once, with the [-1] shot, and sets
    [expired] in the pass after it; the counter stays at [n+1].  With
    [n < 0] nothing is fired, not even [-1], and the handler is never
    called. *)
Theorem shots_with_finish (n : Z) (m : nat) :
  let k := Z.to_nat n in
  exists L',
    while_loop (k + 1 + Datatypes.S m)
      (init None Scenario.one_subscriber (MultipleShotInputLayer.init n None None 30 true))
      = Ok L' /\
    MultipleShotInputLayer.expired (self L') = true /\
    if (0 <=? n)%Z
    then BaseLayer.emitted L' = Scenario.numbers 0 k ++ [Int (-1)] /\
         counter L' = k + 1 /\
         MultipleShotInputLayer.completions (self L') = 1
    else BaseLayer.emitted L' = [] /\
         counter L' = 0 /\
         MultipleShotInputLayer.completions (self L') = 0.
Proof.
  intros k. destruct (0 <=? n)%Z eqn:Hn.
  - apply Z.leb_le in Hn.
    destruct (MultipleShotFacts.run_with_finish (Z.to_nat n) m)
      as (L' & Hw & He & Hc & Hx & Hk).
    rewrite Z2Nat.id in Hw by lia. by exists L'.
  - apply Z.leb_gt in Hn. replace k with 0 by lia.
    destruct (MultipleShotFacts.expired_after 0 (Datatypes.S m) true
                (BaseOutputLayer.mk (Port.get_output Port.init).2) (n + 1) true false [] []
                ltac:(lia)) as (lg' & tr' & Hw & Hc).
    eexists. split; [exact Hw|]. by repeat split.
Qed.

End MultipleShotMore.

(** ** Input policies, continued *)

Module TransformMore.
Import TransformMixin.

Lemma set_queues_self (self : t) : set_queues (ports_in self) (feed self) self = self.
Proof. by destruct self. Qed.

Lemma sole_default_unwrap {A : Type} (ks : list string) (m : gmap string Item) (self : A) :
  ks <> [] ->
  (b ← sole_default ks;
   if b : bool then v ← getitem (Map m) "default"; Ok (v, self) else Ok (Map m, self)) =
    unwrap ks m self.
Proof.
  intros Hne. destruct ks as [|k ks]; [done|]. unfold unwrap, sole_default.
  destruct (decide (k :: ks = ["default"])) as [Heq|Hneq].
  - injection Heq as -> ->. rewrite bool_decide_eq_true_2 by done.
    cbn [String.eqb Ascii.eqb Bool.eqb length Nat.eqb andb mbind Outcome_bind getitem].
    by destruct (m !! "default").
  - rewrite bool_decide_eq_false_2 by done.
    assert (String.eqb k "default" && Nat.eqb (length (k :: ks)) 1 = false) as ->; [|done].
    destruct (String.eqb_spec k "default") as [->|Hk]; [|done].
    by destruct ks.
Qed.

(** X18: under [FASTEST] the keys are polled in the order of the key
    list and the first one with an item waiting wins: [get_input] returns
    this item alone, at once and without a sleep, and leaves the queues
    of the keys after it as they are, whatever waits there. *)
Theorem fastest_first_ready (passes : nat) (ks1 ks2 : list string) (k : string)
    (v : Item) (q : Queue) (self : t) :
  trigger self = Trigger FASTEST ->
  keys self = ks1 ++ k :: ks2 ->
  (forall k', k' ∈ ks1 -> ports_in (arrive self) !! k' = Some []) ->
  ports_in (arrive self) !! k = Some (v :: q) ->
  v <> NONE ->
  get_input (S passes) self =
    unwrap (keys self) {[k := v]}
      (set_queues (<[k := q]> (ports_in (arrive self))) (feed (arrive self)) (arrive self)).
Proof.
  intros Ht Hks Hempty Hk Hv.
  destruct (TransformFacts.arrive_frame self) as (Hk0 & _).
  unfold get_input. rewrite TransformFacts.arrive_trigger, Ht.
  rewrite (TransformFacts.get_any_first_ready passes ks1 ks2 k v q (arrive self));
    try done; [|by rewrite Hk0].
  rewrite bind_ret. cbn [keys set_queues]. rewrite Hk0.
  apply sole_default_unwrap. rewrite Hks. by destruct ks1.
Qed.

(** X18, on two inputs that both hold items: the first key wins. *)
Lemma fastest_first_ready_witness :
  get_input 1 ScenarioTransform.both_ready =
    Ok (Map {["a" := Int 1]},
        mk {["a" := []; "b" := [Int 2; Int 3]]} ["a"; "b"] false (Trigger FASTEST)
           NoSource [] []).
Proof.
  rewrite (fastest_first_ready 0 [] ["b"] "a" (Int 1) [] ScenarioTransform.both_ready);
    try done.
  intros k' Hk'. by apply elem_of_nil in Hk'.
Defined.

Lemma take_nowait_spec (once : bool) (key : string) (data : gmap string Item) (self : t)
    (q : Queue) :
  ports_in self !! key = Some q ->
  take_nowait once key data self =
    Ok (match taken (negb once) q with Some v => <[key := v]> data | None => data end,
        set_queues (<[key := left_over (negb once) q]> (ports_in self)) (feed self) self).
Proof.
  intros Hq. unfold take_nowait. rewrite Hq. destruct once; simpl.
  - by destruct q.
  - rewrite TransformFacts.drain_all. by destruct (last q).
Qed.

(** The non-blocking loop over a list of distinct keys. *)
Lemma get_all_nowait_keys_spec (ks : list string) (dis : bool) (data : gmap string Item)
    (self : t) :
  NoDup ks -> (forall k, k ∈ ks -> is_Some (ports_in self !! k)) ->
  exists m qs',
    get_all_nowait_keys ks dis data self = Ok (m, set_queues qs' (feed self) self) /\
    (forall k, k ∈ ks ->
       m !! k = from_option Some (data !! k) (taken dis (queue k self)) /\
       qs' !! k = Some (left_over dis (queue k self))) /\
    (forall k, k ∉ ks -> m !! k = data !! k /\ qs' !! k = ports_in self !! k).
Proof.
  revert data self. induction ks as [|k ks IH]; intros data self Hnd Hks.
  - exists data, (ports_in self). rewrite set_queues_self. split; [done|].
    split; [by intros k ?%elem_of_nil|done].
  - apply NoDup_cons in Hnd as [Hnin Hnd].
    destruct (Hks k ltac:(left)) as [q Hq].
    cbn [get_all_nowait_keys]. rewrite (take_nowait_spec _ k data self q Hq), bind_ret.
    rewrite negb_involutive.
    set (data1 := match taken dis q with Some v => <[k := v]> data | None => data end).
    set (self1 := set_queues (<[k := left_over dis q]> (ports_in self)) (feed self) self).
    destruct (IH data1 self1 Hnd) as (m & qs' & Hg & Hin & Hout).
    { intros k' Hk'. simpl. rewrite lookup_insert_ne by (intros ->; done).
      apply Hks. by right. }
    exists m, qs'. split; [exact Hg|]. split.
    + intros k' [->|Hk']%elem_of_cons.
      * destruct (Hout k Hnin) as [-> ->]. unfold queue. rewrite Hq. simpl.
        rewrite lookup_insert_eq. split; [|done]. subst data1.
        destruct (taken dis q); [by rewrite lookup_insert_eq|done].
      * assert (k' <> k) as Hne by (intros ->; done).
        destruct (Hin k' Hk') as [-> ->]. unfold queue. simpl.
        rewrite lookup_insert_ne by done. split; [|done]. subst data1.
        destruct (taken dis q); [by rewrite lookup_insert_ne|done].
    + intros k' [Hne Hk']%not_elem_of_cons.
      destruct (Hout k' Hk') as [-> ->]. simpl. rewrite lookup_insert_ne by done.
      split; [|done]. subst data1.
      destruct (taken dis q); [by rewrite lookup_insert_ne|done].
Qed.

(** Under [TIMER] with a duration that [time.sleep] takes, [get_input]
    sleeps and then runs the non-blocking loop over the keys. *)
Lemma timer_get_input (passes : nat) (self : t) (d : Q) :
  trigger self = Trigger TIMER ->
  trigger_source self = Seconds d ->
  time_sleep d = Ok tt ->
  keys self <> [] -> NoDup (keys self) ->
  (forall k, k ∈ keys self -> is_Some (ports_in self !! k)) ->
  exists s1 m qs',
    sleep d (arrive self) = Ok s1 /\
    slept s1 = slept self ++ [d] /\
    (forall k, k ∈ keys self -> is_Some (ports_in s1 !! k)) /\
    get_all_nowait_keys (keys self) (discard_old self) ∅ s1 =
      Ok (m, set_queues qs' (feed s1) s1) /\
    get_input passes self = unwrap (keys self) m (set_queues qs' (feed s1) s1).
Proof.
  intros Ht Hsrc Hd Hne Hnd Hks.
  destruct (TransformFacts.arrive_config self) as (Hk0 & Ht0 & Hd0 & Hdom0).
  destruct (TransformFacts.arrive_frame self) as (_ & Hs0 & _ & Hsrc0).
  assert (exists s1, sleep d (arrive self) = Ok s1) as [s1 Hsl].
  { unfold sleep. rewrite Hd. simpl. eauto. }
  pose proof (TransformFacts.sleep_frame _ _ _ Hsl) as [Hk1 Hs1].
  assert (discard_old s1 = discard_old self /\
          forall k, is_Some (ports_in s1 !! k) <-> is_Some (ports_in (arrive self) !! k))
    as [Hd1 Hdom1].
  { unfold sleep in Hsl. rewrite Hd in Hsl. simpl in Hsl. injection Hsl as <-.
    match goal with |- context [arrive ?s] =>
      destruct (TransformFacts.arrive_config s) as (_ & _ & Hd' & Hdom') end.
    split; [by rewrite Hd'|]. intros k. by rewrite Hdom'. }
  assert (forall k, k ∈ keys self -> is_Some (ports_in s1 !! k)) as Hks1
    by (intros k Hk; by apply Hdom1, Hdom0, Hks).
  rewrite Hk0 in Hk1.
  destruct (get_all_nowait_keys_spec (keys self) (discard_old self) ∅ s1 Hnd Hks1)
    as (m & qs' & Hg & _).
  exists s1, m, qs'. split; [done|]. split; [by rewrite Hs1, Hs0|].
  split; [done|]. split; [done|].
  unfold get_input. rewrite Ht0, Ht, Hsrc0, Hsrc, Hsl, bind_ret.
  unfold get_all_nowait. rewrite Hd1, Hk1, Hg, bind_ret. cbn [keys set_queues].
  rewrite Hk1. by apply sole_default_unwrap.
Qed.

(** X19: under [TIMER] with a period from 0 to [9 * 10^9] seconds,
    [get_input] sleeps the period and then takes what waits, without
    ever blocking: of each key with a waiting item the oldest one (the
    newest one with [discard_old], which empties the queue); a key on
    which nothing waits is missing from the result.  With the single key
    ["default"] the item is returned bare, and an empty queue then gives
    [KeyError]. *)
Theorem timer_takes_waiting (passes : nat) (self : t) (d : Q) :
  trigger self = Trigger TIMER ->
  trigger_source self = Seconds d ->
  (0 <= d)%Q -> (d <= period_max)%Q ->
  keys self <> [] -> NoDup (keys self) ->
  (forall k, k ∈ keys self -> is_Some (ports_in self !! k)) ->
  exists s1 m qs',
    sleep d (arrive self) = Ok s1 /\
    slept s1 = slept self ++ [d] /\
    (forall k, k ∈ keys self ->
       m !! k = taken (discard_old self) (queue k s1) /\
       qs' !! k = Some (left_over (discard_old self) (queue k s1))) /\
    (forall k, k ∉ keys self -> m !! k = None) /\
    get_input passes self = unwrap (keys self) m (set_queues qs' (feed s1) s1).
Proof.
  intros Ht Hsrc Hd Hmax Hne Hnd Hks.
  destruct (timer_get_input passes self d Ht Hsrc (SleepFacts.time_sleep_ok d Hd Hmax)
              Hne Hnd Hks)
    as (s1 & m & qs' & Hsl & Hs1 & Hks1 & Hg & Hgi).
  destruct (get_all_nowait_keys_spec (keys self) (discard_old self) ∅ s1 Hnd Hks1)
    as (m2 & qs2 & Hg2 & Hin & Hout).
  rewrite Hg in Hg2. injection Hg2 as <- <-.
  exists s1, m, qs'. split; [done|]. split; [done|]. split; [|split; [|done]].
  - intros k Hk. destruct (Hin k Hk) as [-> ->]. split; [|done].
    rewrite lookup_empty. by destruct (taken _ _).
  - intros k Hk. destruct (Hout k Hk) as [-> _]. apply lookup_empty.
Qed.

(** X19, on two inputs of which one is empty, without and with
    [discard_old]. *)
Lemma timer_takes_waiting_witness :
  (exists self', get_input 0 (ScenarioTransform.timed false) = Ok (Map {["a" := Int 1]}, self') /\
                 ports_in self' !! "a" = Some [Int 2]) /\
  (exists self', get_input 0 (ScenarioTransform.timed true) = Ok (Map {["a" := Int 2]}, self') /\
                 ports_in self' !! "a" = Some []).
Proof.
  assert (forall b, NoDup (keys (ScenarioTransform.timed b))) as Hnd.
  { intros b. apply NoDup_cons. split; [by intros ?%list_elem_of_singleton|].
    apply NoDup_singleton. }
  assert (forall b k, k ∈ keys (ScenarioTransform.timed b) ->
                      is_Some (ports_in (ScenarioTransform.timed b) !! k)) as Hks.
  { intros b k [->|[->|[]%elem_of_nil]%elem_of_cons]%elem_of_cons; by eexists. }
  split.
  - destruct (timer_takes_waiting 0 (ScenarioTransform.timed false) (1 # 10) eq_refl eq_refl
                ltac:(SleepFacts.qconst) ltac:(SleepFacts.qconst) ltac:(done)
                (Hnd false) (Hks false))
      as (s1 & m & qs' & Hsl & _ & _ & _ & _).
    eexists. split; reflexivity.
  - destruct (timer_takes_waiting 0 (ScenarioTransform.timed true) (1 # 10) eq_refl eq_refl
                ltac:(SleepFacts.qconst) ltac:(SleepFacts.qconst) ltac:(done)
                (Hnd true) (Hks true))
      as (s1 & m & qs' & Hsl & _ & _ & _ & _).
    eexists. split; reflexivity.
Defined.

Lemma get_ensure_keys_filter (ks : list string) (l : string) (dis : bool)
    (data : gmap string Item) (self : t) :
  get_ensure_keys ks l dis data self =
    get_all_nowait_keys (List.filter (fun k => negb (String.eqb k l)) ks) dis data self.
Proof.
  revert data self. induction ks as [|k ks IH]; intros data self; [done|].
  simpl. destruct (String.eqb k l); simpl; [apply IH|].
  destruct (take_nowait (negb dis) k data self) as [[d s]| |]; simpl; [apply IH|done|done].
Qed.

Lemma elem_of_filter_ne (ks : list string) (l k : string) :
  k ∈ List.filter (fun k => negb (String.eqb k l)) ks <-> k ∈ ks /\ k <> l.
Proof.
  rewrite !list_elem_of_In, List.filter_In, negb_true_iff.
  destruct (String.eqb_spec k l); split; intros [? ?]; by split.
Qed.

Lemma get_stream (key : string) (self s1 : t) (v : Item) :
  get key self = Ok (v, s1) ->
  (exists qs1 f1, s1 = set_queues qs1 f1 self) /\
  (forall k, is_Some (ports_in s1 !! k) <-> is_Some (ports_in self !! k)) /\
  stream key self = v :: stream key s1.
Proof.
  unfold get. intros Hg. step_bind Hg as [[v' qs1] f1] Hw. injection Hg as <- <-.
  apply TransformFacts.wait_stream in Hw as (_ & Hdom & Hs & _).
  split; [by eexists _, _|]. by split.
Qed.

(** What [get_ensure_layer] does for a trigger source that is a key of
    the layer, and for one that is not. *)
Lemma get_ensure_layer_spec (l : string) (dis : bool) (self : t) :
  NoDup (keys self) ->
  (forall k, k ∈ keys self -> is_Some (ports_in self !! k)) ->
  (l ∉ keys self -> get_ensure_layer (KeyName l) dis self = Raise AssertionError) /\
  (l ∈ keys self -> stream l self = [] ->
   get_ensure_layer (KeyName l) dis self = Blocked) /\
  (forall v rest, l ∈ keys self -> stream l self = v :: rest ->
   exists s1 m qs',
     get l self = Ok (v, s1) /\
     get_ensure_layer (KeyName l) dis self = Ok (m, set_queues qs' (feed s1) s1) /\
     m !! l = Some v /\
     stream l (set_queues qs' (feed s1) s1) = rest /\
     forall k, k ∈ keys self -> k <> l ->
       m !! k = taken dis (queue k s1) /\
       qs' !! k = Some (left_over dis (queue k s1))).
Proof.
  intros Hnd Hks. split; [|split].
  - intros Hl. unfold get_ensure_layer. by rewrite bool_decide_eq_false_2.
  - intros Hl Hs. unfold get_ensure_layer. rewrite bool_decide_eq_true_2 by done.
    destruct (TransformFacts.get_spec l self (Hks l Hl)) as [Hb _].
    rewrite Hb; [done|]. by rewrite TransformFacts.available_stream, Hs.
  - intros v rest Hl Hs. unfold get_ensure_layer. rewrite bool_decide_eq_true_2 by done.
    destruct (TransformFacts.get_spec l self (Hks l Hl)) as [_ Hok].
    destruct Hok as (v' & s1 & Hget & _); [rewrite TransformFacts.available_stream, Hs;
                                           simpl; lia|].
    destruct (get_stream l self s1 v' Hget) as ((qs1 & f1 & Hs1) & Hdom & Hst).
    rewrite Hs in Hst. injection Hst as <- Hrest.
    assert (keys s1 = keys self) as Hk1 by (by rewrite Hs1).
    rewrite Hget, bind_ret, Hk1, get_ensure_keys_filter, insert_empty.
    destruct (get_all_nowait_keys_spec
                (List.filter (fun k => negb (String.eqb k l)) (keys self)) dis {[l := v]} s1)
      as (m & qs' & Hg & Hin & Hout).
    { apply NoDup_ListNoDup, List.NoDup_filter, NoDup_ListNoDup, Hnd. }
    { intros k [Hk _]%elem_of_filter_ne. by apply Hdom, Hks. }
    assert (l ∉ List.filter (fun k => negb (String.eqb k l)) (keys self)) as Hnl
      by (rewrite elem_of_filter_ne; by intros [_ ?]).
    destruct (Hout l Hnl) as [Hml Hql].
    exists s1, m, qs'. split; [done|]. split; [done|].
    split; [by rewrite Hml, lookup_singleton_eq|]. split.
    + rewrite Hrest. unfold stream, strm. simpl. by rewrite Hql.
    + intros k Hk Hne. destruct (Hin k) as [-> ->]; [by apply elem_of_filter_ne|].
      split; [|done]. rewrite lookup_singleton_ne by done. by destruct (taken _ _).
Qed.

(** X20: under the [LAYER] policy the call waits for the trigger key
    alone.  It never returns while nothing is there for the trigger key,
    whatever waits on the other keys; otherwise the result holds the
    oldest item of the trigger key, of which nothing else is taken even
    with [discard_old], and of every other key what waits at that moment:
    the oldest item, with [discard_old] the newest one, or no entry.  A
    trigger source that is not a key of the layer gives
    [AssertionError]. *)
Theorem layer_trigger (passes : nat) (l : string) (self : t) :
  trigger self = Trigger LAYER ->
  trigger_source self = KeyName l ->
  NoDup (keys self) ->
  (forall k, k ∈ keys self -> is_Some (ports_in self !! k)) ->
  (l ∉ keys self -> get_input passes self = Raise AssertionError) /\
  (l ∈ keys self -> stream l self = [] -> get_input passes self = Blocked) /\
  (forall v rest, l ∈ keys self -> stream l self = v :: rest ->
   exists s1 m qs',
     get l (arrive self) = Ok (v, s1) /\
     get_input passes self = unwrap (keys self) m (set_queues qs' (feed s1) s1) /\
     m !! l = Some v /\
     stream l (set_queues qs' (feed s1) s1) = rest /\
     forall k, k ∈ keys self -> k <> l ->
       m !! k = taken (discard_old self) (queue k s1) /\
       qs' !! k = Some (left_over (discard_old self) (queue k s1))).
Proof.
  intros Ht Hsrc Hnd Hks.
  destruct (TransformFacts.arrive_config self) as (Hk0 & Ht0 & Hd0 & Hdom0).
  destruct (TransformFacts.arrive_frame self) as (_ & _ & _ & Hsrc0).
  assert (NoDup (keys (arrive self))) as Hnd0 by (by rewrite Hk0).
  assert (forall k, k ∈ keys (arrive self) -> is_Some (ports_in (arrive self) !! k)) as Hks0.
  { intros k Hk. rewrite Hk0 in Hk. by apply Hdom0, Hks. }
  destruct (get_ensure_layer_spec l (discard_old self) (arrive self) Hnd0 Hks0)
    as (Hout & Hblock & Hok).
  rewrite Hk0 in Hout, Hblock, Hok.
  assert (get_input passes self =
            ('(data, s) ← get_ensure_layer (KeyName l) (discard_old self) (arrive self);
             b ← sole_default (keys s);
             if b : bool then v ← getitem (Map data) "default"; Ok (v, s)
             else Ok (Map data, s))) as ->.
  { unfold get_input. by rewrite Ht0, Ht, Hsrc0, Hsrc, Hd0. }
  split; [|split].
  - intros Hl. by rewrite (Hout Hl).
  - intros Hl Hs. rewrite Hblock; [done|done|].
    by rewrite TransformFacts.arrive_stream by (by apply Hks).
  - intros v rest Hl Hs.
    destruct (Hok v rest Hl) as (s1 & m & qs' & Hget & Hens & Hm & Hrest & Hoth).
    { by rewrite TransformFacts.arrive_stream by (by apply Hks). }
    exists s1, m, qs'. split; [done|]. split; [|done].
    rewrite Hens, bind_ret. cbn [keys set_queues].
    destruct (get_stream l _ s1 v Hget) as ((qs1 & f1 & ->) & _).
    cbn [keys set_queues]. rewrite Hk0. apply sole_default_unwrap.
    intros He. rewrite He in Hl. by apply elem_of_nil in Hl.
Qed.

(** X20, on two inputs with two items each and the trigger key ["b"],
    with [discard_old]: the newest item of ["a"], the oldest of ["b"]. *)
Lemma layer_trigger_witness :
  exists m self',
    get_input 0 (ScenarioTransform.led true) = Ok (Map m, self') /\
    m !! "b" = Some (Int 10) /\ m !! "a" = Some (Int 2) /\
    stream "b" self' = [Int 20] /\ stream "a" self' = [].
Proof.
  assert (NoDup (keys (ScenarioTransform.led true))) as Hnd.
  { apply NoDup_cons. split; [by intros ?%list_elem_of_singleton|]. apply NoDup_singleton. }
  assert (forall k, k ∈ keys (ScenarioTransform.led true) ->
                    is_Some (ports_in (ScenarioTransform.led true) !! k)) as Hks.
  { intros k [->|[->|[]%elem_of_nil]%elem_of_cons]%elem_of_cons; by eexists. }
  assert ("b" ∈ keys (ScenarioTransform.led true)) as Hb by (right; left).
  assert ("a" ∈ keys (ScenarioTransform.led true)) as Ha by left.
  destruct (layer_trigger 0 "b" (ScenarioTransform.led true) eq_refl eq_refl Hnd Hks)
    as (_ & _ & Hok).
  destruct (Hok (Int 10) [Int 20] Hb eq_refl) as (s1 & m & qs' & Hget & Hg & Hmb & Hsb & Hoth).
  destruct (Hoth "a" Ha ltac:(done)) as [Hma Hqa].
  assert (s1 = set_queues {["a" := [Int 1; Int 2]; "b" := [Int 20]]} []
                 (ScenarioTransform.led true)) as Hs1.
  { assert (get "b" (arrive (ScenarioTransform.led true)) =
              Ok (Int 10, set_queues {["a" := [Int 1; Int 2]; "b" := [Int 20]]} []
                            (ScenarioTransform.led true))) as Hget' by reflexivity.
    rewrite Hget in Hget'. by injection Hget'. }
  exists m, (set_queues qs' (feed s1) s1). split; [exact Hg|]. split; [exact Hmb|].
  split; [by rewrite Hma, Hs1|]. split; [exact Hsb|].
  unfold stream, strm. cbn [ports_in set_queues feed]. rewrite Hqa. by rewrite Hs1.
Defined.







(** *** The errors of [get_input] *)









End TransformMore.

(** ** Wiring the inputs of a layer *)

Module WiringFacts.
Import TransformMixin.

Lemma set_inputs_cases (ins : list (Port.t * string)) (self : t) :
  NoDup (keys self) ->
  (forall k, ports_in self !! k = if bool_decide (k ∈ keys self) then Some [] else None) ->
  match set_inputs ins self with
  | Ok self' =>
      NoDup (keys self ++ ins.*2) /\ keys self' = keys self ++ ins.*2 /\
      (forall k, ports_in self' !! k =
                 if bool_decide (k ∈ keys self') then Some [] else None) /\
      trigger self' = trigger self /\ trigger_source self' = trigger_source self /\
      discard_old self' = discard_old self /\ feed self' = feed self
  | Raise e => e = AssertionError /\ ~ NoDup (keys self ++ ins.*2)
  | Blocked => False
  end.
Proof.
  revert self. induction ins as [|[p key] ins IH]; intros self Hnd Hq.
  - simpl. by rewrite app_nil_r.
  - cbn [set_inputs]. unfold set_input.
    destruct (bool_decide (key ∈ keys self)) eqn:Hin.
    + apply bool_decide_eq_true_1 in Hin. simpl. split; [done|].
      intros (_ & Hdis & _)%NoDup_app. apply (Hdis key Hin). left.
    + apply bool_decide_eq_false_1 in Hin. simpl.
      set (self1 := mk (<[key := []]> (ports_in self)) (keys self ++ [key])
                       (discard_old self) (trigger self) (trigger_source self)
                       (feed self) (slept self)).
      specialize (IH self1). simpl in IH. rewrite <- app_assoc in IH. simpl in IH.
      apply IH.
      * apply NoDup_app. split; [done|]. split; [|apply NoDup_singleton].
        by intros k Hk ->%list_elem_of_singleton.
      * intros k. destruct (decide (key = k)) as [<-|Hne].
        -- rewrite lookup_insert_eq, bool_decide_eq_true_2; [done|].
           apply elem_of_app. right. left.
        -- rewrite lookup_insert_ne, Hq by done.
           rewrite (bool_decide_ext (k ∈ keys self) (k ∈ keys self ++ [key])); [done|].
           rewrite elem_of_app, list_elem_of_singleton.
           split; [auto|]. intros [?|?]; [done|congruence].
Qed.

(** X23: the keys of a layer are the inputs given to it, in the order
    of the calls: ["default"] for the port of the constructor, then the
    key of each [set_input].  The calls succeed exactly when these keys
    are distinct, and the layer then has one empty queue for each key and
    no other; a repeated key, such as a second input without a key,
    fails with [AssertionError]. *)
Theorem wiring (port_in : option Port.t) (tr : TriggerValue) (src : TriggerSource)
    (d : bool) (ins : list (Port.t * string)) :
  let ks := (if port_in is Some _ then ["default"] else []) ++ ins.*2 in
  match wired port_in tr src d ins with
  | Ok self =>
      NoDup ks /\ keys self = ks /\
      (forall k, ports_in self !! k = if bool_decide (k ∈ ks) then Some [] else None) /\
      trigger self = tr /\ trigger_source self = src /\ discard_old self = d
  | Raise e => e = AssertionError /\ ~ NoDup ks
  | Blocked => False
  end.
Proof.
  intros ks. unfold wired.
  assert (exists self0 up,
            init port_in tr src d = Ok (self0, up) /\
            keys self0 = (if port_in is Some _ then ["default"] else []) /\
            NoDup (keys self0) /\
            (forall k, ports_in self0 !! k =
                       if bool_decide (k ∈ keys self0) then Some [] else None) /\
            trigger self0 = tr /\ trigger_source self0 = src /\ discard_old self0 = d)
    as (self0 & up & -> & Hk0 & Hnd0 & Hq0 & Ht0 & Hs0 & Hd0).
  { destruct port_in as [p|]; eexists _, _; (split; [reflexivity|]); simpl;
      (split; [done|]); (split; [|split; [|done]]).
    - apply NoDup_singleton.
    - intros k. destruct (decide ("default" = k)) as [<-|Hne].
      + by rewrite lookup_insert_eq, bool_decide_eq_true_2 by left.
      + rewrite lookup_insert_ne, lookup_empty, bool_decide_eq_false_2; [done| |done].
        by intros ->%list_elem_of_singleton.
    - apply NoDup_nil_2.
    - intros k. apply lookup_empty. }
  rewrite bind_ret. pose proof (set_inputs_cases ins self0 Hnd0 Hq0) as Hc.
  subst ks. rewrite <- Hk0.
  destruct (set_inputs ins self0) as [self| |]; [|done|done].
  destruct Hc as (Hnd & Hk & Hq & Ht & Hs & Hd & _).
  split; [done|]. split; [done|]. split; [intros k; by rewrite <- Hk|].
  repeat split; congruence.
Qed.

End WiringFacts.

(** ** A transform layer between two ports *)

Module TransformLayerFacts.
Import BaseLayer.

Lemma slowest_default_step (passes : nat) (m : TransformMixin.t) (v : Item)
    (rest : list Item) :
  single_slowest m -> TransformMixin.stream "default" m = v :: rest ->
  exists m',
    TransformMixin.get_input passes m = Ok (v, m') /\
    single_slowest m' /\ TransformMixin.stream "default" m' = rest.
Proof.
  intros (Ht & Hd & Hk & Hq) Hs.
  assert (NoDup (TransformMixin.keys m)) as Hnd by (rewrite Hk; apply NoDup_singleton).
  assert (forall k, k ∈ TransformMixin.keys m -> is_Some (TransformMixin.ports_in m !! k))
    as Hks by (rewrite Hk; by intros k ->%list_elem_of_singleton).
  destruct (TransformFacts.get_input_slowest_take passes m Ht Hd) as
    (d & m' & Hg & (Hk' & Ht' & Hd' & Hdom) & _); [by rewrite Hk|done| |].
  { intros k Hin. split; [by apply Hks|]. rewrite Hk in Hin.
    apply list_elem_of_singleton in Hin as ->.
    rewrite TransformFacts.available_stream, Hs. simpl. lia. }
  destruct (TransformFacts.get_input_slowest_shape passes m m' d Ht Hg)
    as (mm & Ha & _ & [[_ Hmd]|[Hc _]]); [|done].
  destruct (TransformFacts.arrive_config m) as (Hk0 & _ & Hd0 & Hdom0).
  unfold TransformMixin.get_all in Ha. rewrite Hk0, Hd in Ha.
  apply TransformFacts.get_all_keys_stream in Ha as (_ & Hin & _);
    [|done|intros k Hin; by apply Hdom0, Hks].
  destruct (Hin "default") as (j & Hj & Hmj & _ & Hsj); [rewrite Hk; left|].
  rewrite (Hj eq_refl), TransformFacts.arrive_stream, Hs in Hmj, Hsj by done.
  simpl in Hmj, Hsj. rewrite Hmd in Hmj. injection Hmj as ->.
  exists m'. split; [done|]. split; [|by rewrite Hsj, drop_0].
  unfold single_slowest. rewrite Hk', Ht', Hd'. repeat split; try done. by apply Hdom.
Qed.

Lemma pass_data (passes c : nat) (first : bool) (p : Port.t) (m : TransformMixin.t)
    (f : Item -> Item) (tr : list LoopEvent) (v : Item) (rest : list Item) :
  single_slowest m -> TransformMixin.stream "default" m = v :: rest -> is_data v ->
  exists m' tr',
    iteration (H := TransformLayer.ops passes)
      (mk c NONE first false None (Single (BaseOutputLayer.mk p)) (TransformLayer.mk m f) tr) =
      Ok (mk (if is_None (f v) then c else c + 1) NONE false false None
             (Single (BaseOutputLayer.mk (Port.handle_output (f v) p)))
             (TransformLayer.mk m' f) tr') /\
    single_slowest m' /\ TransformMixin.stream "default" m' = rest /\
    transformed tr' = transformed tr ++ [v].
Proof.
  intros Hm Hs [Hn Hstop].
  destruct (slowest_default_step passes m v rest Hm Hs) as (m' & Hg & Hm' & Hs').
  exists m'. unfold iteration. cbn [counter self].
  rewrite TransformLayer_get_input. unfold TransformLayer.get_input.
  cbn [TransformLayer.mixin TransformLayer.transformer]. rewrite Hg, !bind_ret.
  destruct v; try done; destruct first; simpl; destruct (f _); simpl;
    (eexists; split; [reflexivity|]; split; [done|]; split; [done|]);
    unfold set_self; cbn [trace]; rewrite !BaseLayerFacts.transformed_app; simpl;
    by rewrite ?app_nil_r.
Qed.

Lemma run_data (passes : nat) (f : Item -> Item) (vs rest : list Item) :
  Forall is_data vs ->
  forall c first p m tr,
  single_slowest m -> TransformMixin.stream "default" m = vs ++ rest ->
  exists first' m' tr',
    while_loop (H := TransformLayer.ops passes) (length vs)
      (mk c NONE first false None (Single (BaseOutputLayer.mk p)) (TransformLayer.mk m f) tr) =
      Ok (mk (c + length (not_None (map f vs))) NONE first' false None
             (Single (BaseOutputLayer.mk (emit_all (map f vs) p)))
             (TransformLayer.mk m' f) tr') /\
    single_slowest m' /\ TransformMixin.stream "default" m' = rest /\
    transformed tr' = transformed tr ++ vs.
Proof.
  induction 1 as [|v vs Hv Hvs IH]; intros c first p m tr Hm Hs.
  - exists first, m, tr. simpl. by rewrite Nat.add_0_r, app_nil_r.
  - destruct (pass_data passes c first p m f tr v (vs ++ rest) Hm Hs Hv)
      as (m1 & tr1 & Hit & Hm1 & Hs1 & Ht1).
    cbn [length while_loop stop_event]. rewrite Hit, bind_ret.
    destruct (IH (if is_None (f v) then c else c + 1) false (Port.handle_output (f v) p)
                 m1 tr1 Hm1 Hs1) as (first' & m' & tr' & Hw & Hm' & Hs' & Ht').
    exists first', m', tr'. split; [|by rewrite Ht', Ht1, <- app_assoc].
    rewrite Hw. do 2 f_equal.
    unfold not_None. simpl. destruct (is_None (f v)); simpl; lia.
Qed.

(** X24: a [TransformLayer] on one input under the default policy maps
    its input stream: after as many passes as there are data items, every
    subscriber has received the images of the items under the
    transformer, in order and without those that are [None]; the counter
    is the number of emitted items, and what comes behind these items is
    still to be taken.  With nothing behind them the next pass waits. *)
Theorem transform_layer_maps (passes : nat) (f : Item -> Item) (m : TransformMixin.t)
    (p : Port.t) (vs rest : list Item) :
  single_slowest m ->
  TransformMixin.stream "default" m = vs ++ rest ->
  Forall is_data vs ->
  let L := init None (Single (BaseOutputLayer.mk p)) (TransformLayer.mk m f) in
  (exists L',
     while_loop (H := TransformLayer.ops passes) (length vs) L = Ok L' /\
     BaseLayer.emitted L' = Port.emitted p ++ not_None (map f vs) /\
     Port.out_queues (default_port (out L')) =
       map (fun q => q ++ not_None (map f vs)) (Port.out_queues p) /\
     counter L' = length (not_None (map f vs)) /\
     stop_event L' = false /\
     TransformMixin.stream "default" (TransformLayer.mixin (self L')) = rest) /\
  (rest = [] ->
   while_loop (H := TransformLayer.ops passes) (length vs + 1) L = Blocked).
Proof.
  intros Hm Hs Hvs L. subst L. unfold init.
  destruct (run_data passes f vs rest Hvs 0 true p m [] Hm Hs)
    as (first' & m' & tr' & Hw & Hm' & Hs' & _).
  split.
  - eexists. split; [exact Hw|]. unfold BaseLayer.emitted. simpl.
    by destruct (PortFacts.emit_all_spec (map f vs) p) as [-> ->].
  - intros ->. rewrite BaseLayerFacts.while_loop_add, Hw, bind_ret.
    rewrite BaseLayerFacts.while_loop_1. cbn [stop_event].
    unfold iteration. cbn [counter self]. rewrite TransformLayer_get_input.
    unfold TransformLayer.get_input. cbn [TransformLayer.mixin].
    destruct Hm' as (Ht & _ & Hk & Hq).
    rewrite TransformFacts.get_input_slowest_blocked; [done|done|by rewrite Hk|].
    intros k Hin. rewrite Hk in Hin. apply list_elem_of_singleton in Hin as ->.
    split; [done|]. by rewrite TransformFacts.available_stream, Hs'.
Qed.

(** X25: the terminal [STOP] of the upstream layer goes through a
    [TransformLayer]: the data items before it are transformed and
    emitted, then the layer leaves its loop without giving [STOP] to the
    transformer and sends [STOP] to its own subscribers; what is behind
    [STOP] on the input is never taken. *)
Theorem transform_layer_passes_STOP (passes n : nat) (f : Item -> Item)
    (m : TransformMixin.t) (p : Port.t) (vs rest : list Item) :
  single_slowest m ->
  TransformMixin.stream "default" m = vs ++ STOP :: rest ->
  Forall is_data vs ->
  exists L',
    process_loop (H := TransformLayer.ops passes) (length vs + Datatypes.S n)
      (init None (Single (BaseOutputLayer.mk p)) (TransformLayer.mk m f)) = Ok (Some L') /\
    BaseLayer.emitted L' = Port.emitted p ++ not_None (map f vs) ++ [STOP] /\
    Port.out_queues (default_port (out L')) =
      map (fun q => q ++ not_None (map f vs) ++ [STOP]) (Port.out_queues p) /\
    counter L' = length (not_None (map f vs)) /\
    transformed (trace L') = vs /\
    TransformMixin.stream "default" (TransformLayer.mixin (self L')) = rest.
Proof.
  intros Hm Hs Hvs.
  destruct (run_data passes f vs (STOP :: rest) Hvs 0 true p m [] Hm Hs)
    as (first' & m1 & tr1 & Hw & Hm1 & Hs1 & Ht1).
  destruct (slowest_default_step passes m1 STOP rest Hm1 Hs1) as (m' & Hg & Hm' & Hs').
  unfold process_loop. rewrite BaseLayerFacts.while_loop_add.
  unfold init in *. rewrite Hw, bind_ret.
  cbn [while_loop stop_event].
  rewrite (BaseLayerMore.iteration_STOP (H := TransformLayer.ops passes) _
             (TransformLayer.mk m' f));
    [|cbn [counter self]; rewrite TransformLayer_get_input;
      unfold TransformLayer.get_input; cbn [TransformLayer.mixin TransformLayer.transformer];
      by rewrite Hg].
  rewrite bind_ret, BaseLayerFacts.while_loop_stopped by done. rewrite bind_ret.
  cbn [stop_event stop log set_self]. unfold on_exit. simpl.
  eexists. split; [reflexivity|]. unfold BaseLayer.emitted. simpl.
  destruct (PortFacts.emit_all_spec (map f vs) p) as [-> ->].
  rewrite <- app_assoc, map_map. split; [done|]. split.
  { apply map_ext. intros q. by rewrite <- app_assoc. }
  split; [done|]. split; [|done].
  by rewrite BaseLayerFacts.transformed_app, Ht1, app_nil_r.
Qed.

Lemma input_single_slowest : single_slowest ScenarioPipeline.input.
Proof. repeat split. by eexists. Qed.

Lemma input_is_data : Forall is_data [Int 1; Int 0; Int 2].
Proof. repeat (constructor; [by split|]). constructor. Qed.

(** X24, on a doubling layer whose input carries 1, 0 and 2: the
    transformer has nothing for 0. *)
Lemma transform_layer_maps_witness :
  exists L',
    while_loop (H := TransformLayer.ops 0) 3 ScenarioPipeline.doubler = Ok L' /\
    BaseLayer.emitted L' = [Int 2; Int 4] /\
    Port.out_queues (default_port (out L')) = [[Int 2; Int 4]] /\
    counter L' = 2 /\
    stop_event L' = false /\
    TransformMixin.stream "default" (TransformLayer.mixin (self L')) = [STOP].
Proof.
  exact (proj1 (transform_layer_maps 0 ScenarioPipeline.double ScenarioPipeline.input
                  (Port.get_output Port.init).2 [Int 1; Int 0; Int 2] [STOP]
                  input_single_slowest eq_refl input_is_data)).
Defined.

(** X25, on the same layer, whose input ends with [STOP]. *)
Lemma transform_layer_passes_STOP_witness :
  exists L',
    process_loop (H := TransformLayer.ops 0) 5 ScenarioPipeline.doubler = Ok (Some L') /\
    BaseLayer.emitted L' = [Int 2; Int 4; STOP] /\
    Port.out_queues (default_port (out L')) = [[Int 2; Int 4; STOP]] /\
    counter L' = 2 /\
    transformed (trace L') = [Int 1; Int 0; Int 2] /\
    TransformMixin.stream "default" (TransformLayer.mixin (self L')) = [].
Proof.
  exact (transform_layer_passes_STOP 0 1 ScenarioPipeline.double ScenarioPipeline.input
           (Port.get_output Port.init).2 [Int 1; Int 0; Int 2] []
           input_single_slowest eq_refl input_is_data).
Defined.

End TransformLayerFacts.

(** ** A decode layer between a port and its named ports *)

Module DecodeLayerPass.
Import BaseLayer.

Lemma scalar_raises (data : Item) (st : MultiOutput.t) :
  is_scalar data = true -> MultiOutput.port_keys st <> [] ->
  MultiOutput.handle_output data st = Raise TypeError.
Proof.
  intros Hdata Hne. unfold MultiOutput.handle_output.
  assert (is_None data = false) as -> by (by destruct data).
  destruct (MultiOutput.port_keys st) as [|k ks] eqn:Hks; [done|]. simpl.
  unfold MultiOutput.forward_key.
  assert (forall p, MultiOutput.try_forward data k p = Raise TypeError) as Htry
    by (intros p; by destruct data).
  destruct (MultiOutputFacts.port_keys_known st k) as [[p Hp]|[p Hp]];
    [rewrite Hks; by left| |].
  - by rewrite Hp, Htry.
  - destruct (MultiOutput.ports st !! k); by rewrite ?Hp, Htry.
Qed.

Lemma decode_iteration (passes c : nat) (first : bool) (o : MultiOutput.t)
    (m : TransformMixin.t) (dec : Item -> Item) (tr : list LoopEvent) (v : Item)
    (rest : list Item) :
  single_slowest m -> TransformMixin.stream "default" m = v :: rest -> is_data v ->
  exists m' tr1,
    single_slowest m' /\ TransformMixin.stream "default" m' = rest /\
    iteration (H := DecodeLayer.ops passes)
      (mk c NONE first false None (Multi o) (DecodeLayer.mk m dec) tr) =
      if is_None (dec v)
      then Ok (mk c NONE false false None (Multi o) (DecodeLayer.mk m' dec) tr1)
      else o' ← MultiOutput.handle_output (dec v) o;
           Ok (mk (c + 1) NONE false false None (Multi o') (DecodeLayer.mk m' dec)
                  (tr1 ++ [EvTick])).
Proof.
  intros Hm Hs [Hn Hstop].
  destruct (TransformLayerFacts.slowest_default_step passes m v rest Hm Hs)
    as (m' & Hg & Hm' & Hs').
  exists m',
    (tr ++ EvInput v :: (if first then [EvPostInit v] else []) ++ [EvTransform v (dec v)]).
  split; [done|]. split; [done|].
  unfold iteration. cbn [counter self].
  change (get_input (LayerOps := DecodeLayer.ops passes) c (DecodeLayer.mk m dec))
    with (DecodeLayer.get_input passes c (DecodeLayer.mk m dec)).
  unfold DecodeLayer.get_input. cbn [DecodeLayer.mixin DecodeLayer.decode].
  rewrite Hg, !bind_ret.
  destruct v; try done; destruct first; simpl;
    match goal with |- context [is_None (dec ?x)] => destruct (dec x) end;
    unfold log, set_self; simpl; rewrite <- ?app_assoc; simpl; try done;
    match goal with |- context [MultiOutput.handle_output ?d o] =>
      by destruct (MultiOutput.handle_output d o) end.
Qed.

(** X26: a pass of a [DecodeLayer] on a data item gives the item to the
    decoder and the decoded value to the ports, for a decoder whose
    values are [None], [STOP], numbers, strings and mappings.  When the
    decoder returns [None] the item is dropped and the counter stays.  A
    mapping goes to the default port as a whole, and each entry to the
    declared port of its name; a declared port without an entry gets
    nothing.  A number, a string or [STOP] raises [TypeError] as soon as
    the layer has a port, and reaches the default port only when it has
    none. *)
Theorem decode_layer_pass (passes c : nat) (first : bool) (o : MultiOutput.t)
    (m : TransformMixin.t) (dec : Item -> Item) (tr : list LoopEvent) (v : Item)
    (rest : list Item) :
  single_slowest m -> TransformMixin.stream "default" m = v :: rest -> is_data v ->
  let L := mk c NONE first false None (Multi o) (DecodeLayer.mk m dec) tr in
  match dec v with
  | NONE =>
      exists L',
        iteration (H := DecodeLayer.ops passes) L = Ok L' /\
        out L' = Multi o /\ counter L' = c /\
        TransformMixin.stream "default" (DecodeLayer.mixin (self L')) = rest
  | Map dm =>
      exists L' o',
        iteration (H := DecodeLayer.ops passes) L = Ok L' /\
        out L' = Multi o' /\ counter L' = c + 1 /\
        TransformMixin.stream "default" (DecodeLayer.mixin (self L')) = rest /\
        MultiOutput.base o' = BaseOutputLayer.handle_output (Map dm) (MultiOutput.base o) /\
        forall name p,
          MultiOutput.ports o !! name = Some p ->
          MultiOutput.auto_ports o !! name = None ->
          MultiOutput.ports o' !! name = Some (MultiOutput.forward (dm !! name) p)
  | data =>
      if bool_decide (MultiOutput.port_keys o = []) then
        exists L',
          iteration (H := DecodeLayer.ops passes) L = Ok L' /\
          counter L' = c + 1 /\
          out L' = Multi (MultiOutput.mk (MultiOutput.ports o) (MultiOutput.auto_ports o)
                            (BaseOutputLayer.handle_output data (MultiOutput.base o)))
      else iteration (H := DecodeLayer.ops passes) L = Raise TypeError
  end.
Proof.
  intros Hm Hs Hv L. subst L.
  destruct (decode_iteration passes c first o m dec tr v rest Hm Hs Hv)
    as (m' & tr1 & Hm' & Hs' & ->).
  assert (forall data, is_scalar data = true ->
            if bool_decide (MultiOutput.port_keys o = []) then
              MultiOutput.handle_output data o =
                Ok (MultiOutput.mk (MultiOutput.ports o) (MultiOutput.auto_ports o)
                      (BaseOutputLayer.handle_output data (MultiOutput.base o)))
            else MultiOutput.handle_output data o = Raise TypeError) as Hscalar.
  { intros data Hdata. destruct (decide (MultiOutput.port_keys o = [])) as [He|Hne].
    - rewrite bool_decide_eq_true_2 by done. unfold MultiOutput.handle_output.
      rewrite He. by destruct data.
    - rewrite bool_decide_eq_false_2 by done. by apply scalar_raises. }
  destruct (dec v) as [| |z|s|dm] eqn:Hdec; simpl.
  - by eexists.
  - specialize (Hscalar STOP eq_refl).
    destruct (bool_decide (MultiOutput.port_keys o = [])); rewrite Hscalar; [|done].
    by eexists.
  - specialize (Hscalar (Int z) eq_refl).
    destruct (bool_decide (MultiOutput.port_keys o = [])); rewrite Hscalar; [|done].
    by eexists.
  - specialize (Hscalar (Str s) eq_refl).
    destruct (bool_decide (MultiOutput.port_keys o = [])); rewrite Hscalar; [|done].
    by eexists.
  - destruct (MultiOutputFacts.forward_keys_mapping dm (MultiOutput.port_keys o) o)
      as (st1 & Hst1 & Hp & _ & Hb); [apply MultiOutputFacts.port_keys_known|].
    unfold MultiOutput.handle_output. simpl. rewrite Hst1. simpl.
    eexists _, _. split; [reflexivity|]. simpl. rewrite Hb.
    repeat split; try done.
    intros name p Hname Hauto.
    rewrite Hp, MultiOutputMore.occurrences_port_keys, Hname, Hauto. done.
Qed.

Lemma decode_input_ready : single_slowest ScenarioDecode.input.
Proof. repeat split. by eexists. Qed.

(** X26, on a layer with the declared ports ["x"] and ["y"] whose
    decoder gives [{x: 7}] for the waiting item 7. *)
Lemma decode_layer_pass_witness :
  exists L' o',
    iteration (H := DecodeLayer.ops 0) ScenarioDecode.decoder = Ok L' /\
    out L' = Multi o' /\ counter L' = 1 /\
    Port.emitted (BaseOutputLayer.out_port (MultiOutput.base o')) = [Map {["x" := Int 7]}] /\
    Port.emitted <$> MultiOutput.ports o' !! "x" = Some [Int 7] /\
    Port.emitted <$> MultiOutput.ports o' !! "y" = Some [].
Proof.
  destruct (decode_layer_pass 0 0 true ScenarioDecode.xy ScenarioDecode.input
              ScenarioDecode.decode_x [] (Int 7) [] decode_input_ready eq_refl
              ltac:(by split))
    as (L' & o' & Hit & Ho & Hc & _ & Hb & Hp).
  exists L', o'. split; [exact Hit|]. split; [exact Ho|]. split; [exact Hc|].
  split; [by rewrite Hb|].
  split; [by rewrite (Hp "x" Port.init)|by rewrite (Hp "y" Port.init)].
Defined.

End DecodeLayerPass.
